(** * A game master's trust boundary, dice combat and turn dispatch

    A shallow embedding of the Python sources

    - [ai/dungeon_master.py]  (the response validator [DungeonMaster._parse]),
    - [game/player.py]        (the [Player] mutation methods),
    - [game/combat.py]        (enemy registry and [CombatSystem]),
    - [game/engine.py]        (the combat dispatch of [GameEngine._game_loop]
                               and [GameEngine._run_combat]),

    together with the part of the Python runtime these rely on (module [Py]).

    Conventions.  A Python [int] is a [Z]; a Python [float] is a primitive
    binary64 [float]; a Python [str] is the list of its Unicode code points;
    a dynamically typed value (what [json.loads] returns) is a [value].  A call
    that may raise returns a [result].  Mutation of an object is explicit
    state passing: a method returns the updated object next to its result. *)

From Stdlib Require Import String Ascii DecimalString.
From Stdlib Require Import ZArith NArith Bool Lia Floats List.
Import ListNotations.

Local Open Scope Z_scope.

(* ------------------------------------------------------------------------- *)
(** * The Python runtime *)
(* ------------------------------------------------------------------------- *)

Module Py.

(** ** Text *)

Definition char := N.
Definition str := list char.

Definition cont (b : N) : N := N.land b 0x3F.

(** String literals of this file are written in UTF-8; [utf8_decode] turns
    the bytes of one into code points. *)
Fixpoint utf8_decode (bs : list N) : str :=
  match bs with
  | [] => []
  | b :: t =>
      if (b <? 0x80)%N then b :: utf8_decode t
      else if (b <? 0xE0)%N then
        match t with
        | b1 :: t1 => (N.shiftl (N.land b 0x1F) 6 + cont b1)%N :: utf8_decode t1
        | _ => []
        end
      else if (b <? 0xF0)%N then
        match t with
        | b1 :: b2 :: t2 =>
            (N.shiftl (N.land b 0x0F) 12 + N.shiftl (cont b1) 6 + cont b2)%N
              :: utf8_decode t2
        | _ => []
        end
      else
        match t with
        | b1 :: b2 :: b3 :: t3 =>
            (N.shiftl (N.land b 0x07) 18 + N.shiftl (cont b1) 12
             + N.shiftl (cont b2) 6 + cont b3)%N :: utf8_decode t3
        | _ => []
        end
  end.

Definition lit (s : string) : str :=
  utf8_decode (map N_of_ascii (list_ascii_of_string s)).
Arguments lit s%_string : simpl never.

(** A literal of JSON text: written with apostrophes where the text has
    double quotes. *)
Definition json_lit (s : string) : str :=
  map (fun c => if (c =? 39)%N then 34%N else c) (lit s).
Arguments json_lit s%_string : simpl never.

Fixpoint str_eqb (a b : str) : bool :=
  match a, b with
  | [], [] => true
  | x :: a', y :: b' => (x =? y)%N && str_eqb a' b'
  | _, _ => false
  end.

(** [x in (s1, s2, ...)] for a [str] x and a tuple or set of [str]. *)
Definition str_in (x : str) (l : list str) : bool := existsb (str_eqb x) l.

(** [str.isspace] on one character, which is also what [\s] matches in a
    [str] pattern. *)
Definition isspace (c : char) : bool :=
  (((0x09 <=? c) && (c <=? 0x0D)) || ((0x1C <=? c) && (c <=? 0x20))
   || (c =? 0x85) || (c =? 0xA0) || (c =? 0x1680)
   || ((0x2000 <=? c) && (c <=? 0x200A))
   || (c =? 0x2028) || (c =? 0x2029) || (c =? 0x202F) || (c =? 0x205F)
   || (c =? 0x3000))%N.

Fixpoint lstrip (s : str) : str :=
  match s with
  | c :: t => if isspace c then lstrip t else s
  | [] => []
  end.

Definition rstrip (s : str) : str := rev (lstrip (rev s)).

(** [s.strip()] *)
Definition strip (s : str) : str := rstrip (lstrip s).

Definition nl : str := [10%N].

(** [s[:n]] for [n >= 0] *)
Definition prefix (n : nat) (s : str) : str := firstn n s.

(** [s * n] *)
Definition str_mul (s : str) (n : Z) : str := concat (repeat s (Z.to_nat n)).

(** [sep.join(l)] *)
Fixpoint join (sep : str) (l : list str) : str :=
  match l with
  | [] => []
  | [x] => x
  | x :: t => x ++ sep ++ join sep t
  end.

(** [str(n)] for an [int].  (Recent Python versions refuse to convert an
    integer of more than 4300 digits; that limit is not followed here.) *)
Definition str_of_Z (n : Z) : str := lit (NilZero.string_of_int (Z.to_int n)).

(** [s.lower()] on the ASCII letters.  Python's [str.lower] maps the whole of
    Unicode; the definitions below that call it take it as a parameter, and
    this one stands in for it where a concrete run is needed. *)
Definition ascii_lower (s : str) : str :=
  map (fun c => if ((0x41 <=? c) && (c <=? 0x5A))%N then (c + 0x20)%N else c) s.

(** ** Exceptions *)

Inductive exn :=
  | AttributeError | TypeError | ValueError | OverflowError
  | ZeroDivisionError | RecursionError | JSONDecodeError.

Inductive result (A : Type) :=
  | Ok (a : A)
  | Raise (e : exn).
Arguments Ok {A} a.
Arguments Raise {A} e.

Definition bind {A B} (r : result A) (k : A -> result B) : result B :=
  match r with
  | Ok a => k a
  | Raise e => Raise e
  end.

Notation "x <- e ;; k" := (bind e (fun x => k))
  (at level 61, e at next level, right associativity).
Notation "' p <- e ;; k" := (bind e (fun x => let p := x in k))
  (at level 61, p pattern, e at next level, right associativity).

(** ** Floating point *)

(** [float(n)] for an [int]: the nearest binary64, ties to even;
    [OverflowError] when that would be an infinity. *)
Definition float_of_Z (n : Z) : result float :=
  match binary_normalize prec emax n 0 false with
  | S754_infinity _ => Raise OverflowError
  | sf => Ok (SF2Prim sf)
  end.

(** [a / b] for two [int]: the correctly rounded quotient. *)
Definition truediv (a b : Z) : result float :=
  if b =? 0 then Raise ZeroDivisionError
  else
    let neg := xorb (a <? 0) (b <? 0) in
    if a =? 0 then Ok (if neg then neg_zero else zero)
    else
      let '(q, e, l) := SFdiv_core_binary prec emax (Z.abs a) 0 (Z.abs b) 0 in
      match binary_round_aux prec emax neg q e l with
      | S754_infinity _ => Raise OverflowError
      | sf => Ok (SF2Prim sf)
      end.

(** [int(f)]: truncation towards zero. *)
Definition int_of_float (f : float) : result Z :=
  match Prim2SF f with
  | S754_nan => Raise ValueError
  | S754_infinity _ => Raise OverflowError
  | S754_zero _ => Ok 0
  | S754_finite s m e =>
      let a := if 0 <=? e then Z.shiftl (Zpos m) e else Z.shiftr (Zpos m) (- e) in
      Ok (if s then - a else a)
  end.

(** The value of the decimal numeral [m * 10^e] ([m >= 0]), negated when
    [neg]: what [float] makes of a numeral in a [str].  Too large a numeral
    is an infinity, not an error. *)
Definition float_of_decimal (neg : bool) (m e : Z) : float :=
  if m =? 0 then (if neg then neg_zero else zero)
  else if 0 <=? e then
    SF2Prim (binary_normalize prec emax ((if neg then -1 else 1) * (m * 10 ^ e)) 0 false)
  else
    let '(q, e', l) := SFdiv_core_binary prec emax m 0 (10 ^ (- e)) 0 in
    SF2Prim (binary_round_aux prec emax neg q e' l).

(** [min(a, b)] and [max(a, b)] on floats: the first argument is kept unless
    the second compares strictly below (above) it. *)
Definition fmin (a b : float) : float := if PrimFloat.ltb b a then b else a.
Definition fmax (a b : float) : float := if PrimFloat.ltb a b then b else a.

(** ** Dynamically typed values *)

#[warnings="-register-all"]
Inductive value :=
  | VNone
  | VBool (b : bool)
  | VInt (n : Z)
  | VFloat (f : float)
  | VStr (s : str)
  | VList (l : list value)
  | VDict (d : list (str * value)).

(** A [dict] with [str] keys is the list of its items; a key occurs once. *)
Fixpoint lookup (k : str) (d : list (str * value)) : option value :=
  match d with
  | [] => None
  | (k', v) :: t => if str_eqb k k' then Some v else lookup k t
  end.

(** [d[k] = v] *)
Fixpoint store (k : str) (v : value) (d : list (str * value)) : list (str * value) :=
  match d with
  | [] => [(k, v)]
  | (k', v') :: t => if str_eqb k k' then (k', v) :: t else (k', v') :: store k v t
  end.

(** [d.get(k, default)] on a [dict] *)
Definition dict_get (d : list (str * value)) (k : str) (default : value) : value :=
  match lookup k d with
  | Some v => v
  | None => default
  end.

(** [x.get(k, default)] on any value: only a [dict] has the method. *)
Definition get (x : value) (k : str) (default : value) : result value :=
  match x with
  | VDict d => Ok (dict_get d k default)
  | _ => Raise AttributeError
  end.

(** [bool(x)] *)
Definition truthy (x : value) : bool :=
  match x with
  | VNone => false
  | VBool b => b
  | VInt n => negb (n =? 0)
  | VFloat f => negb (PrimFloat.eqb f zero)
  | VStr s => match s with [] => false | _ => true end
  | VList l => match l with [] => false | _ => true end
  | VDict d => match d with [] => false | _ => true end
  end.

(** Whether [hash(x)] succeeds: a list or a dict has no hash. *)
Definition hashable (x : value) : bool :=
  match x with
  | VList _ | VDict _ => false
  | _ => true
  end.

(** [x in s] for a set [s] of [str]: the value is hashed first, and a list
    or dict has no hash; a value of another type than [str] equals no
    [str]. *)
Definition in_str_set (x : value) (s : list str) : result bool :=
  match x with
  | VList _ | VDict _ => Raise TypeError
  | VStr t => Ok (str_in t s)
  | _ => Ok false
  end.

(** [repr(x)] for [None], a [bool], an [int], and a [str] of printable ASCII
    characters other than the apostrophe and the backslash; the empty text
    for any other value.  Python's [repr] needs the Unicode tables and the
    shortest decimal of a float; the engine below takes it as a parameter,
    and this one stands in for it where a concrete run is needed. *)
Definition repr_plain (x : value) : str :=
  match x with
  | VNone => lit "None"
  | VBool b => if b then lit "True" else lit "False"
  | VInt n => str_of_Z n
  | VStr s =>
      if forallb (fun c => (32 <=? c) && (c <=? 126) && negb (c =? 39) && negb (c =? 92))%N s
      then lit "'" ++ s ++ lit "'"
      else []
  | _ => []
  end.

(** [str(x)], as an f-string shows a value: a [str] is its own text, any
    other value shows as its [repr]. *)
Definition format_ (repr : value -> str) (x : value) : str :=
  match x with
  | VStr s => s
  | _ => repr x
  end.

(** ** Keyword arguments from a decoded file

    [load] hands the items of a decoded JSON object to [__init__] as keyword
    arguments, and [__init__] stores the values unchecked.  The records of the game state give each
    field one type: of an argument, [None] stands for a value of another
    type, which this model does not follow; an absent argument takes the
    default. *)
Definition str_arg (v : option value) (default : str) : option str :=
  match v with
  | None => Some default
  | Some (VStr s) => Some s
  | Some _ => None
  end.

Definition int_arg (v : option value) (default : Z) : option Z :=
  match v with
  | None => Some default
  | Some (VInt n) => Some n
  | Some _ => None
  end.

(** A list of [str], from a list of values. *)
Fixpoint strs (l : list value) : option (list str) :=
  match l with
  | [] => Some []
  | VStr s :: t =>
      match strs t with
      | Some r => Some (s :: r)
      | None => None
      end
  | _ => None
  end.

(** [x or default] for a field that holds a list of [str] *)
Definition strs_or (v : option value) (default : list str) : option (list str) :=
  match v with
  | None => Some default
  | Some v =>
      if truthy v then
        match v with
        | VList l => strs l
        | _ => None
        end
      else Some default
  end.

(** Whether every keyword is a parameter: [__init__] raises [TypeError] on
    any other. *)
Definition expected (parameters : list str) (data : list (str * value)) : bool :=
  forallb (fun k => str_in k parameters) (map fst data).

Definition obind {A B : Type} (x : option A) (f : A -> option B) : option B :=
  match x with
  | Some a => f a
  | None => None
  end.

End Py.
Import Py.

(* ------------------------------------------------------------------------- *)
(** * A reference JSON decoder *)
(* ------------------------------------------------------------------------- *)

(** The validator is stated over any decoder (a parameter of its section).
    [Json.loads] is the decoder of the JSON grammar as [json.loads] reads it,
    used where a statement is evaluated on a concrete text.  It returns the
    values of Python's decoder: a JSON object as a dict (the last of two
    equal keys wins), an integer numeral as an [int], a numeral with a
    fraction or an exponent as a [float].  Nesting too deep for Python's stack
    and the length limit on integer numerals are left out. *)
Module Json.

Definition is_ws (c : char) : bool :=
  ((c =? 32) || (c =? 9) || (c =? 10) || (c =? 13))%N.

Fixpoint skip_ws (s : str) : str :=
  match s with
  | c :: t => if is_ws c then skip_ws t else s
  | [] => []
  end.

Definition digit (c : char) : option Z :=
  if ((48 <=? c) && (c <=? 57))%N then Some (Z.of_N c - 48) else None.

Definition hex (c : char) : option N :=
  if ((48 <=? c) && (c <=? 57))%N then Some (c - 48)%N
  else if ((97 <=? c) && (c <=? 102))%N then Some (c - 87)%N
  else if ((65 <=? c) && (c <=? 70))%N then Some (c - 55)%N
  else None.

Definition hex4 (a b c d : char) : option N :=
  match hex a, hex b, hex c, hex d with
  | Some a, Some b, Some c, Some d => Some (((a * 16 + b) * 16 + c) * 16 + d)%N
  | _, _, _, _ => None
  end.

(** The longest run of digits at the head of [s]: its value after [acc],
    how many there were after [n], and the rest. *)
Fixpoint digits (s : str) (acc n : Z) : Z * Z * str :=
  match s with
  | c :: t =>
      match digit c with
      | Some d => digits t (acc * 10 + d) (n + 1)
      | None => (acc, n, s)
      end
  | [] => (acc, n, s)
  end.

(** A numeral: an optional minus sign, then 0 or a run of digits that does
    not start with 0, then an optional fraction (a dot and digits), then an
    optional exponent (e or E, an optional sign, digits). *)
Definition scan_number (s : str) : option (value * str) :=
  let '(neg, s) :=
    match s with
    | c :: t => if (c =? 45)%N then (true, t) else (false, s)
    | [] => (false, s)
    end in
  let int_part :=
    match s with
    | c :: t =>
        if (c =? 48)%N then Some (0, t)
        else match digit c with
             | Some _ => let '(i, _, r) := digits s 0 0 in Some (i, r)
             | None => None
             end
    | [] => None
    end in
  match int_part with
  | None => None
  | Some (i, r) =>
      let '(frac, nfrac, r) :=
        match r with
        | c :: t =>
            if (c =? 46)%N then
              let '(f, n, r') := digits t 0 0 in
              if n =? 0 then (0, 0, r) else (f, n, r')
            else (0, 0, r)
        | [] => (0, 0, r)
        end in
      let '(e, has_exp, r) :=
        match r with
        | c :: t =>
            if ((c =? 101) || (c =? 69))%N then
              let '(eneg, t') :=
                match t with
                | c' :: t' =>
                    if (c' =? 45)%N then (true, t')
                    else if (c' =? 43)%N then (false, t') else (false, t)
                | [] => (false, t)
                end in
              let '(x, n, r') := digits t' 0 0 in
              if n =? 0 then (0, false, r)
              else ((if eneg then - x else x), true, r')
            else (0, false, r)
        | [] => (0, false, r)
        end in
      if (nfrac =? 0) && negb has_exp then Some (VInt (if neg then - i else i), r)
      else Some (VFloat (float_of_decimal neg (i * 10 ^ nfrac + frac) (e - nfrac)), r)
  end.

Definition escape (c : char) : option char :=
  if (c =? 34)%N then Some 34%N          (* quote *)
  else if (c =? 92)%N then Some 92%N     (* backslash *)
  else if (c =? 47)%N then Some 47%N     (* slash *)
  else if (c =? 98)%N then Some 8%N      (* b *)
  else if (c =? 102)%N then Some 12%N    (* f *)
  else if (c =? 110)%N then Some 10%N    (* n *)
  else if (c =? 114)%N then Some 13%N    (* r *)
  else if (c =? 116)%N then Some 9%N     (* t *)
  else None.

(** The text of a string after its opening quote, up to the closing one.
    [skip] counts characters of an escape still to drop; [acc] is the text
    read so far, reversed. *)
Fixpoint scan_string (skip : nat) (s : str) (acc : str) : option (str * str) :=
  match s with
  | [] => None
  | c :: t =>
      match skip with
      | S k => scan_string k t acc
      | O =>
          if (c =? 34)%N then Some (rev acc, t)
          else if (c =? 92)%N then
            match t with
            | e :: t1 =>
                if (e =? 117)%N then
                  match t1 with
                  | h1 :: h2 :: h3 :: h4 :: t2 =>
                      match hex4 h1 h2 h3 h4 with
                      | None => None
                      | Some u =>
                          let single := scan_string 5 t (u :: acc) in
                          if ((0xD800 <=? u) && (u <=? 0xDBFF))%N then
                            match t2 with
                            | b :: e' :: l1 :: l2 :: l3 :: l4 :: _ =>
                                if ((b =? 92) && (e' =? 117))%N then
                                  match hex4 l1 l2 l3 l4 with
                                  | None => None
                                  | Some lo =>
                                      if ((0xDC00 <=? lo) && (lo <=? 0xDFFF))%N then
                                        scan_string 11 t
                                          ((0x10000 + ((u - 0xD800) * 0x400
                                            + (lo - 0xDC00)))%N :: acc)
                                      else single
                                  end
                                else single
                            | _ => single
                            end
                          else single
                      end
                  | _ => None
                  end
                else
                  match escape e with
                  | Some x => scan_string 1 t (x :: acc)
                  | None => None
                  end
            | [] => None
            end
          else if (c <? 32)%N then None
          else scan_string 0 t (c :: acc)
      end
  end.

Definition starts_with (p s : str) : bool := str_eqb p (firstn (length p) s).

Definition constant (s : str) : option (value * str) :=
  if starts_with (lit "null") s then Some (VNone, skipn 4 s)
  else if starts_with (lit "true") s then Some (VBool true, skipn 4 s)
  else if starts_with (lit "false") s then Some (VBool false, skipn 5 s)
  else
    match scan_number s with
    | Some r => Some r
    | None =>
        if starts_with (lit "NaN") s then Some (VFloat nan, skipn 3 s)
        else if starts_with (lit "Infinity") s then Some (VFloat infinity, skipn 8 s)
        else if starts_with (lit "-Infinity") s then Some (VFloat neg_infinity, skipn 9 s)
        else None
    end.

(** One JSON value at the head of [s] and the text after it.  [fuel] bounds
    the calls; the length of the text is enough. *)
Fixpoint scan_value (fuel : nat) (s : str) : option (value * str) :=
  match fuel with
  | O => None
  | S fuel =>
      match s with
      | [] => None
      | c :: t =>
          if (c =? 34)%N then
            match scan_string 0 t [] with
            | Some (x, r) => Some (VStr x, r)
            | None => None
            end
          else if (c =? 123)%N then
            match skip_ws t with
            | c' :: r =>
                if (c' =? 125)%N then Some (VDict [], r)
                else scan_members fuel (skip_ws t) []
            | [] => None
            end
          else if (c =? 91)%N then
            match skip_ws t with
            | c' :: r =>
                if (c' =? 93)%N then Some (VList [], r)
                else scan_elements fuel (skip_ws t) []
            | [] => None
            end
          else constant s
      end
  end
with scan_elements (fuel : nat) (s : str) (acc : list value) : option (value * str) :=
  match fuel with
  | O => None
  | S fuel =>
      match scan_value fuel s with
      | Some (v, r) =>
          match skip_ws r with
          | c :: r' =>
              if (c =? 44)%N then scan_elements fuel (skip_ws r') (v :: acc)
              else if (c =? 93)%N then Some (VList (rev (v :: acc)), r')
              else None
          | [] => None
          end
      | None => None
      end
  end
with scan_members (fuel : nat) (s : str) (acc : list (str * value))
  : option (value * str) :=
  match fuel with
  | O => None
  | S fuel =>
      match s with
      | c :: t =>
          if (c =? 34)%N then
            match scan_string 0 t [] with
            | Some (k, r) =>
                match skip_ws r with
                | c1 :: r1 =>
                    if (c1 =? 58)%N then
                      match scan_value fuel (skip_ws r1) with
                      | Some (v, r2) =>
                          match skip_ws r2 with
                          | c2 :: r3 =>
                              if (c2 =? 44)%N then
                                scan_members fuel (skip_ws r3) (store k v acc)
                              else if (c2 =? 125)%N then
                                Some (VDict (store k v acc), r3)
                              else None
                          | [] => None
                          end
                      | None => None
                      end
                    else None
                | [] => None
                end
            | None => None
            end
          else None
      | [] => None
      end
  end.

(** [json.loads(s)] *)
Definition loads (s : str) : result value :=
  match scan_value (S (length s)) (skip_ws s) with
  | Some (v, r) =>
      match skip_ws r with
      | [] => Ok v
      | _ => Raise JSONDecodeError
      end
  | None => Raise JSONDecodeError
  end.

(** Digits with single underscores between them, as [float] reads them. *)
Fixpoint digits_ (s : str) (acc n : Z) : Z * Z * str :=
  match s with
  | c :: t =>
      match digit c with
      | Some d => digits_ t (acc * 10 + d) (n + 1)
      | None =>
          if ((c =? 95)%N && (0 <? n))%bool then
            match t with
            | c' :: _ => match digit c' with
                         | Some _ => digits_ t acc n
                         | None => (acc, n, s)
                         end
            | [] => (acc, n, s)
            end
          else (acc, n, s)
      end
  | [] => (acc, n, s)
  end.

(** [float(s)] for a [str] of ASCII digits: blanks around, a sign, then
    inf, infinity or nan in any case, or a decimal numeral. *)
Definition float_of_str (s : str) : option float :=
  let s := strip s in
  let '(neg, s) :=
    match s with
    | c :: t => if (c =? 45)%N then (true, t)
                else if (c =? 43)%N then (false, t) else (false, s)
    | [] => (false, s)
    end in
  let low := ascii_lower s in
  if str_eqb low (lit "inf") || str_eqb low (lit "infinity") then
    Some (if neg then neg_infinity else infinity)
  else if str_eqb low (lit "nan") then Some nan
  else
    let '(i, ni, r) := digits_ s 0 0 in
    let '(f, nf, r) :=
      match r with
      | c :: t => if (c =? 46)%N then digits_ t 0 0 else (0, 0, r)
      | [] => (0, 0, r)
      end in
    if (ni + nf =? 0) then None
    else
      let exponent :=
        match r with
        | [] => Some 0
        | c :: t =>
            if ((c =? 101) || (c =? 69))%N then
              let '(eneg, t) :=
                match t with
                | c' :: t' =>
                    if (c' =? 45)%N then (true, t')
                    else if (c' =? 43)%N then (false, t') else (false, t)
                | [] => (false, t)
                end in
              match digits_ t 0 0 with
              | (x, n, []) => if n =? 0 then None else Some (if eneg then - x else x)
              | _ => None
              end
            else None
        end in
      match exponent with
      | Some e => Some (float_of_decimal neg (i * 10 ^ nf + f) (e - nf))
      | None => None
      end.

End Json.

(* ------------------------------------------------------------------------- *)
(** * game/player.py *)
(* ------------------------------------------------------------------------- *)

Module Player.

Record Player := {
  name : str;
  hp : Z;
  max_hp : Z;
  strength : Z;
  intelligence : Z;
  gold : Z;
  inventory : list str;
  level : Z;
  xp : Z
}.

(** [Player()], every argument at its default *)
Definition default : Player :=
  {| name := lit "Adventurer"; hp := 20; max_hp := 20; strength := 5;
     intelligence := 5; gold := 10;
     inventory := [lit "Torch"; lit "Rations x3"]; level := 1; xp := 0 |}.

Definition set_hp (self : Player) (v : Z) : Player :=
  {| name := name self; hp := v; max_hp := max_hp self;
     strength := strength self; intelligence := intelligence self;
     gold := gold self; inventory := inventory self; level := level self;
     xp := xp self |}.

Definition set_xp (self : Player) (v : Z) : Player :=
  {| name := name self; hp := hp self; max_hp := max_hp self;
     strength := strength self; intelligence := intelligence self;
     gold := gold self; inventory := inventory self; level := level self;
     xp := v |}.

Definition set_gold (self : Player) (v : Z) : Player :=
  {| name := name self; hp := hp self; max_hp := max_hp self;
     strength := strength self; intelligence := intelligence self;
     gold := v; inventory := inventory self; level := level self;
     xp := xp self |}.

Definition set_inventory (self : Player) (v : list str) : Player :=
  {| name := name self; hp := hp self; max_hp := max_hp self;
     strength := strength self; intelligence := intelligence self;
     gold := gold self; inventory := v; level := level self;
     xp := xp self |}.

(** Each method returns its result and the player after the call. *)

Definition take_damage (self : Player) (amount : Z) : Z * Player :=
  let actual := Z.min amount (hp self) in
  let self := set_hp self (Z.max 0 (hp self - amount)) in
  (actual, self).

Definition heal (self : Player) (amount : Z) : Z * Player :=
  let actual := Z.min amount (max_hp self - hp self) in
  let self := set_hp self (Z.min (max_hp self) (hp self + amount)) in
  (actual, self).

Definition _level_up (self : Player) : Player :=
  (* self.level += 1; self.max_hp += 5; self.hp = self.max_hp;
     self.strength += 1; self.intelligence += 1 *)
  {| name := name self; hp := max_hp self + 5; max_hp := max_hp self + 5;
     strength := strength self + 1; intelligence := intelligence self + 1;
     gold := gold self; inventory := inventory self; level := level self + 1;
     xp := xp self |}.

Definition gain_xp (self : Player) (amount : Z) : bool * Player :=
  let self := set_xp self (xp self + amount) in
  let threshold := level self * 100 in
  if xp self >=? threshold then
    let self := set_xp self (xp self - threshold) in
    let self := _level_up self in
    (true, self)
  else (false, self).

Definition add_item (self : Player) (item : str) : Player :=
  set_inventory self (inventory self ++ [item]).

(** [l.remove(x)]: the first occurrence goes. *)
Fixpoint list_remove (x : str) (l : list str) : list str :=
  match l with
  | [] => []
  | y :: t => if str_eqb x y then t else y :: list_remove x t
  end.

Definition remove_item (self : Player) (item : str) : bool * Player :=
  if str_in item (inventory self) then
    (true, set_inventory self (list_remove item (inventory self)))
  else (false, self).

Definition modify_gold (self : Player) (delta : Z) : bool * Player :=
  if gold self + delta <? 0 then (false, self)
  else (true, set_gold self (gold self + delta)).

Definition is_alive (self : Player) : bool := hp self >? 0.

Definition status_str (self : Player) : result str :=
  let bar_len := 10 in
  ratio <- truediv (hp self) (max_hp self) ;;
  len <- float_of_Z bar_len ;;
  filled <- int_of_float (PrimFloat.mul ratio len) ;;
  let bar := str_mul (lit "█") filled ++ str_mul (lit "░") (bar_len - filled) in
  Ok (lit "[" ++ name self ++ lit " | Lv." ++ str_of_Z (level self)
      ++ lit " | HP: " ++ bar ++ lit " " ++ str_of_Z (hp self) ++ lit "/"
      ++ str_of_Z (max_hp self) ++ lit " | STR:" ++ str_of_Z (strength self)
      ++ lit " INT:" ++ str_of_Z (intelligence self) ++ lit " | Gold:"
      ++ str_of_Z (gold self) ++ lit "g]").

(** ** Persistence *)

Definition to_dict (self : Player) : list (str * value) :=
  [ (lit "name", VStr (name self));
    (lit "hp", VInt (hp self));
    (lit "max_hp", VInt (max_hp self));
    (lit "strength", VInt (strength self));
    (lit "intelligence", VInt (intelligence self));
    (lit "gold", VInt (gold self));
    (lit "inventory", VList (map VStr (inventory self)));
    (lit "level", VInt (level self));
    (lit "xp", VInt (xp self)) ].

Definition PARAMETERS : list str :=
  [ lit "name"; lit "hp"; lit "max_hp"; lit "strength"; lit "intelligence";
    lit "gold"; lit "inventory"; lit "level"; lit "xp" ].

(** [Player] with the items of [data] as keyword arguments.  The inventory is the default one only when the
    argument is absent or None: an empty list stays empty. *)
Definition __init__ (data : list (str * value)) : option (result Player) :=
  if negb (expected PARAMETERS data) then Some (Raise TypeError)
  else
    obind (str_arg (lookup (lit "name") data) (lit "Adventurer")) (fun a_name =>
    obind (int_arg (lookup (lit "hp") data) 20) (fun a_hp =>
    obind (int_arg (lookup (lit "max_hp") data) 20) (fun a_max_hp =>
    obind (int_arg (lookup (lit "strength") data) 5) (fun a_strength =>
    obind (int_arg (lookup (lit "intelligence") data) 5) (fun a_intelligence =>
    obind (int_arg (lookup (lit "gold") data) 10) (fun a_gold =>
    obind (match lookup (lit "inventory") data with
           | None | Some VNone => Some [lit "Torch"; lit "Rations x3"]
           | Some (VList l) => strs l
           | Some _ => None
           end) (fun a_inventory =>
    obind (int_arg (lookup (lit "level") data) 1) (fun a_level =>
    obind (int_arg (lookup (lit "xp") data) 0) (fun a_xp =>
    Some (Ok {| name := a_name; hp := a_hp; max_hp := a_max_hp;
                strength := a_strength; intelligence := a_intelligence;
                gold := a_gold; inventory := a_inventory; level := a_level;
                xp := a_xp |})))))))))).

(** [Player.load(path)]: [file] is the text of the file at [path], [None]
    when there is none; [loads] is [json.loads]. *)
Definition load (loads : str -> result value) (file : option str)
  : option (result Player) :=
  match file with
  | None => Some (Ok default)
  | Some text =>
      match loads text with
      | Raise e => Some (Raise e)
      | Ok (VDict data) => __init__ data
      | Ok _ => Some (Raise TypeError)
      end
  end.

End Player.

(* ------------------------------------------------------------------------- *)
(** * game/combat.py *)
(* ------------------------------------------------------------------------- *)

Module Combat.

(** An enemy is a dict with the keys [make_enemy] gives it. *)
Record Enemy := {
  name : str;
  hp : Z;
  max_hp : Z;
  attack : Z;
  defense : Z;
  xp_reward : Z;
  gold_reward : Z;
  loot : list str
}.

Definition make_enemy (name : str) (hp attack defense xp_reward gold_reward : Z)
    (loot : list str) : Enemy :=
  {| name := name; hp := hp; max_hp := hp; attack := attack;
     defense := defense; xp_reward := xp_reward; gold_reward := gold_reward;
     loot := loot |}.

Definition ENEMY_TEMPLATES : list (str * Enemy) :=
  [ (lit "goblin", make_enemy (lit "Goblin Scout") 8 2 8 30 5 [lit "Rusty Dagger"]);
    (lit "skeleton", make_enemy (lit "Skeleton Warrior") 12 3 10 50 8 [lit "Bone Shard"]);
    (lit "dark_wolf", make_enemy (lit "Shadow Wolf") 15 4 9 60 0 [lit "Wolf Pelt"]);
    (lit "cultist", make_enemy (lit "Ashveil Cultist") 14 5 11 75 12 [lit "Ritual Scroll"]);
    (lit "cave_troll", make_enemy (lit "Cave Troll") 30 6 12 150 20
                         [lit "Troll Hide"; lit "Crude Club"]) ].

Fixpoint template (k : str) (d : list (str * Enemy)) : option Enemy :=
  match d with
  | [] => None
  | (k', e) :: t => if str_eqb k k' then Some e else template k t
  end.

(** [get_enemy(key)]: a fresh copy of the template, [ValueError] for a key
    that is not in the table ([TypeError] for one that cannot be hashed). *)
Definition get_enemy (key : value) : result Enemy :=
  match key with
  | VList _ | VDict _ => Raise TypeError
  | VStr k =>
      match template k ENEMY_TEMPLATES with
      | Some e => Ok e
      | None => Raise ValueError
      end
  | _ => Raise ValueError
  end.

Definition set_hp (e : Enemy) (v : Z) : Enemy :=
  {| name := name e; hp := v; max_hp := max_hp e; attack := attack e;
     defense := defense e; xp_reward := xp_reward e;
     gold_reward := gold_reward e; loot := loot e |}.

Record CombatLog := {
  rounds : list str;
  outcome : str;
  xp_gained : Z;
  gold_gained : Z;
  loot_gained : list str
}.

(** [CombatLog()] *)
Definition empty_log : CombatLog :=
  {| rounds := []; outcome := []; xp_gained := 0; gold_gained := 0;
     loot_gained := [] |}.

Definition add (l : CombatLog) (line : str) : CombatLog :=
  {| rounds := rounds l ++ [line]; outcome := outcome l;
     xp_gained := xp_gained l; gold_gained := gold_gained l;
     loot_gained := loot_gained l |}.

Definition set_outcome (l : CombatLog) (o : str) : CombatLog :=
  {| rounds := rounds l; outcome := o; xp_gained := xp_gained l;
     gold_gained := gold_gained l; loot_gained := loot_gained l |}.

Record CombatSystem := {
  player : Player.Player;
  enemy : Enemy;
  log : CombatLog
}.

(** [CombatSystem(player, enemy)] *)
Definition __init__ (player : Player.Player) (enemy : Enemy) : CombatSystem :=
  {| player := player; enemy := enemy; log := empty_log |}.

Definition with_player (self : CombatSystem) (p : Player.Player) : CombatSystem :=
  {| player := p; enemy := enemy self; log := log self |}.

Definition with_enemy (self : CombatSystem) (e : Enemy) : CombatSystem :=
  {| player := player self; enemy := e; log := log self |}.

Definition with_log (self : CombatSystem) (l : CombatLog) : CombatSystem :=
  {| player := player self; enemy := enemy self; log := l |}.

(** [self.log.add(line)] *)
Definition log_add (self : CombatSystem) (line : str) : CombatSystem :=
  with_log self (add (log self) line).

Definition FLEE_BASE_CHANCE : float := 0x1.999999999999ap-2%float.  (* 0.4 *)

Definition _player_hits (self : CombatSystem) (roll : Z) : bool :=
  roll >=? defense (enemy self).

Definition _enemy_hits (self : CombatSystem) (roll : Z) : bool :=
  roll + attack (enemy self) >=? 10.

Definition _player_damage (self : CombatSystem) (roll : Z) : Z :=
  roll + Player.strength (player self).

(** [_resolve_victory]: rewards through the player's own methods. *)
Definition _resolve_victory (self : CombatSystem) : CombatSystem :=
  let xp := xp_reward (enemy self) in
  let gold := gold_reward (enemy self) in
  let loot := loot (enemy self) in
  let '(levelled_up, p) := Player.gain_xp (player self) xp in
  let '(_, p) := Player.modify_gold p gold in
  let p := fold_left Player.add_item loot p in
  let self := with_player self p in
  let self :=
    with_log self
      {| rounds := rounds (log self); outcome := lit "victory";
         xp_gained := xp; gold_gained := gold; loot_gained := loot |} in
  let self :=
    log_add self
      (nl ++ lit "✨ " ++ name (enemy self) ++ lit " falls! You gain " ++ str_of_Z xp
       ++ lit " XP and " ++ str_of_Z gold ++ lit " gold.") in
  let self :=
    match loot with
    | [] => self
    | _ => log_add self (lit "   Loot: " ++ join (lit ", ") loot)
    end in
  if levelled_up then
    log_add self
      (nl ++ lit "🌟 LEVEL UP! You are now level " ++ str_of_Z (Player.level (player self))
       ++ lit ". HP fully restored to "
       ++ str_of_Z (Player.max_hp (player self)) ++ lit ".")
  else self.

(** The dice.  Python's [random] module is one shared generator; its state
    is threaded through every roll.  The generator itself is a parameter:
    [randint a b] and [random] return the draw and the generator after it. *)
Section Dice.

Variable rng : Type.
Variable randint : Z -> Z -> rng -> Z * rng.
Variable random : rng -> float * rng.

Definition roll_d20 (g : rng) : Z * rng := randint 1 20 g.
Definition roll_d6 (g : rng) : Z * rng := randint 1 6 g.

Definition _enemy_damage (self : CombatSystem) (roll : Z) (g : rng) : Z * rng :=
  let '(d6, g) := roll_d6 g in
  (d6 + attack (enemy self), g).

Definition attempt_flee (self : CombatSystem) (g : rng) : result (bool * rng) :=
  i <- float_of_Z (Player.intelligence (player self)) ;;
  let chance :=
    PrimFloat.add FLEE_BASE_CHANCE (PrimFloat.mul i 0x1.47ae147ae147bp-6%float) in
  let '(r, g) := random g in
  Ok (PrimFloat.ltb r chance, g).

(** The part of [resolve_round] after the player's action: the check of
    the enemy's death, the enemy's counter-attack, the check of the
    player's death. *)
Definition enemy_turn (self : CombatSystem) (g : rng) : bool * CombatSystem * rng :=
  let enemy_name := name (enemy self) in
  if hp (enemy self) <=? 0 then
    (false, _resolve_victory self, g)
  else
    let '(e_roll, g) := roll_d20 g in
    let '(self, g) :=
      if _enemy_hits self e_roll then
        let '(dmg, g) := _enemy_damage self e_roll g in
        let '(actual, p) := Player.take_damage (player self) dmg in
        let self := with_player self p in
        (log_add self
           (lit "  ⚔️  " ++ enemy_name ++ lit " strikes back → "
            ++ str_of_Z actual ++ lit " damage to you (HP: "
            ++ str_of_Z (Player.hp (player self)) ++ lit "/"
            ++ str_of_Z (Player.max_hp (player self)) ++ lit ")."), g)
      else
        (log_add self (lit "  ⚔️  " ++ enemy_name ++ lit " swings wildly — you dodge."), g)
    in
    if negb (Player.is_alive (player self)) then
      let self := log_add self (nl ++ lit "💀 You have been slain by " ++ enemy_name ++ lit "...") in
      (false, with_log self (set_outcome (log self) (lit "defeat")), g)
    else (true, self, g).

(** [resolve_round(action)]: [true] when combat continues. *)
Definition resolve_round (self : CombatSystem) (action : str) (g : rng)
  : result (bool * CombatSystem * rng) :=
  let enemy_name := name (enemy self) in
  if str_eqb action (lit "flee") then
    ' (escaped, g) <- attempt_flee self g ;;
    if escaped then
      let self := log_add self (lit "You dash into the shadows and escape!") in
      Ok (false, with_log self (set_outcome (log self) (lit "fled")), g)
    else
      let self :=
        log_add self (lit "You scramble to flee but the enemy cuts off your escape!") in
      Ok (enemy_turn self g)
  else
    let '(p_roll, g) := roll_d20 g in
    let self :=
      if p_roll =? 20 then
        let dmg := _player_damage self p_roll * 2 in
        let self := with_enemy self (set_hp (enemy self) (hp (enemy self) - dmg)) in
        log_add self
          (lit "  🎲 CRITICAL HIT! You roll a 20 → " ++ str_of_Z dmg
           ++ lit " damage to " ++ enemy_name ++ lit ".")
      else if _player_hits self p_roll then
        let dmg := _player_damage self p_roll in
        let self := with_enemy self (set_hp (enemy self) (hp (enemy self) - dmg)) in
        log_add self
          (lit "  🎲 You roll " ++ str_of_Z p_roll ++ lit " → Hit! "
           ++ str_of_Z dmg ++ lit " damage to " ++ enemy_name ++ lit " (HP: "
           ++ str_of_Z (Z.max 0 (hp (enemy self))) ++ lit "/"
           ++ str_of_Z (max_hp (enemy self)) ++ lit ").")
      else
        log_add self
          (lit "  🎲 You roll " ++ str_of_Z p_roll ++ lit " → Miss. "
           ++ enemy_name ++ lit " dodges your blow.")
    in
    Ok (enemy_turn self g).

(** [resolve()]: rounds of "attack" until one returns [False]; [None] when
    [fuel] rounds were not enough. *)
Fixpoint resolve_loop (fuel : nat) (self : CombatSystem) (g : rng)
  : option (result (CombatSystem * rng)) :=
  match fuel with
  | O => None
  | S fuel =>
      match resolve_round self (lit "attack") g with
      | Raise e => Some (Raise e)
      | Ok (continuing, self, g) =>
          if continuing then resolve_loop fuel self g else Some (Ok (self, g))
      end
  end.

Definition resolve (fuel : nat) (self : CombatSystem) (g : rng)
  : option (result (CombatLog * CombatSystem * rng)) :=
  let self :=
    log_add self
      (nl ++ lit "⚔️  Combat begins: " ++ Player.name (player self) ++ lit " vs "
       ++ name (enemy self) ++ nl) in
  match resolve_loop fuel self g with
  | None => None
  | Some (Raise e) => Some (Raise e)
  | Some (Ok (self, g)) => Some (Ok (log self, self, g))
  end.

End Dice.

(** A generator for tests: the draws are scripted, one list for the dice and
    one for [random()]; a list that ran out yields the lowest draw. *)
Definition script : Type := list Z * list float.

Definition script_randint (a b : Z) (g : script) : Z * script :=
  match fst g with
  | [] => (a, g)
  | x :: t => (x, (t, snd g))
  end.

Definition script_random (g : script) : float * script :=
  match snd g with
  | [] => (zero, g)
  | x :: t => (x, (fst g, t))
  end.

(** A generator that counts: draw number [n] of [randint a b] is
    [a + n mod (b - a + 1)], and [random()] is 0 every time. *)
Definition counter : Type := Z.

Definition counter_randint (a b : Z) (n : counter) : Z * counter :=
  (a + n mod (b - a + 1), n + 1).

Definition counter_random (n : counter) : float * counter := (zero, n + 1).

End Combat.

(* ------------------------------------------------------------------------- *)
(** * ai/prompts.py *)
(* ------------------------------------------------------------------------- *)

Module Prompts.

(** The system prompt, written here with apostrophes where the source has
    double quotes. *)
Definition SYSTEM_PROMPT : str :=
  strip (json_lit "
Eres el Maestro de Mazmorras de un RPG de fantasía oscura. Tu trabajo único es
NARRATIVO: describir el mundo, interpretar PNJ y establecer la atmósfera.

═══════════════════════════════════════════════════════════════════
REGLAS DE HIERRO — NUNCA VIOLAR ESTO:
  ✗ NO modifiques PV, oro, inventario ni ninguna estadística del jugador.
  ✗ NO tires dados ni determines daño de combate.
  ✗ NO decidas resultados de combate.
  ✗ NO otorgues ni quites objetos.
  ✗ NO contradigas flags del mundo marcados como true en el estado del juego.

SÓLO ESTÁS AUTORIZADO A:
  ✓ Escribir descripciones inmersivas de escena (2-4 oraciones).
  ✓ Interpretar diálogos de PNJ en personaje.
  ✓ Señalar eventos de la historia mediante campos JSON estructurados.
  ✓ Sugerir (no decidir) si se desencadena combate.
═══════════════════════════════════════════════════════════════════

TONO: Oscuro, visceral, urgente. Cada escena debe crear IMPULSO HACIA ADELANTE.

Reglas para una buena narrativa:

SIEMPRE termina tu narrativa con una amenaza inmediata, una elección o un punto de presión.
Malo: 'La posada está tranquila y huele a humo.'
Bueno: 'La posada queda en silencio cuando entras — cada par de ojos se desliza hacia ti,
luego se aparta rápidamente. Alguien acaba de patear algo bajo la mesa.'

Usa FRASES CORTAS para el peligro. Más largas para la atmósfera. Mézclalas.

NUNCA describas una escena neutral. Incluso los momentos pacíficos esconden algo que está mal.

Los NPC siempre QUIEREN algo o TEMEN algo — muéstralo en su comportamiento.

Termina CADA narrativa con una pregunta implícita o explícita que exija acción.

Evita la prosa recargada. Un buen DM es también un buen editor.

OUTPUT FORMAT — debes SIEMPRE responder con JSON válido (las claves deben mantenerse):
{
  'narrative': '<tu descripción de escena, 2-4 oraciones>',
  'combat_trigger': <true si la acción del jugador conduce a combate, false en caso contrario>,
  'enemy_type': '<goblin|skeleton|dark_wolf|cultist|cave_troll|null>',
  'new_npc': {
    'name': '<string>',
    'role': '<string>',
    'disposition': '<friendly|neutral|hostile>'
  } or null,
  'quest_update': '<cadena corta describiendo progreso de la misión>' or null,
  'new_location': '<nombre de la ubicación si el jugador se ha movido>' or null,
  'location_description': '<atmósfera de la nueva ubicación>' or null,
  'tension_delta':<always trend toward +0.1 unless something truly resolved tension>
  'memory_event': '<resumen en una frase de lo ocurrido, para la crónica>' or null
}

Nunca añadas prosa fuera del bloque JSON. Nunca devuelvas JSON parcial.
").

Section Format.

(** [str(v)] of the Python library, for the values of a dict. *)
Variable format_ : value -> str.

(** [_fmt(d)]: one indented line per item, key: value. *)
Definition _fmt (d : list (str * value)) : str :=
  join nl (map (fun item => lit "  " ++ fst item ++ lit ": " ++ format_ (snd item)) d).

(** [build_user_message(player_dict, world_context, memory_block, player_action)] *)
Definition build_user_message (player_dict world_context : list (str * value))
    (memory_block player_action : str) : str :=
  strip
    (nl ++ lit "=== CURRENT GAME STATE ===" ++ nl
     ++ nl ++ lit "PLAYER:" ++ nl
     ++ _fmt player_dict ++ nl
     ++ nl ++ lit "WORLD:" ++ nl
     ++ _fmt world_context ++ nl
     ++ nl ++ lit "MEMORY:" ++ nl
     ++ memory_block ++ nl
     ++ nl ++ lit "=== PLAYER ACTION ===" ++ nl
     ++ json_lit "'" ++ player_action ++ json_lit "'" ++ nl
     ++ nl ++ lit "Respond with valid JSON only." ++ nl).

End Format.

End Prompts.

(* ------------------------------------------------------------------------- *)
(** * ai/dungeon_master.py *)
(* ------------------------------------------------------------------------- *)

Module DungeonMaster.

(** The dataclass [DMResponse].  Its annotations are not enforced, so a field
    holds whatever value [_parse] puts there; [combat_trigger] comes out of
    [bool()] and [tension_delta] out of [float()]. *)
Record DMResponse := {
  narrative : value;
  combat_trigger : bool;
  enemy_type : value;
  new_npc : value;
  quest_update : value;
  new_location : value;
  location_description : value;
  tension_delta : float;
  memory_event : value;
  raw_json : value
}.

(** [DMResponse(narrative=n)]: every other field at its default. *)
Definition narrative_only (n : value) : DMResponse :=
  {| narrative := n; combat_trigger := false; enemy_type := VNone;
     new_npc := VNone; quest_update := VNone; new_location := VNone;
     location_description := VNone; tension_delta := zero;
     memory_event := VNone; raw_json := VDict [] |}.

Definition VALID_ENEMY_TYPES : list str :=
  [lit "goblin"; lit "skeleton"; lit "dark_wolf"; lit "cultist"; lit "cave_troll"].

Definition DISPOSITIONS : list str :=
  [lit "friendly"; lit "neutral"; lit "hostile"].

Definition starts_with (p s : str) : bool := str_eqb p (firstn (length p) s).

(** [re.sub] of the pattern  ```(?:json)?|```  by the empty string: every
    run of three backquotes goes, with the word json when it follows at once.
    [skip] counts the characters of a match still to drop. *)
Fixpoint sub_fences (skip : nat) (text : str) : str :=
  match text with
  | [] => []
  | c :: t =>
      match skip with
      | S k => sub_fences k t
      | O =>
          if starts_with (lit "```json") text then sub_fences 6 t
          else if starts_with (lit "```") text then sub_fences 2 t
          else c :: sub_fences 0 t
      end
  end.

(** The longest run of characters other than the double quote, and what
    follows it. *)
Fixpoint unquoted_run (s : str) : str * str :=
  match s with
  | [] => ([], [])
  | c :: t =>
      if (c =? 34)%N then ([], s)
      else let '(run, rest) := unquoted_run t in (c :: run, rest)
  end.

Definition drop_prefix (p s : str) : option str :=
  if starts_with p s then Some (skipn (length p) s) else None.

(** A match that starts at the head of [s] of the pattern: the quoted word
    narrative, blanks, a colon, blanks, a double quote, ten or more characters
    other than the double quote (group 1, returned), a double quote. *)
Definition narrative_at (s : str) : option str :=
  match drop_prefix (json_lit "'narrative'") s with
  | None => None
  | Some r =>
      match lstrip r with
      | colon :: r =>
          if (colon =? 58)%N then
            match lstrip r with
            | quote :: r =>
                if (quote =? 34)%N then
                  let '(run, rest) := unquoted_run r in
                  match rest with
                  | _ :: _ => if (10 <=? length run)%nat then Some run else None
                  | [] => None
                  end
                else None
            | [] => None
            end
          else None
      | [] => None
      end
  end.

(** [re.search]: the leftmost match. *)
Fixpoint search_narrative (s : str) : option str :=
  match narrative_at s with
  | Some m => Some m
  | None =>
      match s with
      | [] => None
      | _ :: t => search_narrative t
      end
  end.

Definition _extract_narrative_fallback (text : str) : str :=
  match search_narrative text with
  | Some m => m
  | None =>
      match strip (prefix 200 text) with
      | [] => lit "La mazmorra guarda sus secretos."
      | s => s
      end
  end.

(** What the validator takes from the Python library: [json.loads] (which
    raises [JSONDecodeError] on text that is no JSON document), [str.lower],
    and [float] of a [str] ([None]: the [ValueError] of a text that is no
    number). *)
Section Validator.

Variable loads : str -> result value.
Variable lower : str -> str.
Variable str_to_float : str -> option float.

Definition _safe_str (value_ default : value) : value :=
  match value_ with
  | VStr s =>
      if truthy (VStr (strip s)) && negb (str_eqb (lower s) (lit "null"))
      then VStr (strip s)
      else default
  | _ => default
  end.

Definition _validate_npc (npc_data : value) : result value :=
  match npc_data with
  | VDict d =>
      let name := dict_get d (lit "name") (VStr []) in
      let role := dict_get d (lit "role") (VStr (lit "stranger")) in
      let disposition := dict_get d (lit "disposition") (VStr (lit "neutral")) in
      match name with
      | VStr n =>
          if negb (truthy (VStr (strip n))) then Ok VNone
          else
            known <- in_str_set disposition DISPOSITIONS ;;
            let disposition :=
              if negb known then VStr (lit "neutral") else disposition in
            Ok (VDict [ (lit "name", VStr (strip n)); (lit "role", role);
                        (lit "disposition", disposition) ])
      | _ => Ok VNone
      end
  | _ => Ok VNone
  end.

(** [float(x)] *)
Definition float_ (x : value) : result float :=
  match x with
  | VFloat f => Ok f
  | VInt n => float_of_Z n
  | VBool b => Ok (if b then one else zero)
  | VStr s =>
      match str_to_float s with
      | Some f => Ok f
      | None => Raise ValueError
      end
  | _ => Raise TypeError
  end.

(** [_parse(raw_text)].  On a decode failure the method also prints a
    diagnostic; the response does not depend on it, and the validator's
    output is not followed here. *)
Definition _parse (raw_text : str) : result DMResponse :=
  let clean := strip (sub_fences 0 raw_text) in
  match loads clean with
  | Raise JSONDecodeError =>
      Ok (narrative_only (VStr (_extract_narrative_fallback raw_text)))
  | Raise e => Raise e
  | Ok data =>
      v <- get data (lit "narrative") VNone ;;
      let narrative := _safe_str v (VStr (lit "The world holds its breath.")) in
      v <- get data (lit "combat_trigger") (VBool false) ;;
      let combat_trigger := truthy v in
      enemy_type <- get data (lit "enemy_type") VNone ;;
      known <- in_str_set enemy_type VALID_ENEMY_TYPES ;;
      let enemy_type := if negb known then VNone else enemy_type in
      let enemy_type := if negb combat_trigger then VNone else enemy_type in
      v <- get data (lit "new_npc") VNone ;;
      new_npc <- _validate_npc v ;;
      v <- get data (lit "quest_update") VNone ;;
      let quest_update := _safe_str v VNone in
      v <- get data (lit "new_location") VNone ;;
      let new_location := _safe_str v VNone in
      v <- get data (lit "location_description") VNone ;;
      let location_description := _safe_str v VNone in
      v <- get data (lit "memory_event") VNone ;;
      let memory_event := _safe_str v VNone in
      tension_delta <-
        match (v <- get data (lit "tension_delta") (VFloat zero) ;; float_ v) with
        | Ok tension_delta => Ok (fmax (-1)%float (fmin 1%float tension_delta))
        | Raise TypeError | Raise ValueError => Ok zero
        | Raise e => Raise e
        end ;;
      Ok {| narrative := narrative; combat_trigger := combat_trigger;
            enemy_type := enemy_type; new_npc := new_npc;
            quest_update := quest_update; new_location := new_location;
            location_description := location_description;
            tension_delta := tension_delta; memory_event := memory_event;
            raw_json := data |}
  end.

(** ** The session with the narrative service *)

(** A message of the conversation. *)
Record message := { role : str; content : str }.

(** What [narrate] takes from outside: [repr] of the Python library, for the
    values shown in the prompt, and the narrative service.  [create] stands
    for the body of the [try]: given the messages, either the content of the
    first choice of the completion, or the text of the exception raised on
    the way to it. *)
Variable repr : value -> str.
Variable create : list message -> str + str.

(** The history once the user's message has joined it: the last twelve
    messages when there are more. *)
Definition remembered (history : list message) (user_message : str) : list message :=
  let history := history ++ [{| role := lit "user"; content := user_message |}] in
  if (12 <? length history)%nat then skipn (length history - 12) history
  else history.

(** [narrate(player_dict, world_context, memory_block, player_action)] with
    [_history] as it stands: the history afterwards, what the method prints
    itself, and the response or the exception of [_parse]. *)
Definition narrate (_history : list message)
    (player_dict world_context : list (str * value))
    (memory_block player_action : str)
  : list message * str * result DMResponse :=
  let user_message :=
    Prompts.build_user_message (format_ repr) player_dict world_context
      memory_block player_action in
  let _history := remembered _history user_message in
  let messages :=
    {| role := lit "system"; content := Prompts.SYSTEM_PROMPT |} :: _history in
  match create messages with
  | inr content =>
      let raw_text := strip content in
      let _history :=
        _history ++ [{| role := lit "assistant"; content := raw_text |}] in
      (_history, [], _parse raw_text)
  | inl exc =>
      (_history,
       nl ++ lit "[DM Aviso] error de API: " ++ exc ++ nl,
       Ok {| narrative :=
               VStr (lit "La mazmorra contiene la respiración. El mundo espera.");
             combat_trigger := false; enemy_type := VNone; new_npc := VNone;
             quest_update := VNone; new_location := VNone;
             location_description := VNone; tension_delta := zero;
             memory_event :=
               VStr (lit "[Error de API en el turno — acción: "
                     ++ prefix 60 player_action ++ lit "]");
             raw_json := VDict [] |})
  end.

End Validator.

End DungeonMaster.

(* ------------------------------------------------------------------------- *)
(** * What is asked of a validated response *)
(* ------------------------------------------------------------------------- *)

Module Intent.

Import DungeonMaster.

(** Text with no blank at either end. *)
Definition trimmed (s : str) : Prop :=
  (forall c t, s = c :: t -> isspace c = false)
  /\ (forall t c, s = t ++ [c] -> isspace c = false).

(** An optional text as the data model wants it: absent, or text that is
    not empty, has no blank at either end and is not the word null. *)
Definition clean_text (v : value) : Prop :=
  v = VNone
  \/ exists s, v = VStr s /\ s <> [] /\ trimmed s /\ s <> lit "null".

(** The same, without the demand on the word null. *)
Definition present_text (v : value) : Prop :=
  v = VNone \/ exists s, v = VStr s /\ s <> [] /\ trimmed s.

(** The optional texts of a response, by the key each is read from. *)
Definition text_fields (r : DMResponse) : list (str * value) :=
  [ (lit "quest_update", quest_update r);
    (lit "new_location", new_location r);
    (lit "location_description", location_description r);
    (lit "memory_event", memory_event r) ].

(** Every optional text of the response is clean, the name and the role of
    the NPC descriptor included. *)
Definition strings_clean (r : DMResponse) : Prop :=
  (forall k v, In (k, v) (text_fields r) -> clean_text v)
  /\ (new_npc r = VNone
      \/ exists name role disposition,
           new_npc r = VDict [ (lit "name", name); (lit "role", role);
                               (lit "disposition", disposition) ]
           /\ clean_text name /\ clean_text role).

End Intent.

(* ------------------------------------------------------------------------- *)
(** * game/world.py and game/memory.py *)
(* ------------------------------------------------------------------------- *)

(** The two classes with the methods the combat step calls. *)

Module World.

Record WorldState := {
  location : str;
  region_description : str;
  active_quest : value;
  known_npcs : list value;
  tension : float;
  turn_count : Z;
  visited_locations : list str;
  world_flags : list (str * value)
}.

Definition DEFAULT_LOCATION : str := lit "The Broken Flagon Inn, Ashenveil".

Definition DEFAULT_REGION_DESC : str :=
  lit "A dying frontier town where the candles burn low and strangers are watched "
  ++ lit "with hollow eyes. The forest beyond the walls hums with something old and hungry.".

(** [WorldState()] *)
Definition default : WorldState :=
  {| location := DEFAULT_LOCATION; region_description := DEFAULT_REGION_DESC;
     active_quest := VNone; known_npcs := [];
     tension := fmax 0%float (fmin 10%float 3%float); turn_count := 0;
     visited_locations := [DEFAULT_LOCATION]; world_flags := [] |}.

Definition adjust_tension (self : WorldState) (delta : float) : WorldState :=
  {| location := location self; region_description := region_description self;
     active_quest := active_quest self; known_npcs := known_npcs self;
     tension := fmax 0%float (fmin 10%float (PrimFloat.add (tension self) delta));
     turn_count := turn_count self;
     visited_locations := visited_locations self;
     world_flags := world_flags self |}.

Definition increment_turn (self : WorldState) : WorldState :=
  {| location := location self; region_description := region_description self;
     active_quest := active_quest self; known_npcs := known_npcs self;
     tension := tension self; turn_count := turn_count self + 1;
     visited_locations := visited_locations self;
     world_flags := world_flags self |}.

(** [move_to(new_location, description)]: an empty description keeps the
    region as it is; the location joins the visited ones unless it is there. *)
Definition move_to (self : WorldState) (new_location description : str)
  : WorldState :=
  {| location := new_location;
     region_description :=
       match description with
       | [] => region_description self
       | _ => description
       end;
     active_quest := active_quest self; known_npcs := known_npcs self;
     tension := tension self; turn_count := turn_count self;
     visited_locations :=
       if str_in new_location (visited_locations self)
       then visited_locations self
       else visited_locations self ++ [new_location];
     world_flags := world_flags self |}.

Definition set_quest (self : WorldState) (quest : value) : WorldState :=
  {| location := location self; region_description := region_description self;
     active_quest := quest; known_npcs := known_npcs self;
     tension := tension self; turn_count := turn_count self;
     visited_locations := visited_locations self;
     world_flags := world_flags self |}.

Definition with_known_npcs (self : WorldState) (npcs : list value) : WorldState :=
  {| location := location self; region_description := region_description self;
     active_quest := active_quest self; known_npcs := npcs;
     tension := tension self; turn_count := turn_count self;
     visited_locations := visited_locations self;
     world_flags := world_flags self |}.

(** What [x[key]] raises: [KeyError] on a dict without the key, [TypeError]
    on a value that takes no [str] subscript. *)
Inductive subscript_error := KeyError | TypeError.

(** [x[key]] for a [str] key *)
Definition getitem (x : value) (key : str) : subscript_error + value :=
  match x with
  | VDict d =>
      match lookup key d with
      | Some v => inr v
      | None => inl KeyError
      end
  | _ => inl TypeError
  end.

(** [v == name] for a [str] name: a value of another type equals no [str]. *)
Definition eq_str (v : value) (name : str) : bool :=
  match v with
  | VStr s => str_eqb s name
  | _ => false
  end.

(** [any(npc["name"] == name for npc in npcs)]: the search stops at the
    first NPC of that name, and at the first one that has no name to show. *)
Fixpoint any_named (name : str) (npcs : list value) : subscript_error + bool :=
  match npcs with
  | [] => inr false
  | npc :: rest =>
      match getitem npc (lit "name") with
      | inl e => inl e
      | inr v => if eq_str v name then inr true else any_named name rest
      end
  end.

(** [add_npc(name, role, disposition)] *)
Definition add_npc (self : WorldState) (name : str) (role disposition : value)
  : subscript_error + WorldState :=
  match any_named name (known_npcs self) with
  | inl e => inl e
  | inr true => inr self
  | inr false =>
      inr (with_known_npcs self
             (known_npcs self
              ++ [VDict [ (lit "name", VStr name); (lit "role", role);
                          (lit "disposition", disposition) ]]))
  end.

(** The loop of [update_npc_disposition] over the known NPCs: the first one
    of that name gets the disposition, and the answer is whether there was
    one. *)
Fixpoint update_first (name : str) (disposition : value) (npcs : list value)
  : subscript_error + (bool * list value) :=
  match npcs with
  | [] => inr (false, [])
  | npc :: rest =>
      match npc with
      | VDict d =>
          match lookup (lit "name") d with
          | None => inl KeyError
          | Some v =>
              if eq_str v name then
                inr (true, VDict (store (lit "disposition") disposition d) :: rest)
              else
                match update_first name disposition rest with
                | inl e => inl e
                | inr (found, rest) => inr (found, npc :: rest)
                end
          end
      | _ => inl TypeError
      end
  end.

Definition update_npc_disposition (self : WorldState) (name : str)
    (disposition : value) : subscript_error + (bool * WorldState) :=
  match update_first name disposition (known_npcs self) with
  | inl e => inl e
  | inr (found, npcs) => inr (found, with_known_npcs self npcs)
  end.

(** [set_flag(key, value)] *)
Definition set_flag (self : WorldState) (key : str) (value_ : value) : WorldState :=
  {| location := location self; region_description := region_description self;
     active_quest := active_quest self; known_npcs := known_npcs self;
     tension := tension self; turn_count := turn_count self;
     visited_locations := visited_locations self;
     world_flags := store key value_ (world_flags self) |}.

(** [get_flag(key)] *)
Definition get_flag (self : WorldState) (key : str) : value :=
  dict_get (world_flags self) key (VBool false).

(** ** Persistence *)

Definition to_dict (self : WorldState) : list (str * value) :=
  [ (lit "location", VStr (location self));
    (lit "region_description", VStr (region_description self));
    (lit "active_quest", active_quest self);
    (lit "known_npcs", VList (known_npcs self));
    (lit "tension", VFloat (tension self));
    (lit "turn_count", VInt (turn_count self));
    (lit "visited_locations", VList (map VStr (visited_locations self)));
    (lit "world_flags", VDict (world_flags self)) ].

Definition PARAMETERS : list str :=
  [ lit "location"; lit "region_description"; lit "active_quest";
    lit "known_npcs"; lit "tension"; lit "turn_count";
    lit "visited_locations"; lit "world_flags" ].

(** [max(0.0, min(10.0, tension))] for the argument of [__init__]: an [int]
    of 10 or more comes out as 10.0 and one of 0 or less as 0.0, while an
    [int] in between would stay an [int]. *)
Definition tension_arg (v : option value) : option float :=
  match v with
  | None => Some (fmax 0%float (fmin 10%float 3%float))
  | Some (VFloat f) => Some (fmax 0%float (fmin 10%float f))
  | Some (VInt n) =>
      if n <? 10 then (if 0 <? n then None else Some 0%float)
      else Some 10%float
  | Some _ => None
  end.

(** [WorldState] with the items of [data] as keyword arguments: an empty
    list of known NPCs or of visited places or an empty dict of flags is
    replaced like an absent one, the visited places by the location alone. *)
Definition __init__ (data : list (str * value)) : option (result WorldState) :=
  if negb (expected PARAMETERS data) then Some (Raise Py.TypeError)
  else
    obind (str_arg (lookup (lit "location") data) DEFAULT_LOCATION) (fun a_location =>
    obind (str_arg (lookup (lit "region_description") data) DEFAULT_REGION_DESC)
      (fun a_region =>
    obind (match lookup (lit "known_npcs") data with
           | None => Some []
           | Some v =>
               if truthy v then
                 match v with
                 | VList l => Some l
                 | _ => None
                 end
               else Some []
           end) (fun a_npcs =>
    obind (tension_arg (lookup (lit "tension") data)) (fun a_tension =>
    obind (int_arg (lookup (lit "turn_count") data) 0) (fun a_turn =>
    obind (strs_or (lookup (lit "visited_locations") data) [a_location])
      (fun a_visited =>
    obind (match lookup (lit "world_flags") data with
           | None => Some []
           | Some v =>
               if truthy v then
                 match v with
                 | VDict d => Some d
                 | _ => None
                 end
               else Some []
           end) (fun a_flags =>
    Some (Ok {| location := a_location; region_description := a_region;
                active_quest := dict_get data (lit "active_quest") VNone;
                known_npcs := a_npcs; tension := a_tension;
                turn_count := a_turn; visited_locations := a_visited;
                world_flags := a_flags |})))))))).

(** [WorldState.load(path)]: [file] is the text of the file at [path],
    [None] when there is none; [loads] is [json.loads]. *)
Definition load (loads : str -> result value) (file : option str)
  : option (result WorldState) :=
  match file with
  | None => Some (Ok default)
  | Some text =>
      match loads text with
      | Raise e => Some (Raise e)
      | Ok (VDict data) => __init__ data
      | Ok _ => Some (Raise Py.TypeError)
      end
  end.

End World.

Module Memory.

Record MemorySystem := {
  events : list str;
  summaries : list str
}.

Definition SUMMARIZE_EVERY : Z := 5.

(** [MemorySystem()] *)
Definition default : MemorySystem := {| events := []; summaries := [] |}.

Definition record (self : MemorySystem) (event : str) : MemorySystem :=
  {| events := events self ++ [event]; summaries := summaries self |}.

Definition should_summarize (self : MemorySystem) : bool :=
  Z.of_nat (length (events self)) >=? SUMMARIZE_EVERY.

(** ** Persistence *)

Definition to_dict (self : MemorySystem) : list (str * value) :=
  [ (lit "events", VList (map VStr (events self)));
    (lit "summaries", VList (map VStr (summaries self))) ].

Definition PARAMETERS : list str := [lit "events"; lit "summaries"].

(** [MemorySystem] with the items of [data] as keyword arguments *)
Definition __init__ (data : list (str * value)) : option (result MemorySystem) :=
  if negb (expected PARAMETERS data) then Some (Raise TypeError)
  else
    obind (strs_or (lookup (lit "events") data) []) (fun a_events =>
    obind (strs_or (lookup (lit "summaries") data) []) (fun a_summaries =>
    Some (Ok {| events := a_events; summaries := a_summaries |}))).

(** [MemorySystem.load(path)]: [file] is the text of the file at [path],
    [None] when there is none; [loads] is [json.loads]. *)
Definition load (loads : str -> result value) (file : option str)
  : option (result MemorySystem) :=
  match file with
  | None => Some (Ok default)
  | Some text =>
      match loads text with
      | Raise e => Some (Raise e)
      | Ok (VDict data) => __init__ data
      | Ok _ => Some (Raise TypeError)
      end
  end.

End Memory.

(* ------------------------------------------------------------------------- *)
(** * game/engine.py: the combat step of a turn *)
(* ------------------------------------------------------------------------- *)

Module Engine.

Import DungeonMaster.

Definition DIVIDER : str := str_mul (lit "═") 60.

(** Beside the dice, the engine takes from the Python library [str.lower]
    and [repr] (for the text of the error [get_enemy] raises). *)
Section Run.

Variable rng : Type.
Variable randint : Z -> Z -> rng -> Z * rng.
Variable random : rng -> float * rng.
Variable lower : str -> str.
Variable repr : value -> str.

(** The engine's objects and the process around them: the text printed so
    far, the lines of input still to come, and the dice.  The narrative
    client [dm] and the flags [slow_print] and [_running] play no part in the
    combat step and are left out. *)
Record GameEngine := {
  player : Player.Player;
  world : World.WorldState;
  memory : Memory.MemorySystem;
  stdout : str;
  stdin : list str;
  dice : rng
}.

Definition with_player (self : GameEngine) (p : Player.Player) : GameEngine :=
  {| player := p; world := world self; memory := memory self;
     stdout := stdout self; stdin := stdin self; dice := dice self |}.

Definition with_world (self : GameEngine) (w : World.WorldState) : GameEngine :=
  {| player := player self; world := w; memory := memory self;
     stdout := stdout self; stdin := stdin self; dice := dice self |}.

Definition with_memory (self : GameEngine) (m : Memory.MemorySystem) : GameEngine :=
  {| player := player self; world := world self; memory := m;
     stdout := stdout self; stdin := stdin self; dice := dice self |}.

Definition with_dice (self : GameEngine) (g : rng) : GameEngine :=
  {| player := player self; world := world self; memory := memory self;
     stdout := stdout self; stdin := stdin self; dice := g |}.

(** [print(text)] *)
Definition print (self : GameEngine) (text : str) : GameEngine :=
  {| player := player self; world := world self; memory := memory self;
     stdout := stdout self ++ text ++ nl; stdin := stdin self;
     dice := dice self |}.

(** Nothing is ever taken back from what was printed: [b] has printed what
    [a] has, and maybe more. *)
Definition extends (a b : GameEngine) : Prop :=
  exists tail, stdout b = stdout a ++ tail.

(** [input(prompt)]: the prompt is written, then a line is read; [None] is
    the [EOFError] of an input that has ended. *)
Definition input (self : GameEngine) (prompt : str) : option str * GameEngine :=
  let out := stdout self ++ prompt in
  match stdin self with
  | [] =>
      (None,
       {| player := player self; world := world self; memory := memory self;
          stdout := out; stdin := []; dice := dice self |})
  | line :: rest =>
      (Some line,
       {| player := player self; world := world self; memory := memory self;
          stdout := out; stdin := rest; dice := dice self |})
  end.

Definition _header (self : GameEngine) (text : str) : GameEngine :=
  let self := print self (nl ++ DIVIDER) in
  let self := print self (lit "  " ++ text) in
  print self DIVIDER.

Definition _section (self : GameEngine) (title : str) : GameEngine :=
  print self
    (nl ++ lit "── " ++ title ++ lit " "
     ++ str_mul (lit "─") (54 - Z.of_nat (length title))).

(** [str(exc)] for the [ValueError] of [get_enemy(key)] *)
Definition unknown_enemy (key : value) : str :=
  lit "Unknown enemy type: " ++ repr key
  ++ lit ". Available: ['goblin', 'skeleton', 'dark_wolf', 'cultist', 'cave_troll']".

(** The [while True] of [_run_combat].  [combat.player] is the engine's
    player and [combat.enemy] the local [enemy]: one object each, so the
    engine's player is the combat system's after every round.  [None] when
    [fuel] passes of the loop were not enough. *)
Fixpoint combat_loop (fuel : nat) (combat : Combat.CombatSystem) (self : GameEngine)
  : option (result (Combat.CombatSystem * GameEngine)) :=
  match fuel with
  | O => None
  | S fuel =>
      let enemy := Combat.enemy combat in
      match Player.status_str (player self) with
      | Raise e => Some (Raise e)
      | Ok status =>
          let self := print self (nl ++ status) in
          let self :=
            print self
              (lit "Enemy: " ++ Combat.name enemy ++ lit " HP "
               ++ str_of_Z (Combat.hp enemy) ++ lit "/"
               ++ str_of_Z (Combat.max_hp enemy)) in
          let self := print self (nl ++ lit "[A]ttack | [F]lee") in
          let '(choice, self) :=
            match input self (lit "> ") with
            | (Some line, self) => (lower (strip line), self)
            | (None, self) => (lit "flee", self)
            end in
          let action :=
            if str_in choice [lit "a"; lit "attack"; []] then Some (lit "attack")
            else if str_in choice [lit "f"; lit "flee"] then Some (lit "flee")
            else None in
          match action with
          | None =>
              let self := print self (lit "Atacar o huir — elige con sabiduría.") in
              combat_loop fuel combat self
          | Some action =>
              match Combat.resolve_round rng randint random combat action (dice self) with
              | Raise e => Some (Raise e)
              | Ok (still_fighting, combat, g) =>
                  let self := with_player (with_dice self g) (Combat.player combat) in
                  let self :=
                    match rev (Combat.rounds (Combat.log combat)) with
                    | [] => self
                    | latest :: _ => print self latest
                    end in
                  if negb still_fighting then Some (Ok (combat, self))
                  else combat_loop fuel combat self
              end
          end
      end
  end.

(** The end of [_run_combat]: the summary of the finished encounter. *)
Definition combat_summary (combat : Combat.CombatSystem) (self : GameEngine)
  : GameEngine :=
  let enemy := Combat.enemy combat in
  let log := Combat.log combat in
  let self := _section self (lit "Fin del combate") in
  let outcome := Combat.outcome log in
  if str_eqb outcome (lit "victory") then
    let self :=
      print self
        (lit "✨ ¡Victoria! XP: +" ++ str_of_Z (Combat.xp_gained log)
         ++ lit " | Oro: +" ++ str_of_Z (Combat.gold_gained log) ++ lit "g") in
    let self :=
      match Combat.loot_gained log with
      | [] => self
      | loot => print self (lit "   Botín obtenido: " ++ join (lit ", ") loot)
      end in
    let self := with_world self (World.adjust_tension (world self) (-0x1.3333333333333p-2)%float) in
    with_memory self
      (Memory.record (memory self)
         (lit "Derrotado un " ++ Combat.name enemy ++ lit " en combate. Obtuviste "
          ++ str_of_Z (Combat.xp_gained log) ++ lit " XP y "
          ++ str_of_Z (Combat.gold_gained log) ++ lit " oro."))
  else if str_eqb outcome (lit "defeat") then
    let self := print self (lit "💀 Has caído...") in
    with_memory self
      (Memory.record (memory self)
         (lit "Asesinado por un " ++ Combat.name enemy ++ lit "."))
  else if str_eqb outcome (lit "fled") then
    let self := print self (lit "💨 Huiste, pero el peligro persiste.") in
    let self := with_world self (World.adjust_tension (world self) 0x1.999999999999ap-3%float) in
    with_memory self
      (Memory.record (memory self)
         (lit "Huiste de un " ++ Combat.name enemy ++ lit "."))
  else self.

(** The start of an encounter against [enemy]: the banner, the raised
    tension, the combat system, then the loop and the summary. *)
Definition encounter (fuel : nat) (enemy : Combat.Enemy) (self : GameEngine)
  : option (result GameEngine) :=
  let self :=
    _header self (lit "⚔️  COMBATE: ¡" ++ Combat.name enemy ++ lit " aparece!") in
  let self :=
    print self
      (lit "Enemigo — PV: " ++ str_of_Z (Combat.hp enemy) ++ lit " | ATQ: "
       ++ str_of_Z (Combat.attack enemy) ++ lit " | DEF: "
       ++ str_of_Z (Combat.defense enemy)) in
  let self := with_world self (World.adjust_tension (world self) 0.5%float) in
  let combat := Combat.__init__ (player self) enemy in
  match combat_loop fuel combat self with
  | None => None
  | Some (Raise e) => Some (Raise e)
  | Some (Ok (combat, self)) => Some (Ok (combat_summary combat self))
  end.

Definition _run_combat (fuel : nat) (enemy_type : value) (self : GameEngine)
  : option (result GameEngine) :=
  match Combat.get_enemy enemy_type with
  | Raise ValueError =>
      Some (Ok (print self (nl ++ lit "[Engine error: " ++ unknown_enemy enemy_type ++ lit "]")))
  | Raise e => Some (Raise e)
  | Ok enemy => encounter fuel enemy self
  end.

(** [_game_loop], the step under the comment "Handle combat if triggered". *)
Definition combat_step (fuel : nat) (response : DMResponse) (self : GameEngine)
  : option (result GameEngine) :=
  if combat_trigger response && truthy (enemy_type response) then
    _run_combat fuel (enemy_type response) self
  else if combat_trigger response then
    let self :=
      print self
        (nl ++ lit "[Engine: la IA lanzó combate sin tipo de enemigo — usando goblin por defecto]") in
    _run_combat fuel (VStr (lit "goblin")) self
  else Some (Ok self).

(** [_apply_world_changes(response)].  [WorldState] keeps the names of NPCs
    and the places as [str]: [None] stands for a response that hands it
    something else in their place, which the types of [DMResponse] rule
    out. *)
Definition _apply_world_changes (response : DMResponse) (self : GameEngine)
  : option (World.subscript_error + GameEngine) :=
  let met :=
    if truthy (new_npc response) then
      let npc := new_npc response in
      match World.getitem npc (lit "name") with
      | inl e => Some (inl e)
      | inr name =>
          match World.getitem npc (lit "role") with
          | inl e => Some (inl e)
          | inr role =>
              match World.getitem npc (lit "disposition") with
              | inl e => Some (inl e)
              | inr disposition =>
                  match name with
                  | VStr name =>
                      match World.add_npc (world self) name role disposition with
                      | inl e => Some (inl e)
                      | inr w =>
                          Some (inr (print (with_world self w)
                                       (nl ++ lit "[Nuevo PNJ encontrado: " ++ name
                                        ++ lit " — " ++ format_ repr role ++ lit "]")))
                      end
                  | _ => None
                  end
              end
          end
      end
    else Some (inr self) in
  match met with
  | Some (inr self) =>
      let moved :=
        if truthy (new_location response) then
          let description :=
            if truthy (location_description response)
            then location_description response
            else VStr [] in
          match new_location response, description with
          | VStr place, VStr description =>
              Some (print (with_world self (World.move_to (world self) place description))
                      (nl ++ lit "📍 Ubicación: " ++ place))
          | _, _ => None
          end
        else Some self in
      match moved with
      | Some self =>
          Some (inr (if negb (PrimFloat.eqb (tension_delta response) zero)
                     then with_world self
                            (World.adjust_tension (world self) (tension_delta response))
                     else self))
      | None => None
      end
  | other => other
  end.

End Run.

End Engine.

(* ------------------------------------------------------------------------- *)
(** * Invariants of the game state *)
(* ------------------------------------------------------------------------- *)

Module Invariants.

(** A player in good standing: hit points between 0 and their maximum, a
    positive maximum, and no negative strength, intelligence, gold or
    experience; the level is at least 1. *)
Definition valid_player (p : Player.Player) : Prop :=
  0 <= Player.hp p <= Player.max_hp p
  /\ 0 < Player.max_hp p
  /\ 0 <= Player.strength p
  /\ 0 <= Player.intelligence p
  /\ 0 <= Player.gold p
  /\ 1 <= Player.level p
  /\ 0 <= Player.xp p.

(** How often [x] occurs in a list of items. *)
Definition count (x : str) (l : list str) : nat :=
  length (filter (str_eqb x) l).

(** The hit points an attack roll takes from the enemy: double on a 20,
    roll + strength on a roll that reaches the defense, nothing on a miss. *)
Definition attack_damage (roll strength defense : Z) : Z :=
  if roll =? 20 then 2 * (roll + strength)
  else if roll >=? defense then roll + strength
  else 0.

(** The three ways a round can end an encounter. *)
Definition terminal (outcome : str) : Prop :=
  outcome = lit "fled" \/ outcome = lit "victory" \/ outcome = lit "defeat".

(** A float between two others. *)
Definition between (lo hi x : float) : Prop :=
  PrimFloat.leb lo x = true /\ PrimFloat.leb x hi = true.

(** A world in good standing: the tension between 0 and 10, the current
    location among the visited ones, and no location listed twice. *)
Definition valid_world (w : World.WorldState) : Prop :=
  between 0%float 10%float (World.tension w)
  /\ In (World.location w) (World.visited_locations w)
  /\ NoDup (World.visited_locations w).

(** The name of a known NPC: the text under the key name of a dict. *)
Definition npc_name (npc : value) : option str :=
  match npc with
  | VDict d =>
      match lookup (lit "name") d with
      | Some (VStr s) => Some s
      | _ => None
      end
  | _ => None
  end.

(** The known NPCs are dicts that bear the names [names], in this order, and
    no name twice. *)
Definition roster (npcs : list value) (names : list str) : Prop :=
  map npc_name npcs = map Some names /\ NoDup names.

(** A dict in which no key occurs twice. *)
Definition unique_keys (d : list (str * value)) : Prop := NoDup (map fst d).

(** [fence in s] for the fence of three backquotes *)
Definition fence : str := lit "```".

Fixpoint has_fence (s : str) : bool :=
  DungeonMaster.starts_with fence s
  || match s with
     | [] => false
     | _ :: t => has_fence t
     end.

Definition head_is (x : char) (s : str) : bool :=
  match s with
  | c :: _ => (c =? x)%N
  | [] => false
  end.

End Invariants.

(* ------------------------------------------------------------------------- *)
(** * Scenarios *)
(* ------------------------------------------------------------------------- *)

Module Scenario.

(** The registry's goblin, as [get_enemy] hands it out. *)
Definition goblin : Combat.Enemy :=
  Combat.make_enemy (lit "Goblin Scout") 8 2 8 30 5 [lit "Rusty Dagger"].

(** The fresh player, one hit point left. *)
Definition wounded : Player.Player := Player.set_hp Player.default 1.

(** Dice that come up 20 then 1, and a draw of 0.75 for [random()]. *)
Definition dice_20_1 : Combat.script := ([20; 1], [0.75%float]).

(** Dice whose first roll is 20. *)
Definition dice_20 : Combat.script := ([20], []).

(** The validator over the reference decoder. *)
Definition parse (raw_text : str) : result DungeonMaster.DMResponse :=
  DungeonMaster._parse Json.loads ascii_lower Json.float_of_str raw_text.

(** Replies of the narrative service. *)
Definition goblin_reply : str :=
  json_lit "{'narrative': 'A goblin leaps from the dark.', 'combat_trigger': true, 'enemy_type': 'goblin'}".

Definition dragon_reply : str :=
  json_lit "{'narrative': 'A dragon unfolds its wings.', 'combat_trigger': true, 'enemy_type': 'dragon'}".

Definition innkeeper_reply : str :=
  json_lit "{'narrative': 'The innkeeper looks up.', 'quest_update': '  Find the lost key ', 'memory_event': 'NULL', 'new_npc': {'name': ' Mara ', 'disposition': 'grumpy'}}".

(** What the validator makes of the dragon reply: the unregistered enemy is
    dropped. *)
Definition dragon_intent : DungeonMaster.DMResponse :=
  {| DungeonMaster.narrative := VStr (lit "A dragon unfolds its wings.");
     DungeonMaster.combat_trigger := true;
     DungeonMaster.enemy_type := VNone;
     DungeonMaster.new_npc := VNone;
     DungeonMaster.quest_update := VNone;
     DungeonMaster.new_location := VNone;
     DungeonMaster.location_description := VNone;
     DungeonMaster.tension_delta := zero;
     DungeonMaster.memory_event := VNone;
     DungeonMaster.raw_json :=
       VDict [ (lit "narrative", VStr (lit "A dragon unfolds its wings."));
               (lit "combat_trigger", VBool true);
               (lit "enemy_type", VStr (lit "dragon")) ] |}.

(** An NPC whose role is the empty text. *)
Definition blank_role_reply : str :=
  json_lit "{'narrative': 'A hooded man nods at you.', 'new_npc': {'name': 'Bob', 'role': ''}}".

(** A reply whose enemy_type is an array, one that is an array itself, and
    one whose tension_delta is the integer 10^400. *)
Definition list_enemy_reply : str :=
  json_lit "{'narrative': 'A goblin leaps from the dark.', 'combat_trigger': true, 'enemy_type': ['goblin']}".

Definition array_reply : str := json_lit "['A goblin leaps from the dark.']".

Definition huge_tension_reply : str :=
  json_lit "{'narrative': 'The air hums.', 'tension_delta': 1"
  ++ str_mul (lit "0") 400 ++ lit "}".

(** A reply that asks for far too much tension, one that is plain prose,
    and one wrapped in a code fence. *)
Definition storm_reply : str :=
  json_lit "{'narrative': 'The storm breaks.', 'tension_delta': 7.5}".

Definition prose_reply : str := lit "  The goblin snarls and backs away.  ".

Definition fenced_reply : str :=
  lit "```json" ++ nl ++ json_lit "{'narrative': 'The door creaks open.'}" ++ nl
  ++ lit "```".

(** The object the goblin reply decodes to. *)
Definition goblin_object : list (str * value) :=
  [ (lit "narrative", VStr (lit "A goblin leaps from the dark."));
    (lit "combat_trigger", VBool true);
    (lit "enemy_type", VStr (lit "goblin")) ].

(** A fresh game at a terminal where the player types a, with dice that
    come up 20. *)
Definition fresh_game : Engine.GameEngine Combat.script :=
  {| Engine.player := Player.default; Engine.world := World.default;
     Engine.memory := Memory.default; Engine.stdout := [];
     Engine.stdin := [lit "a"]; Engine.dice := dice_20 |}.

(** What the terminal shows when the engine falls back on the goblin: the
    note of the engine, the banner of the encounter, the goblin's figures. *)
Definition goblin_announcement : str :=
  nl ++ lit "[Engine: la IA lanzó combate sin tipo de enemigo — usando goblin por defecto]" ++ nl
  ++ nl ++ Engine.DIVIDER ++ nl
  ++ lit "  ⚔️  COMBATE: ¡Goblin Scout aparece!" ++ nl
  ++ Engine.DIVIDER ++ nl
  ++ lit "Enemigo — PV: 8 | ATQ: 2 | DEF: 8" ++ nl.

(** The combat step on scripted dice. *)
Definition combat_step (fuel : nat) (response : DungeonMaster.DMResponse)
    (self : Engine.GameEngine Combat.script)
  : option (result (Engine.GameEngine Combat.script)) :=
  Engine.combat_step Combat.script Combat.script_randint Combat.script_random
    ascii_lower repr_plain fuel response self.

(** A world in which Mara the innkeeper has been met. *)
Definition mara : value :=
  VDict [ (lit "name", VStr (lit "Mara")); (lit "role", VStr (lit "innkeeper"));
          (lit "disposition", VStr (lit "neutral")) ].

Definition tavern : World.WorldState :=
  World.with_known_npcs World.default [mara].

(** A reply that brings the player to a new place, where someone waits. *)
Definition arrival_reply : str :=
  json_lit "{'narrative': 'You reach the mill.', 'new_npc': {'name': 'Mara', 'role': 'miller', 'disposition': 'friendly'}, 'new_location': 'Old Mill', 'location_description': 'Flour hangs in the air.', 'tension_delta': 0.5}".

(** The save files of a new game, as [json.dumps] writes them. *)
Definition player_file : str :=
  json_lit "{'name': 'Adventurer', 'hp': 20, 'max_hp': 20, 'strength': 5, 'intelligence': 5, 'gold': 10, 'inventory': ['Torch', 'Rations x3'], 'level': 1, 'xp': 0}".

Definition memory_file : str := json_lit "{'events': [], 'summaries': []}".

Definition world_file : str :=
  json_lit "{'location': 'The Broken Flagon Inn, Ashenveil', 'region_description': 'A dying frontier town.', 'active_quest': null, 'known_npcs': [], 'tension': 3.0, 'turn_count': 0, 'visited_locations': ['The Broken Flagon Inn, Ashenveil'], 'world_flags': {}}".

(** The world that file was saved from. *)
Definition saved_world : World.WorldState :=
  {| World.location := World.DEFAULT_LOCATION;
     World.region_description := lit "A dying frontier town.";
     World.active_quest := VNone; World.known_npcs := [];
     World.tension := 3%float; World.turn_count := 0;
     World.visited_locations := [World.DEFAULT_LOCATION];
     World.world_flags := [] |}.

End Scenario.

(* ========================================================================= *)
(** * Properties *)
(* ========================================================================= *)

(* ------------------------------------------------------------------------- *)
(** ** Player *)
(* ------------------------------------------------------------------------- *)

(** The hit points [take_damage] leaves, and the damage it reports. *)
Lemma take_damage_hp (p : Player.Player) (amount : Z) :
  Player.hp (snd (Player.take_damage p amount)) = Z.max 0 (Player.hp p - amount).
Proof. reflexivity. Qed.

Lemma take_damage_actual (p : Player.Player) (amount : Z) :
  fst (Player.take_damage p amount) = Z.min amount (Player.hp p).
Proof. reflexivity. Qed.

(** C4.  For a player with hp >= 0 and a damage amount >= 0, after
    [take_damage(amount)] the player's hp is >= 0, and the damage reported is
    at most the amount asked for and at most the hp the player had. *)
Theorem take_damage_clamped (p : Player.Player) (amount : Z) :
  0 <= Player.hp p ->
  0 <= amount ->
  0 <= Player.hp (snd (Player.take_damage p amount))
  /\ fst (Player.take_damage p amount) <= amount
  /\ fst (Player.take_damage p amount) <= Player.hp p.
Proof.
  intros _ _.
  rewrite take_damage_hp, take_damage_actual.
  repeat split; lia.
Qed.

(** A blow of 25 on the fresh player (hp 20): 20 of it lands, hp ends at 0. *)
Lemma take_damage_clamped_witness :
  (0 <= Player.hp Player.default /\ 0 <= 25)
  /\ 0 <= Player.hp (snd (Player.take_damage Player.default 25))
  /\ fst (Player.take_damage Player.default 25) <= 25
  /\ fst (Player.take_damage Player.default 25) <= Player.hp Player.default.
Proof.
  split.
  - split; vm_compute; discriminate.
  - apply (take_damage_clamped Player.default 25); vm_compute; discriminate.
Defined.

(** C5.  [gain_xp(amount)] adds the amount to xp and returns true exactly
    when the sum reaches level * 100.  Without a level-up nothing else
    changes.  On a level-up the threshold is taken off the sum, level grows
    by one, max_hp by 5, hp becomes the new max_hp, strength and
    intelligence grow by one each, and name, gold and inventory stay. *)
Theorem gain_xp_level_up (p : Player.Player) (amount : Z) :
  let total := Player.xp p + amount in
  let threshold := Player.level p * 100 in
  let up := fst (Player.gain_xp p amount) in
  let p' := snd (Player.gain_xp p amount) in
  (up = true <-> threshold <= total)
  /\ (up = false -> p' = Player.set_xp p total)
  /\ (up = true ->
        Player.xp p' = total - threshold
        /\ Player.level p' = Player.level p + 1
        /\ Player.max_hp p' = Player.max_hp p + 5
        /\ Player.hp p' = Player.max_hp p'
        /\ Player.strength p' = Player.strength p + 1
        /\ Player.intelligence p' = Player.intelligence p + 1
        /\ Player.name p' = Player.name p
        /\ Player.gold p' = Player.gold p
        /\ Player.inventory p' = Player.inventory p).
Proof.
  cbv zeta. unfold Player.gain_xp. cbn [Player.xp Player.level Player.set_xp].
  destruct (Z.geb_spec (Player.xp p + amount) (Player.level p * 100)) as [Hge | Hlt];
    cbn [fst snd].
  - split; [split; [lia | reflexivity] |].
    split; [discriminate |].
    intros _. cbn. repeat split; reflexivity.
  - split; [split; [discriminate | lia] |].
    split; [reflexivity | discriminate].
Qed.

(** C10.  For a player with gold >= 0 and any delta: when gold + delta < 0,
    [modify_gold(delta)] returns false and leaves the player as it was;
    otherwise it returns true, gold becomes gold + delta and nothing else
    changes; gold is >= 0 after the call either way. *)
Theorem modify_gold_guarded (p : Player.Player) (delta : Z) :
  0 <= Player.gold p ->
  (Player.gold p + delta < 0 -> Player.modify_gold p delta = (false, p))
  /\ (0 <= Player.gold p + delta ->
        Player.modify_gold p delta
        = (true, Player.set_gold p (Player.gold p + delta)))
  /\ 0 <= Player.gold (snd (Player.modify_gold p delta)).
Proof.
  intros Hgold. unfold Player.modify_gold.
  destruct (Z.ltb_spec (Player.gold p + delta) 0) as [Hneg | Hpos].
  - repeat split; [lia | assumption].
  - split; [lia |]. split; [reflexivity |]. cbn. exact Hpos.
Qed.

(** The fresh player (gold 10) cannot pay 25 and can pay 3. *)
Lemma modify_gold_guarded_witness :
  0 <= Player.gold Player.default
  /\ Player.modify_gold Player.default (-25) = (false, Player.default)
  /\ Player.gold (snd (Player.modify_gold Player.default (-3))) = 7.
Proof.
  split; [vm_compute; discriminate |].
  split.
  - apply (modify_gold_guarded Player.default (-25)); vm_compute;
      [discriminate | reflexivity].
  - destruct (modify_gold_guarded Player.default (-3)) as (_ & Hpay & _);
      [vm_compute; discriminate |].
    rewrite Hpay; [reflexivity | vm_compute; discriminate].
Defined.

(* ------------------------------------------------------------------------- *)
(** ** Combat *)
(* ------------------------------------------------------------------------- *)

Lemma get_enemy_goblin :
  Combat.get_enemy (VStr (lit "goblin")) = Ok Scenario.goblin.
Proof. reflexivity. Qed.

(** Victory rewards the player and writes the log; the enemy stays as it
    fell. *)
Lemma resolve_victory_enemy (cs : Combat.CombatSystem) :
  Combat.enemy (Combat._resolve_victory cs) = Combat.enemy cs.
Proof.
  unfold Combat._resolve_victory.
  destruct (Player.gain_xp _ _) as [up p].
  destruct (Player.modify_gold _ _) as [paid p'].
  destruct (Combat.loot (Combat.enemy cs)); destruct up; reflexivity.
Qed.

Lemma resolve_victory_rounds (cs : Combat.CombatSystem) :
  exists more,
    Combat.rounds (Combat.log (Combat._resolve_victory cs))
    = Combat.rounds (Combat.log cs) ++ more.
Proof.
  unfold Combat._resolve_victory.
  destruct (Player.gain_xp _ _) as [up p].
  destruct (Player.modify_gold _ _) as [paid p'].
  destruct (Combat.loot (Combat.enemy cs)); destruct up; cbn;
    repeat rewrite <- app_assoc; eexists; reflexivity.
Qed.

Section CombatProperties.

Variable rng : Type.
Variable randint : Z -> Z -> rng -> Z * rng.
Variable random : rng -> float * rng.

Local Abbreviation roll_d20 := (Combat.roll_d20 rng randint).
Local Abbreviation _enemy_damage := (Combat._enemy_damage rng randint).
Local Abbreviation attempt_flee := (Combat.attempt_flee rng random).
Local Abbreviation enemy_turn := (Combat.enemy_turn rng randint).
Local Abbreviation resolve_round := (Combat.resolve_round rng randint random).

(** The enemy's turn never changes the enemy, and only adds to the log. *)
Lemma enemy_turn_enemy (cs : Combat.CombatSystem) (g : rng) :
  Combat.enemy (snd (fst (enemy_turn cs g))) = Combat.enemy cs.
Proof.
  unfold Combat.enemy_turn.
  destruct (Combat.hp (Combat.enemy cs) <=? 0).
  - cbn. apply resolve_victory_enemy.
  - destruct (roll_d20 g) as [e_roll g1].
    destruct (Combat._enemy_hits cs e_roll).
    + destruct (_enemy_damage cs e_roll g1) as [dmg g2].
      destruct (Player.take_damage _ _) as [actual p].
      cbn. destruct (negb (Player.is_alive p)); reflexivity.
    + cbn. destruct (negb (Player.is_alive _)); reflexivity.
Qed.

Lemma enemy_turn_rounds (cs : Combat.CombatSystem) (g : rng) :
  exists more,
    Combat.rounds (Combat.log (snd (fst (enemy_turn cs g))))
    = Combat.rounds (Combat.log cs) ++ more.
Proof.
  unfold Combat.enemy_turn.
  destruct (Combat.hp (Combat.enemy cs) <=? 0).
  - cbn. apply resolve_victory_rounds.
  - destruct (roll_d20 g) as [e_roll g1].
    destruct (Combat._enemy_hits cs e_roll).
    + destruct (_enemy_damage cs e_roll g1) as [dmg g2].
      destruct (Player.take_damage _ _) as [actual p].
      cbn. destruct (negb (Player.is_alive p)); cbn;
        repeat rewrite <- app_assoc; eexists; reflexivity.
    + cbn. destruct (negb (Player.is_alive _)); cbn;
        repeat rewrite <- app_assoc; eexists; reflexivity.
Qed.

(** C6.  In the attack action a d20 roll of 20 is a hit whatever the
    enemy's defense: the round completes, the enemy has lost exactly
    2 * (20 + strength) hit points when it ends, and the critical hit with
    that damage is the next entry of the log. *)
Theorem critical_hit_damage (cs : Combat.CombatSystem) (action : str) (g g1 : rng) :
  str_eqb action (lit "flee") = false ->
  roll_d20 g = (20, g1) ->
  let dmg := 2 * (20 + Player.strength (Combat.player cs)) in
  exists still cs' g',
    resolve_round cs action g = Ok (still, cs', g')
    /\ Combat.hp (Combat.enemy cs') = Combat.hp (Combat.enemy cs) - dmg
    /\ exists more,
         Combat.rounds (Combat.log cs')
         = Combat.rounds (Combat.log cs)
           ++ (lit "  🎲 CRITICAL HIT! You roll a 20 → " ++ str_of_Z dmg
               ++ lit " damage to " ++ Combat.name (Combat.enemy cs) ++ lit ".")
           :: more.
Proof.
  intros Hattack Hroll dmg.
  unfold Combat.resolve_round. rewrite Hattack, Hroll.
  change (20 =? 20) with true. cbv iota.
  set (hit := Combat.log_add _ _).
  destruct (enemy_turn hit g1) as [[still cs'] g'] eqn:Hturn.
  exists still, cs', g'. split; [reflexivity |].
  pose proof (enemy_turn_enemy hit g1) as Henemy.
  destruct (enemy_turn_rounds hit g1) as [more Hrounds].
  rewrite Hturn in Henemy, Hrounds. cbn [fst snd] in Henemy, Hrounds.
  split.
  - rewrite Henemy. subst hit dmg. cbn -[Z.add Z.mul Z.sub].
    unfold Combat._player_damage. lia.
  - exists more. rewrite Hrounds. subst hit dmg.
    cbn -[Z.add Z.mul Z.sub lit str_of_Z app].
    unfold Combat._player_damage.
    replace ((20 + Player.strength (Combat.player cs)) * 2)
      with (2 * (20 + Player.strength (Combat.player cs))) by lia.
    rewrite <- app_assoc. reflexivity.
Qed.

(** The enemy's turn against a living enemy: a counter-attack, a line for it
    in the log, and the check of the player's death. *)
Lemma enemy_turn_counter_attack (cs : Combat.CombatSystem) (g : rng) :
  0 < Combat.hp (Combat.enemy cs) ->
  exists still cs' g',
    enemy_turn cs g = (still, cs', g')
    /\ (exists line more,
          Combat.rounds (Combat.log cs')
          = Combat.rounds (Combat.log cs) ++ line :: more)
    /\ Combat.player cs'
       = (if Combat._enemy_hits cs (fst (roll_d20 g))
          then snd (Player.take_damage (Combat.player cs)
                      (fst (_enemy_damage cs (fst (roll_d20 g)) (snd (roll_d20 g)))))
          else Combat.player cs)
    /\ still = Player.is_alive (Combat.player cs')
    /\ Combat.outcome (Combat.log cs')
       = (if still then Combat.outcome (Combat.log cs) else lit "defeat").
Proof.
  intros Halive.
  unfold Combat.enemy_turn.
  destruct (Z.leb_spec (Combat.hp (Combat.enemy cs)) 0) as [Hdead | _]; [lia |].
  destruct (roll_d20 g) as [e_roll g2]. cbn [fst snd].
  destruct (Combat._enemy_hits cs e_roll).
  - destruct (_enemy_damage cs e_roll g2) as [dmg g3]. cbn [fst snd].
    destruct (Player.take_damage (Combat.player cs) dmg) as [actual p].
    cbn [snd Combat.player Combat.with_player Combat.log_add Combat.with_log].
    destruct (Player.is_alive p) eqn:Hp; cbn [negb].
    + eexists true, _, g3. split; [reflexivity |].
      cbn [Combat.rounds Combat.log Combat.log_add Combat.with_log Combat.add
           Combat.with_player Combat.player Combat.outcome].
      split; [| auto].
      do 2 eexists. reflexivity.
    + eexists false, _, g3. split; [reflexivity |].
      cbn [Combat.rounds Combat.log Combat.log_add Combat.with_log Combat.add
           Combat.with_player Combat.player Combat.outcome Combat.set_outcome].
      split; [| auto].
      rewrite <- app_assoc. do 2 eexists. cbn [app]. reflexivity.
  - cbn [Combat.player Combat.with_log Combat.log_add].
    destruct (Player.is_alive (Combat.player cs)) eqn:Hp; cbn [negb].
    + eexists true, _, g2. split; [reflexivity |].
      cbn [Combat.rounds Combat.log Combat.log_add Combat.with_log Combat.add
           Combat.with_player Combat.player Combat.outcome].
      split; [| auto].
      do 2 eexists. reflexivity.
    + eexists false, _, g2. split; [reflexivity |].
      cbn [Combat.rounds Combat.log Combat.log_add Combat.with_log Combat.add
           Combat.with_player Combat.player Combat.outcome Combat.set_outcome].
      split; [| auto].
      rewrite <- app_assoc. do 2 eexists. cbn [app]. reflexivity.
Qed.

(** C7, as the code has it.  In [resolve_round("flee")], when the attempt
    fails and the enemy still has hit points, the failed attempt is logged
    and the round goes on to the enemy's counter-attack: a d20 is rolled, and
    on a hit the player takes d6 + attack through [take_damage]; a line for
    the counter-attack follows in the log.  The round returns true (combat
    continues) exactly when the player is still alive after it; when the
    player is not, the outcome is defeat. *)
Theorem flee_failure_counter_attack (cs : Combat.CombatSystem) (g g1 : rng) :
  attempt_flee cs g = Ok (false, g1) ->
  0 < Combat.hp (Combat.enemy cs) ->
  let e_roll := fst (roll_d20 g1) in
  let g2 := snd (roll_d20 g1) in
  exists still cs' g',
    resolve_round cs (lit "flee") g = Ok (still, cs', g')
    /\ (exists line more,
          Combat.rounds (Combat.log cs')
          = Combat.rounds (Combat.log cs)
            ++ lit "You scramble to flee but the enemy cuts off your escape!"
            :: line :: more)
    /\ Combat.player cs'
       = (if Combat._enemy_hits cs e_roll
          then snd (Player.take_damage (Combat.player cs)
                      (fst (_enemy_damage cs e_roll g2)))
          else Combat.player cs)
    /\ still = Player.is_alive (Combat.player cs')
    /\ Combat.outcome (Combat.log cs')
       = (if still then Combat.outcome (Combat.log cs) else lit "defeat").
Proof.
  intros Hflee Halive e_roll g2.
  unfold Combat.resolve_round.
  change (str_eqb (lit "flee") (lit "flee")) with true. cbv iota.
  rewrite Hflee. cbn [bind].
  set (logged := Combat.log_add cs _).
  destruct (enemy_turn_counter_attack logged g1 Halive)
    as (still & cs' & g' & Hturn & (line & more & Hrounds) & Hplayer & Hstill & Hout).
  exists still, cs', g'. split; [rewrite Hturn; reflexivity |].
  split; [| split; [exact Hplayer | split; [exact Hstill | exact Hout]]].
  exists line, more. rewrite Hrounds. subst logged.
  cbn [Combat.rounds Combat.log Combat.log_add Combat.with_log Combat.add].
  rewrite <- app_assoc. reflexivity.
Qed.

(** C8.  A level-1 player with strength 5 and xp 0 (and gold >= 0) meets a
    fresh goblin (hp 8, defense 8, xp_reward 30, gold_reward 5, loot Rusty
    Dagger); the first d20 comes up 20.  The attack is a critical hit for
    2 * (20 + 5) = 50, the goblin's hp drops to -42, the round ends the
    encounter with outcome victory, and the player has 30 xp, 5 more gold and
    Rusty Dagger at the end of the inventory. *)
Theorem goblin_critical_victory (p : Player.Player) (g g1 : rng) :
  Player.level p = 1 ->
  Player.strength p = 5 ->
  Player.xp p = 0 ->
  0 <= Player.gold p ->
  roll_d20 g = (20, g1) ->
  Combat.get_enemy (VStr (lit "goblin")) = Ok Scenario.goblin
  /\ exists cs',
       resolve_round (Combat.__init__ p Scenario.goblin) (lit "attack") g
       = Ok (false, cs', g1)
       /\ Combat.rounds (Combat.log cs')
          = [ lit "  🎲 CRITICAL HIT! You roll a 20 → 50 damage to Goblin Scout.";
              nl ++ lit "✨ Goblin Scout falls! You gain 30 XP and 5 gold.";
              lit "   Loot: Rusty Dagger" ]
       /\ Combat.hp (Combat.enemy cs') = 8 - 50
       /\ Combat.hp (Combat.enemy cs') <= 0
       /\ Combat.outcome (Combat.log cs') = lit "victory"
       /\ Player.xp (Combat.player cs') = Player.xp p + 30
       /\ Player.gold (Combat.player cs') = Player.gold p + 5
       /\ Player.inventory (Combat.player cs')
          = Player.inventory p ++ [lit "Rusty Dagger"]
       /\ Player.level (Combat.player cs') = 1.
Proof.
  intros Hlevel Hstr Hxp Hgold Hroll.
  split; [reflexivity |].
  destruct p as [nm h mh st it gd inv lv x].
  cbn [Player.level Player.strength Player.xp Player.gold Player.inventory] in *.
  subst lv st x.
  unfold Combat.resolve_round.
  change (str_eqb (lit "attack") (lit "flee")) with false. cbv iota.
  rewrite Hroll. change (20 =? 20) with true. cbv iota.
  (* the only test left open is whether the reward can be added to gold *)
  destruct gd as [| gd | gd]; [| | lia];
    (eexists; split; [lazy; reflexivity |]);
    lazy; repeat split; try reflexivity; intro Hgt; discriminate Hgt.
Qed.

End CombatProperties.

(** *** Runs on scripted dice *)

(** The fresh player attacks the goblin and rolls 20: the round is over with
    the goblin at 8 - 50 hit points. *)
Lemma critical_hit_damage_witness :
  (str_eqb (lit "attack") (lit "flee") = false
   /\ Combat.roll_d20 Combat.script Combat.script_randint Scenario.dice_20
      = (20, ([], [])))
  /\ exists still cs' g',
       Combat.resolve_round Combat.script Combat.script_randint Combat.script_random
         (Combat.__init__ Player.default Scenario.goblin) (lit "attack")
         Scenario.dice_20 = Ok (still, cs', g')
       /\ Combat.hp (Combat.enemy cs') = 8 - 50.
Proof.
  split; [split; reflexivity |].
  destruct (critical_hit_damage Combat.script Combat.script_randint
              Combat.script_random
              (Combat.__init__ Player.default Scenario.goblin) (lit "attack")
              Scenario.dice_20 ([], []) eq_refl eq_refl)
    as (still & cs' & g' & Hround & Hhp & _).
  exists still, cs', g'. split; [exact Hround | exact Hhp].
Defined.

(** C7 fails as stated.  The wounded player (1 hit point) tries to flee from
    the goblin; [random()] draws 0.75 against a chance of 0.4 + 5 * 0.02, so
    the attempt fails; the goblin rolls 20 and hits for 1 + 2: the round
    returns false with outcome defeat, not true. *)
Lemma flee_failure_defeat_counterexample :
  Combat.attempt_flee Combat.script Combat.script_random
    (Combat.__init__ Scenario.wounded Scenario.goblin) Scenario.dice_20_1
  = Ok (false, ([20; 1], []))
  /\ match
       Combat.resolve_round Combat.script Combat.script_randint Combat.script_random
         (Combat.__init__ Scenario.wounded Scenario.goblin) (lit "flee")
         Scenario.dice_20_1
     with
     | Ok (still, cs', _) =>
         still = false
         /\ Combat.outcome (Combat.log cs') = lit "defeat"
         /\ Player.hp (Combat.player cs') = 0
     | Raise _ => False
     end.
Proof. split; [reflexivity | vm_compute; repeat split; reflexivity]. Qed.

(** The same attempt by the fresh player (20 hit points): the goblin's hit
    leaves 17, and the round returns true. *)
Lemma flee_failure_counter_attack_witness :
  (Combat.attempt_flee Combat.script Combat.script_random
     (Combat.__init__ Player.default Scenario.goblin) Scenario.dice_20_1
   = Ok (false, ([20; 1], []))
   /\ 0 < Combat.hp (Combat.enemy (Combat.__init__ Player.default Scenario.goblin)))
  /\ exists cs' g',
       Combat.resolve_round Combat.script Combat.script_randint Combat.script_random
         (Combat.__init__ Player.default Scenario.goblin) (lit "flee")
         Scenario.dice_20_1 = Ok (true, cs', g')
       /\ Player.hp (Combat.player cs') = 17.
Proof.
  split; [split; reflexivity |].
  destruct (flee_failure_counter_attack Combat.script Combat.script_randint
              Combat.script_random
              (Combat.__init__ Player.default Scenario.goblin)
              Scenario.dice_20_1 ([20; 1], []) eq_refl eq_refl)
    as (still & cs' & g' & Hround & _ & Hplayer & Hstill & _).
  exists cs', g'. rewrite Hplayer in Hstill.
  split.
  - rewrite Hround, Hstill. reflexivity.
  - rewrite Hplayer. reflexivity.
Defined.

(** The fresh player (level 1, strength 5, xp 0, gold 10) and dice that
    come up 20. *)
Lemma goblin_critical_victory_witness :
  (Player.level Player.default = 1 /\ Player.strength Player.default = 5
   /\ Player.xp Player.default = 0 /\ 0 <= Player.gold Player.default
   /\ Combat.roll_d20 Combat.script Combat.script_randint Scenario.dice_20
      = (20, ([], [])))
  /\ exists cs',
       Combat.resolve_round Combat.script Combat.script_randint Combat.script_random
         (Combat.__init__ Player.default Scenario.goblin) (lit "attack")
         Scenario.dice_20 = Ok (false, cs', ([], []))
       /\ Combat.outcome (Combat.log cs') = lit "victory"
       /\ Player.xp (Combat.player cs') = 30
       /\ Player.gold (Combat.player cs') = 15
       /\ Player.inventory (Combat.player cs')
          = [lit "Torch"; lit "Rations x3"; lit "Rusty Dagger"].
Proof.
  split; [repeat split; vm_compute; discriminate |].
  destruct (goblin_critical_victory Combat.script Combat.script_randint
              Combat.script_random Player.default Scenario.dice_20 ([], [])
              eq_refl eq_refl eq_refl)
    as (_ & cs' & Hround & _ & _ & _ & Hout & Hxp & Hgold & Hinv & _);
    [vm_compute; discriminate | reflexivity |].
  exists cs'. repeat split; assumption.
Defined.

(* ------------------------------------------------------------------------- *)
(** ** Text *)
(* ------------------------------------------------------------------------- *)

Lemma str_eqb_eq (a b : str) : str_eqb a b = true <-> a = b.
Proof.
  revert b. induction a as [| x a IH]; intros [| y b]; cbn; split;
    try reflexivity; try discriminate.
  - intros H. apply andb_prop in H as [Hx Ha].
    apply N.eqb_eq in Hx. apply IH in Ha. now subst.
  - intros H. injection H as -> ->.
    rewrite N.eqb_refl. cbn. now apply IH.
Qed.

Lemma str_eqb_neq (a b : str) : str_eqb a b = false <-> a <> b.
Proof.
  split.
  - intros H E. apply str_eqb_eq in E. congruence.
  - intros H. destruct (str_eqb a b) eqn:E; [| reflexivity].
    apply str_eqb_eq in E. contradiction.
Qed.

Lemma str_in_In (x : str) (l : list str) : str_in x l = true <-> In x l.
Proof.
  unfold str_in. rewrite existsb_exists. split.
  - intros (y & Hy & E). apply str_eqb_eq in E. now subst.
  - intros H. exists x. split; [exact H | now apply str_eqb_eq].
Qed.

Lemma in_str_set_true (v : value) (l : list str) :
  in_str_set v l = Ok true <-> exists s, v = VStr s /\ In s l.
Proof.
  split.
  - destruct v; cbn; try discriminate.
    intros H. injection H as H. apply str_in_In in H. eauto.
  - intros (s & -> & H). cbn. f_equal. now apply str_in_In.
Qed.

Lemma lstrip_head (s : str) (c : char) (t : str) :
  lstrip s = c :: t -> isspace c = false.
Proof.
  induction s as [| x s IH]; cbn; [discriminate |].
  destruct (isspace x) eqn:Hx; [exact IH |].
  intros H. injection H as -> _. exact Hx.
Qed.

Lemma lstrip_snoc (a : str) (c : char) :
  isspace c = false -> lstrip (a ++ [c]) = lstrip a ++ [c].
Proof.
  intros Hc. induction a as [| x a IH]; cbn.
  - now rewrite Hc.
  - destruct (isspace x); [exact IH | reflexivity].
Qed.

Lemma rstrip_last (s t : str) (c : char) :
  rstrip s = t ++ [c] -> isspace c = false.
Proof.
  unfold rstrip. intros H.
  apply (f_equal (@rev char)) in H.
  rewrite rev_involutive, rev_app_distr in H. cbn in H.
  exact (lstrip_head _ _ _ H).
Qed.

Lemma rstrip_cons (x : char) (s : str) :
  isspace x = false -> rstrip (x :: s) = x :: rstrip s.
Proof.
  intros Hx. unfold rstrip. cbn [rev].
  rewrite (lstrip_snoc _ _ Hx), rev_app_distr. reflexivity.
Qed.

(** What [strip] returns has no blank at either end. *)
Lemma strip_trimmed (s : str) : Intent.trimmed (strip s).
Proof.
  unfold strip. split.
  - intros c t H.
    destruct (lstrip s) as [| x s'] eqn:Hs; [discriminate H |].
    pose proof (lstrip_head _ _ _ Hs) as Hx.
    rewrite (rstrip_cons _ _ Hx) in H. injection H as <- _. exact Hx.
  - intros t c H. exact (rstrip_last _ _ _ H).
Qed.

(* ------------------------------------------------------------------------- *)
(** ** The response validator *)
(* ------------------------------------------------------------------------- *)

(** The fallback narrative is never empty. *)
Lemma narrative_at_nonempty (s m : str) :
  DungeonMaster.narrative_at s = Some m -> m <> [].
Proof.
  unfold DungeonMaster.narrative_at.
  destruct (DungeonMaster.drop_prefix _ s) as [r |]; [| discriminate].
  destruct (lstrip r) as [| c r1]; [discriminate |].
  destruct (c =? 58)%N; [| discriminate].
  destruct (lstrip r1) as [| c2 r2]; [discriminate |].
  destruct (c2 =? 34)%N; [| discriminate].
  destruct (DungeonMaster.unquoted_run r2) as [run rest].
  destruct rest; [discriminate |].
  destruct run as [| x run]; [discriminate |].
  destruct (10 <=? length (x :: run))%nat; [| discriminate].
  intros H. injection H as <-. discriminate.
Qed.

Lemma search_narrative_nonempty (s m : str) :
  DungeonMaster.search_narrative s = Some m -> m <> [].
Proof.
  induction s as [| c s IH]; cbn [DungeonMaster.search_narrative].
  - destruct (DungeonMaster.narrative_at []) eqn:E; [| discriminate].
    intros H. injection H as <-. exact (narrative_at_nonempty _ _ E).
  - destruct (DungeonMaster.narrative_at (c :: s)) eqn:E; [| exact IH].
    intros H. injection H as <-. exact (narrative_at_nonempty _ _ E).
Qed.

Lemma extract_narrative_fallback_nonempty (text : str) :
  DungeonMaster._extract_narrative_fallback text <> [].
Proof.
  unfold DungeonMaster._extract_narrative_fallback.
  destruct (DungeonMaster.search_narrative text) eqn:E.
  - exact (search_narrative_nonempty _ _ E).
  - destruct (strip _); discriminate.
Qed.

(** Comparison of floats: below implies at most. *)
Lemma float_ltb_leb (x y : float) :
  PrimFloat.ltb x y = true -> PrimFloat.leb x y = true.
Proof.
  rewrite ltb_spec, leb_spec. unfold SFltb, SFleb.
  destruct (SFcompare _ _) as [[| |] |]; congruence.
Qed.

(** [max(-1.0, min(1.0, td))] lies between -1 and 1 whatever [td] is, a NaN
    included. *)
Lemma clamp_bounds (td : float) :
  PrimFloat.leb (-1)%float (fmax (-1)%float (fmin 1%float td)) = true
  /\ PrimFloat.leb (fmax (-1)%float (fmin 1%float td)) 1%float = true.
Proof.
  unfold fmin. destruct (PrimFloat.ltb td 1) eqn:H1; unfold fmax.
  - destruct (PrimFloat.ltb (-1) td) eqn:H2.
    + split; now apply float_ltb_leb.
    + split; reflexivity.
  - split; reflexivity.
Qed.

Section ValidatorProperties.

Variable loads : str -> result value.
Variable lower : str -> str.
Variable str_to_float : str -> option float.

Local Abbreviation _parse := (DungeonMaster._parse loads lower str_to_float).
Local Abbreviation _safe_str := (DungeonMaster._safe_str lower).
Local Abbreviation float_ := (DungeonMaster.float_ str_to_float).
Local Abbreviation decoded raw := (loads (strip (DungeonMaster.sub_fences 0 raw))).

(** [_safe_str]: the default, or the stripped text of a raw [str] that is
    not blank and whose lowercase is not the word null. *)
Lemma safe_str_cases (v default : value) :
  _safe_str v default = default
  \/ exists s,
       v = VStr s /\ _safe_str v default = VStr (strip s)
       /\ strip s <> [] /\ lower s <> lit "null".
Proof.
  destruct v; cbn; auto.
  destruct (strip s) as [| c t] eqn:Hs; cbn; auto.
  destruct (str_eqb (lower s) (lit "null")) eqn:Hnull; cbn; auto.
  right. exists s. rewrite Hs. repeat split; try discriminate.
  now apply str_eqb_neq.
Qed.

Lemma safe_str_present (v : value) : Intent.present_text (_safe_str v VNone).
Proof.
  destruct (safe_str_cases v VNone) as [-> | (s & _ & -> & Hne & _)].
  - now left.
  - right. exists (strip s). repeat split; auto; apply strip_trimmed.
Qed.

Lemma safe_str_null (s : str) (default : value) :
  lower s = lit "null" -> _safe_str (VStr s) default = default.
Proof.
  intros H. cbn. rewrite H.
  change (str_eqb (lit "null") (lit "null")) with true.
  now rewrite andb_false_r.
Qed.

(** [_validate_npc]: nothing, or a descriptor of exactly three keys whose
    name is stripped and not empty, whose disposition is one of the three,
    and whose role is the raw one as it came ("stranger" without one). *)
Lemma validate_npc_cases (npc_data npc : value) :
  DungeonMaster._validate_npc npc_data = Ok npc ->
  npc = VNone
  \/ exists d n disposition,
       npc_data = VDict d
       /\ dict_get d (lit "name") (VStr []) = VStr n
       /\ strip n <> []
       /\ In disposition DungeonMaster.DISPOSITIONS
       /\ npc = VDict [ (lit "name", VStr (strip n));
                        (lit "role", dict_get d (lit "role") (VStr (lit "stranger")));
                        (lit "disposition", VStr disposition) ].
Proof.
  unfold DungeonMaster._validate_npc.
  destruct npc_data as [| | | | | | d]; try (intros H; injection H as <-; now left).
  destruct (dict_get d (lit "name") (VStr [])) as [| | | | n | |] eqn:Hname;
    try (intros H; injection H as <-; now left).
  destruct (strip n) as [| c t] eqn:Hn; cbn [truthy negb];
    [intros H; injection H as <-; now left |].
  destruct (in_str_set _ _) as [known | e] eqn:Hknown; cbn [bind]; [| discriminate].
  intros H. injection H as <-. right.
  destruct known; cbn [negb].
  - apply in_str_set_true in Hknown as (disp & Hdisp & Hin).
    exists d, n, disp. rewrite Hn, Hdisp. repeat split; auto; discriminate.
  - exists d, n, (lit "neutral"). rewrite Hn.
    repeat split; auto; try discriminate. cbn. auto.
Qed.

(** When the text decodes to nothing JSON, the response carries the
    fallback narrative and nothing else. *)
Lemma parse_decode_failure (raw : str) :
  decoded raw = Raise JSONDecodeError ->
  _parse raw
  = Ok (DungeonMaster.narrative_only
          (VStr (DungeonMaster._extract_narrative_fallback raw))).
Proof. intros H. unfold DungeonMaster._parse. now rewrite H. Qed.

(** A document that is no object makes the first [data.get] raise. *)
Lemma parse_not_object (raw : str) (data : value) :
  decoded raw = Ok data ->
  (forall d, data <> VDict d) ->
  _parse raw = Raise AttributeError.
Proof.
  intros H Hd. unfold DungeonMaster._parse. rewrite H.
  destruct data; try reflexivity. now destruct (Hd d).
Qed.

(** An enemy_type that is a list or an object makes the test against the
    set of registered keys raise. *)
Lemma parse_unhashable_enemy (raw : str) (d : list (str * value)) :
  decoded raw = Ok (VDict d) ->
  in_str_set (dict_get d (lit "enemy_type") VNone) DungeonMaster.VALID_ENEMY_TYPES
  = Raise TypeError ->
  _parse raw = Raise TypeError.
Proof.
  intros H He. unfold DungeonMaster._parse. rewrite H.
  cbn [get bind]. now rewrite He.
Qed.

(** What a returned response is made of. *)
Lemma parse_ok_inv (raw : str) (r : DungeonMaster.DMResponse) :
  _parse raw = Ok r ->
  (decoded raw = Raise JSONDecodeError
   /\ r = DungeonMaster.narrative_only
            (VStr (DungeonMaster._extract_narrative_fallback raw)))
  \/ exists d known npc,
       decoded raw = Ok (VDict d)
       /\ in_str_set (dict_get d (lit "enemy_type") VNone)
            DungeonMaster.VALID_ENEMY_TYPES = Ok known
       /\ DungeonMaster._validate_npc (dict_get d (lit "new_npc") VNone) = Ok npc
       /\ DungeonMaster.combat_trigger r
          = truthy (dict_get d (lit "combat_trigger") (VBool false))
       /\ DungeonMaster.enemy_type r
          = (if negb (DungeonMaster.combat_trigger r) then VNone
             else if negb known then VNone
             else dict_get d (lit "enemy_type") VNone)
       /\ DungeonMaster.new_npc r = npc
       /\ DungeonMaster.narrative r
          = _safe_str (dict_get d (lit "narrative") VNone)
              (VStr (lit "The world holds its breath."))
       /\ (forall k v, In (k, v) (Intent.text_fields r) ->
             v = _safe_str (dict_get d k VNone) VNone)
       /\ DungeonMaster.raw_json r = VDict d
       /\ (DungeonMaster.tension_delta r = zero
           \/ exists td,
                DungeonMaster.tension_delta r = fmax (-1)%float (fmin 1%float td)).
Proof.
  unfold DungeonMaster._parse.
  destruct (decoded raw) as [data | e] eqn:Hl.
  - destruct data as [| | | | | | d]; cbn [get bind]; try discriminate.
    destruct (in_str_set _ _) as [known | e] eqn:Hknown; cbn [bind];
      [| discriminate].
    destruct (DungeonMaster._validate_npc _) as [npc | e] eqn:Hnpc; cbn [bind];
      [| discriminate].
    intros H. right. exists d, known, npc.
    destruct (float_ _) as [td | e]; [| destruct e]; cbn [bind] in H;
      try discriminate H; injection H as <-;
      (repeat split; try reflexivity; try assumption;
       [ intros k v Hin; cbn in Hin;
         repeat (destruct Hin as [Hin | Hin];
                 [injection Hin as <- <-; reflexivity |]);
         contradiction
       | first [left; reflexivity | right; eexists; reflexivity] ]).
  - destruct e; try discriminate. intros H. injection H as <-. now left.
Qed.

Lemma in_str_set_false (v : value) (l : list str) :
  in_str_set v l = Ok false -> ~ exists s, v = VStr s /\ In s l.
Proof.
  intros H Hex. apply in_str_set_true in Hex. congruence.
Qed.

(** X14.  The narrative of a returned response is a text, and not the empty one. *)
Lemma narrative_present (raw : str) (r : DungeonMaster.DMResponse) :
  _parse raw = Ok r ->
  exists s, DungeonMaster.narrative r = VStr s /\ s <> [].
Proof.
  intros H.
  destruct (parse_ok_inv raw r H)
    as [[_ Hr] | (d & _ & _ & _ & _ & _ & _ & _ & _ & Hn & _)].
  - subst r. eexists.
    split; [reflexivity | apply extract_narrative_fallback_nonempty].
  - rewrite Hn.
    destruct (safe_str_cases (dict_get d (lit "narrative") VNone)
                (VStr (lit "The world holds its breath.")))
      as [-> | (s & _ & -> & Hne & _)].
    + eexists. split; [reflexivity | discriminate].
    + eexists. split; [reflexivity | exact Hne].
Qed.

(** X13.  The tension_delta of a returned response lies between -1 and 1. *)
Lemma tension_delta_clamped (raw : str) (r : DungeonMaster.DMResponse) :
  _parse raw = Ok r ->
  PrimFloat.leb (-1)%float (DungeonMaster.tension_delta r) = true
  /\ PrimFloat.leb (DungeonMaster.tension_delta r) 1%float = true.
Proof.
  intros H.
  destruct (parse_ok_inv raw r H)
    as [[_ Hr] | (d & _ & _ & _ & _ & _ & _ & _ & _ & _ & _ & _ & [-> | [td ->]])].
  - subst r. split; reflexivity.
  - split; reflexivity.
  - apply clamp_bounds.
Qed.

(** X15.  When the validator does return: the text decodes to an object whose
    enemy_type can be hashed, whose NPC descriptor (if it is one with a name)
    has a disposition that can be hashed, and whose tension_delta, if an
    integer, fits a float. *)
Lemma parse_returns (raw : str) (d : list (str * value)) :
  decoded raw = Ok (VDict d) ->
  hashable (dict_get d (lit "enemy_type") VNone) = true ->
  (forall npc,
     dict_get d (lit "new_npc") VNone = VDict npc ->
     hashable (dict_get npc (lit "disposition") (VStr (lit "neutral"))) = true) ->
  (forall n,
     dict_get d (lit "tension_delta") (VFloat zero) = VInt n ->
     exists f, float_of_Z n = Ok f) ->
  exists r, _parse raw = Ok r.
Proof.
  intros Hl Henemy Hnpc Hint.
  unfold DungeonMaster._parse. rewrite Hl. cbn [get bind].
  assert (He : exists known,
             in_str_set (dict_get d (lit "enemy_type") VNone)
               DungeonMaster.VALID_ENEMY_TYPES = Ok known).
  { destruct (dict_get d (lit "enemy_type") VNone); cbn in *;
      try discriminate; eauto. }
  destruct He as [known ->]. cbn [bind].
  assert (Hn : exists npc,
             DungeonMaster._validate_npc (dict_get d (lit "new_npc") VNone) = Ok npc).
  { destruct (dict_get d (lit "new_npc") VNone) as [| | | | | | npc] eqn:Hd;
      try (eexists; reflexivity).
    specialize (Hnpc npc eq_refl).
    unfold DungeonMaster._validate_npc.
    destruct (dict_get npc (lit "name") _); try (eexists; reflexivity).
    destruct (negb _); [eexists; reflexivity |].
    destruct (dict_get npc (lit "disposition") _); cbn in *;
      try discriminate; eexists; reflexivity. }
  destruct Hn as [npc ->]. cbn [bind].
  destruct (dict_get d (lit "tension_delta") (VFloat zero)) as [| | n | | t | |] eqn:Ht;
    cbn [DungeonMaster.float_ bind]; try (eexists; reflexivity).
  - destruct (Hint n eq_refl) as [f ->]. eexists; reflexivity.
  - destruct (str_to_float t); eexists; reflexivity.
Qed.

(** C2.  In the response the validator returns, enemy_type is present
    exactly when combat_trigger is true and the raw enemy_type (the value
    under that key in the decoded object) is one of the registered keys; a
    present enemy_type is that raw key. *)
Theorem enemy_type_present_iff (raw : str) (r : DungeonMaster.DMResponse) :
  _parse raw = Ok r ->
  (DungeonMaster.enemy_type r <> VNone
   <-> DungeonMaster.combat_trigger r = true
       /\ exists d s,
            decoded raw = Ok (VDict d)
            /\ dict_get d (lit "enemy_type") VNone = VStr s
            /\ In s DungeonMaster.VALID_ENEMY_TYPES)
  /\ (DungeonMaster.enemy_type r = VNone
      \/ exists d s,
           decoded raw = Ok (VDict d)
           /\ dict_get d (lit "enemy_type") VNone = VStr s
           /\ DungeonMaster.enemy_type r = VStr s
           /\ In s DungeonMaster.VALID_ENEMY_TYPES).
Proof.
  intros H.
  destruct (parse_ok_inv raw r H)
    as [[Hl ->] | (d & known & npc & Hl & Hknown & _ & Hct & Het & _)].
  - cbn. split; [| now left].
    split; [intros Hne; now destruct Hne | intros [Hf _]; discriminate Hf].
  - rewrite Het. destruct (DungeonMaster.combat_trigger r); cbn [negb].
    + destruct known; cbn [negb].
      * apply in_str_set_true in Hknown as (s & Hs & Hin).
        split.
        -- split; [intros _ | intros _; rewrite Hs; discriminate].
           split; [reflexivity | now exists d, s].
        -- right. now exists d, s.
      * split; [| now left].
        split; [intros Hne; now destruct Hne |].
        intros (_ & d' & s & Hl' & Hs & Hin).
        rewrite Hl in Hl'. injection Hl' as <-.
        exfalso. apply (in_str_set_false _ _ Hknown). now exists s.
    + split; [| now left].
      split; [intros Hne; now destruct Hne | intros [Hf _]; discriminate Hf].
Qed.

(** C3, as the code has it.  In the response the validator returns, each of
    quest_update, new_location, location_description and memory_event is
    absent or a text that is not empty and has no blank at either end, and
    it is absent when the lowercase of the raw text is the word null.  The
    NPC descriptor, when present, has the stripped, non-empty raw name, a
    disposition among friendly, neutral and hostile, and for role the raw
    value as it came ("stranger" when the raw descriptor has no role). *)
Theorem validated_texts (raw : str) (r : DungeonMaster.DMResponse) :
  _parse raw = Ok r ->
  (forall k v, In (k, v) (Intent.text_fields r) -> Intent.present_text v)
  /\ (forall d k v s,
        decoded raw = Ok (VDict d) ->
        In (k, v) (Intent.text_fields r) ->
        dict_get d k VNone = VStr s ->
        lower s = lit "null" ->
        v = VNone)
  /\ (DungeonMaster.new_npc r = VNone
      \/ exists data d n disposition,
           decoded raw = Ok (VDict data)
           /\ dict_get data (lit "new_npc") VNone = VDict d
           /\ dict_get d (lit "name") (VStr []) = VStr n
           /\ DungeonMaster.new_npc r
              = VDict [ (lit "name", VStr (strip n));
                        (lit "role", dict_get d (lit "role") (VStr (lit "stranger")));
                        (lit "disposition", VStr disposition) ]
           /\ strip n <> []
           /\ Intent.trimmed (strip n)
           /\ In disposition DungeonMaster.DISPOSITIONS).
Proof.
  intros H.
  destruct (parse_ok_inv raw r H)
    as [[Hl ->] | (data & known & npc & Hl & _ & Hnpc & _ & _ & Hr & _ & Hf & _)].
  - split; [| split].
    + intros k v Hin. cbn in Hin.
      repeat (destruct Hin as [Hin | Hin]; [injection Hin as _ <-; now left |]).
      contradiction.
    + intros d k v s Hd. rewrite Hl in Hd. discriminate Hd.
    + now left.
  - split; [| split].
    + intros k v Hin. rewrite (Hf k v Hin). apply safe_str_present.
    + intros d k v s Hd Hin Hs Hnull.
      rewrite Hl in Hd. injection Hd as <-.
      rewrite (Hf k v Hin), Hs. now apply safe_str_null.
    + rewrite Hr.
      destruct (validate_npc_cases _ _ Hnpc)
        as [-> | (d & n & disp & Hd & Hn & Hne & Hin & ->)]; [now left |].
      right. exists data, d, n, disp.
      repeat split; auto; apply strip_trimmed.
Qed.

End ValidatorProperties.

(** *** Runs on concrete replies *)

(** C1 does not hold of the code: three replies on which [_parse] raises.
    An enemy_type that is an array cannot be hashed for the test against the
    set of registered keys ([TypeError]); a reply that is a JSON array has no
    [get] ([AttributeError]); an integer tension_delta too large for a float
    raises [OverflowError], which the handler around [float] does not
    catch. *)
Theorem parse_raises :
  Scenario.parse Scenario.list_enemy_reply = Raise TypeError
  /\ Scenario.parse Scenario.array_reply = Raise AttributeError
  /\ Scenario.parse Scenario.huge_tension_reply = Raise OverflowError.
Proof. repeat split; vm_compute; reflexivity. Qed.

(** The goblin reply keeps its enemy_type. *)
Lemma enemy_type_present_iff_witness :
  exists r,
    Scenario.parse Scenario.goblin_reply = Ok r
    /\ DungeonMaster.enemy_type r = VStr (lit "goblin")
    /\ (DungeonMaster.enemy_type r <> VNone
        <-> DungeonMaster.combat_trigger r = true
            /\ exists d s,
                 Json.loads (strip (DungeonMaster.sub_fences 0 Scenario.goblin_reply))
                 = Ok (VDict d)
                 /\ dict_get d (lit "enemy_type") VNone = VStr s
                 /\ In s DungeonMaster.VALID_ENEMY_TYPES).
Proof.
  eexists. split; [lazy; reflexivity |].
  split; [reflexivity |].
  apply (enemy_type_present_iff Json.loads ascii_lower Json.float_of_str
           Scenario.goblin_reply _ eq_refl).
Defined.

(** C3 fails as stated: the role of an NPC descriptor is not checked at all,
    so a reply with an empty role yields a response whose NPC has the empty
    text for role. *)
Lemma npc_role_unchecked_counterexample :
  exists r,
    Scenario.parse Scenario.blank_role_reply = Ok r
    /\ DungeonMaster.new_npc r
       = VDict [ (lit "name", VStr (lit "Bob")); (lit "role", VStr []);
                 (lit "disposition", VStr (lit "neutral")) ]
    /\ ~ Intent.strings_clean r.
Proof.
  eexists. split; [lazy; reflexivity |].
  split; [reflexivity |].
  intros [_ [Hnone | (name & role & disposition & Hnpc & _ & Hrole)]].
  - discriminate Hnone.
  - cbn in Hnpc. injection Hnpc as _ <- _.
    destruct Hrole as [Hrole | (s & Hs & Hne & _)].
    + discriminate Hrole.
    + injection Hs as <-. now apply Hne.
Qed.

(** Beside it, [_safe_str] tests the raw text against the word null and
    returns the stripped one: a padded null comes out as the word null. *)
Lemma safe_str_padded_null :
  DungeonMaster._safe_str ascii_lower (VStr (lit " null ")) VNone
  = VStr (lit "null").
Proof. reflexivity. Qed.

(** The innkeeper reply: the quest text comes out stripped, the memory event
    NULL is dropped, and the NPC Mara has role stranger and the disposition
    neutral for the unknown grumpy. *)
Lemma validated_texts_witness :
  exists r,
    Scenario.parse Scenario.innkeeper_reply = Ok r
    /\ DungeonMaster.quest_update r = VStr (lit "Find the lost key")
    /\ DungeonMaster.memory_event r = VNone
    /\ DungeonMaster.new_npc r
       = VDict [ (lit "name", VStr (lit "Mara")); (lit "role", VStr (lit "stranger"));
                 (lit "disposition", VStr (lit "neutral")) ]
    /\ (forall k v, In (k, v) (Intent.text_fields r) -> Intent.present_text v).
Proof.
  eexists. split; [lazy; reflexivity |].
  repeat (split; [reflexivity |]).
  apply (validated_texts Json.loads ascii_lower Json.float_of_str
           Scenario.innkeeper_reply _ eq_refl).
Defined.

(* ------------------------------------------------------------------------- *)
(** ** The combat step of a turn *)
(* ------------------------------------------------------------------------- *)

Section EngineProperties.

Variable rng : Type.
Variable randint : Z -> Z -> rng -> Z * rng.
Variable random : rng -> float * rng.
Variable lower : str -> str.
Variable repr : value -> str.

Local Abbreviation GameEngine := (Engine.GameEngine rng).
Local Abbreviation stdout := (Engine.stdout rng).
Local Abbreviation print := (Engine.print rng).
Local Abbreviation input := (Engine.input rng).
Local Abbreviation combat_loop := (Engine.combat_loop rng randint random lower).
Local Abbreviation combat_summary := (Engine.combat_summary rng).
Local Abbreviation encounter := (Engine.encounter rng randint random lower).
Local Abbreviation _run_combat := (Engine._run_combat rng randint random lower repr).
Local Abbreviation combat_step := (Engine.combat_step rng randint random lower repr).
Local Abbreviation extends := (Engine.extends rng).

Lemma extends_refl (a : GameEngine) : extends a a.
Proof. exists []. now rewrite app_nil_r. Qed.

Lemma extends_trans (a b c : GameEngine) :
  extends a b -> extends b c -> extends a c.
Proof.
  intros [t1 H1] [t2 H2]. exists (t1 ++ t2).
  now rewrite H2, H1, app_assoc.
Qed.

Lemma extends_print (a : GameEngine) (text : str) : extends a (print a text).
Proof. now exists (text ++ nl). Qed.

Lemma extends_same (a b : GameEngine) : stdout b = stdout a -> extends a b.
Proof. intros H. exists []. now rewrite app_nil_r. Qed.

Lemma extends_input (a b : GameEngine) (prompt : str) (line : option str) :
  input a prompt = (line, b) -> extends a b.
Proof.
  unfold Engine.input. intros H. exists prompt.
  destruct (Engine.stdin rng a); injection H as _ <-; reflexivity.
Qed.

Lemma extends_summary (combat : Combat.CombatSystem) (a : GameEngine) :
  extends a (combat_summary combat a).
Proof.
  unfold Engine.combat_summary, Engine._section.
  set (a1 := print a _).
  assert (H1 : extends a a1) by apply extends_print.
  destruct (str_eqb _ (lit "victory")).
  - set (a2 := print a1 _).
    assert (H2 : extends a a2)
      by (eapply extends_trans; [exact H1 | apply extends_print]).
    destruct (Combat.loot_gained _).
    + eapply extends_trans; [exact H2 | now apply extends_same].
    + eapply extends_trans; [exact H2 |].
      eapply extends_trans; [apply extends_print | now apply extends_same].
  - destruct (str_eqb _ (lit "defeat")).
    + eapply extends_trans; [exact H1 |].
      eapply extends_trans; [apply extends_print | now apply extends_same].
    + destruct (str_eqb _ (lit "fled")); [| exact H1].
      eapply extends_trans; [exact H1 |].
      eapply extends_trans; [apply extends_print | now apply extends_same].
Qed.

Lemma extends_loop (fuel : nat) :
  forall (combat combat' : Combat.CombatSystem) (a b : GameEngine),
    combat_loop fuel combat a = Some (Ok (combat', b)) -> extends a b.
Proof.
  induction fuel as [| fuel IH]; intros combat combat' a b H; [discriminate H |].
  cbn [Engine.combat_loop] in H.
  destruct (Player.status_str _) as [status | e]; [| discriminate H].
  set (a3 := print (print (print a _) _) _) in H.
  assert (H3 : extends a a3).
  { eapply extends_trans; [apply extends_print |].
    eapply extends_trans; apply extends_print. }
  destruct (input a3 (lit "> ")) as [line a4] eqn:Hin.
  assert (H4 : extends a a4)
    by (eapply extends_trans; [exact H3 | exact (extends_input _ _ _ _ Hin)]).
  assert (Hgo : forall choice,
    match
      (if str_in choice [lit "a"; lit "attack"; []] then Some (lit "attack")
       else if str_in choice [lit "f"; lit "flee"] then Some (lit "flee")
       else None)
    with
    | None =>
        combat_loop fuel combat (print a4 (lit "Atacar o huir — elige con sabiduría."))
    | Some action =>
        match Combat.resolve_round rng randint random combat action (Engine.dice rng a4) with
        | Raise e => Some (Raise e)
        | Ok (still_fighting, combat0, g) =>
            let self :=
              Engine.with_player rng (Engine.with_dice rng a4 g) (Combat.player combat0) in
            let self :=
              match rev (Combat.rounds (Combat.log combat0)) with
              | [] => self
              | latest :: _ => print self latest
              end in
            if negb still_fighting then Some (Ok (combat0, self))
            else combat_loop fuel combat0 self
        end
    end = Some (Ok (combat', b)) -> extends a b).
  { intros choice Hc.
    destruct (if str_in choice _ then _ else _) as [action |].
    - destruct (Combat.resolve_round _ _ _ _ _ _) as [[[still combat0] g] | e];
        [| discriminate Hc].
      cbv zeta in Hc.
      set (a5 := Engine.with_player rng _ _) in Hc.
      assert (H5 : extends a a5)
        by (eapply extends_trans; [exact H4 | now apply extends_same]).
      destruct (rev _) as [| latest rest].
      + destruct still; cbn [negb] in Hc.
        * eapply extends_trans; [exact H5 | exact (IH _ _ _ _ Hc)].
        * injection Hc as _ <-. exact H5.
      + assert (H6 : extends a (print a5 latest))
          by (eapply extends_trans; [exact H5 | apply extends_print]).
        destruct still; cbn [negb] in Hc.
        * eapply extends_trans; [exact H6 | exact (IH _ _ _ _ Hc)].
        * injection Hc as _ <-. exact H6.
    - eapply extends_trans; [| exact (IH _ _ _ _ Hc)].
      eapply extends_trans; [exact H4 | apply extends_print]. }
  destruct line as [line |];
    [exact (Hgo (lower (strip line)) H) | exact (Hgo (lit "flee") H)].
Qed.

(** C9.  When the response has combat_trigger true and no enemy_type, the
    combat step prints the engine's note about the substitution and runs
    the encounter against the goblin of the registry, which [get_enemy]
    finds; a step that comes to an end has printed the note, the banner of
    the goblin's encounter and its figures after all that was printed
    before. *)
Theorem default_enemy_substitution (fuel : nat)
    (response : DungeonMaster.DMResponse) (self : GameEngine) :
  DungeonMaster.combat_trigger response = true ->
  DungeonMaster.enemy_type response = VNone ->
  Combat.get_enemy (VStr (lit "goblin")) = Ok Scenario.goblin
  /\ combat_step fuel response self
     = encounter fuel Scenario.goblin
         (print self
            (nl ++ lit "[Engine: la IA lanzó combate sin tipo de enemigo — usando goblin por defecto]"))
  /\ forall self',
       combat_step fuel response self = Some (Ok self') ->
       exists tail,
         stdout self' = stdout self ++ Scenario.goblin_announcement ++ tail.
Proof.
  intros Htrigger Hnone.
  assert (Hstep : combat_step fuel response self
                  = encounter fuel Scenario.goblin
                      (print self
                         (nl ++ lit "[Engine: la IA lanzó combate sin tipo de enemigo — usando goblin por defecto]"))).
  { unfold Engine.combat_step. rewrite Htrigger, Hnone. reflexivity. }
  split; [reflexivity |]. split; [exact Hstep |].
  intros self' Hdone. rewrite Hstep in Hdone.
  unfold Engine.encounter in Hdone.
  set (announced := Engine.with_world rng _ _) in Hdone.
  destruct (combat_loop fuel _ announced) as [[[combat b] | e] |] eqn:Hloop;
    try discriminate Hdone.
  injection Hdone as <-.
  destruct (extends_trans _ _ _ (extends_loop _ _ _ _ _ Hloop)
              (extends_summary combat b)) as [tail Htail].
  exists tail. rewrite Htail, app_assoc. f_equal.
  subst announced. unfold Engine._header.
  cbn [Engine.stdout Engine.with_world Engine.print].
  rewrite <- !app_assoc. f_equal.
Qed.

End EngineProperties.

(** The dragon reply at a fresh game: the validator drops the unregistered
    dragon, the engine falls back on the goblin, the player types a and rolls
    20, and the goblin is beaten. *)
Lemma default_enemy_substitution_witness :
  Scenario.parse Scenario.dragon_reply = Ok Scenario.dragon_intent
  /\ (DungeonMaster.combat_trigger Scenario.dragon_intent = true
      /\ DungeonMaster.enemy_type Scenario.dragon_intent = VNone)
  /\ exists self',
       Scenario.combat_step 3 Scenario.dragon_intent Scenario.fresh_game
       = Some (Ok self')
       /\ Player.xp (Engine.player _ self') = 30
       /\ Memory.events (Engine.memory _ self')
          = [lit "Derrotado un Goblin Scout en combate. Obtuviste 30 XP y 5 oro."]
       /\ exists tail,
            Engine.stdout _ self'
            = Engine.stdout _ Scenario.fresh_game
              ++ Scenario.goblin_announcement ++ tail.
Proof.
  split; [vm_compute; reflexivity |].
  split; [split; reflexivity |].
  eexists.
  split; [lazy; reflexivity |].
  split; [reflexivity |]. split; [reflexivity |].
  apply (default_enemy_substitution Combat.script Combat.script_randint
           Combat.script_random ascii_lower repr_plain 3 Scenario.dragon_intent
           Scenario.fresh_game eq_refl eq_refl).
  reflexivity.
Defined.

(* ========================================================================= *)
(** * Further properties *)
(* ========================================================================= *)

(* ------------------------------------------------------------------------- *)
(** ** Player: healing, damage, items, gold *)
(* ------------------------------------------------------------------------- *)

(** X1.  [heal] on a player at or below full health, for an amount >= 0: the hit
    points rise, never past their maximum; the amount reported is the rise
    itself, and lies between 0 and the amount asked for; nothing else
    changes. *)
Theorem heal_bounded (p : Player.Player) (amount : Z) :
  Player.hp p <= Player.max_hp p ->
  0 <= amount ->
  let healed := fst (Player.heal p amount) in
  let p' := snd (Player.heal p amount) in
  Player.hp p <= Player.hp p' <= Player.max_hp p
  /\ healed = Player.hp p' - Player.hp p
  /\ 0 <= healed <= amount
  /\ p' = Player.set_hp p (Player.hp p').
Proof.
  intros Hfull Hpos. unfold Player.heal.
  cbn [fst snd Player.hp Player.max_hp Player.set_hp].
  repeat split; try lia.
Qed.

(** The fresh player, hurt for 7, drinks a potion of 10: 7 are healed. *)
Lemma heal_bounded_witness :
  fst (Player.heal (snd (Player.take_damage Player.default 7)) 10) = 7
  /\ Player.hp (snd (Player.heal (snd (Player.take_damage Player.default 7)) 10)) = 20.
Proof.
  destruct (heal_bounded (snd (Player.take_damage Player.default 7)) 10)
    as (_ & Hhealed & _ & _); [vm_compute; discriminate | lia |].
  split; [rewrite Hhealed |]; reflexivity.
Defined.

(** X2.  [take_damage] on a player with hp >= 0, for an amount >= 0: the damage
    reported is exactly the hit points lost, and the player is alive
    afterwards exactly when the amount was below the hit points. *)
Theorem take_damage_exact (p : Player.Player) (amount : Z) :
  0 <= Player.hp p ->
  0 <= amount ->
  let p' := snd (Player.take_damage p amount) in
  fst (Player.take_damage p amount) = Player.hp p - Player.hp p'
  /\ (Player.is_alive p' = true <-> amount < Player.hp p).
Proof.
  intros Hhp Hpos. unfold Player.take_damage, Player.is_alive.
  cbn [fst snd Player.hp Player.set_hp].
  split; [lia |]. rewrite Z.gtb_lt. lia.
Qed.

(** A blow of 20 fells the fresh player (hp 20); the damage reported is 20. *)
Lemma take_damage_exact_witness :
  fst (Player.take_damage Player.default 20) = 20
  /\ Player.is_alive (snd (Player.take_damage Player.default 20)) = false.
Proof.
  destruct (take_damage_exact Player.default 20) as [Hdmg Halive];
    [vm_compute; discriminate | lia |].
  split; [rewrite Hdmg; reflexivity |].
  destruct (Player.is_alive _); [| reflexivity].
  destruct Halive as [Hlt _]. specialize (Hlt eq_refl). vm_compute in Hlt.
  discriminate Hlt.
Defined.

(** X3.  Every mutation method keeps a player in good standing, for amounts that
    are not negative (any change of gold, any item). *)
Theorem methods_keep_valid (p : Player.Player) (amount delta : Z) (item : str) :
  Invariants.valid_player p ->
  0 <= amount ->
  Invariants.valid_player (snd (Player.take_damage p amount))
  /\ Invariants.valid_player (snd (Player.heal p amount))
  /\ Invariants.valid_player (snd (Player.gain_xp p amount))
  /\ Invariants.valid_player (snd (Player.modify_gold p delta))
  /\ Invariants.valid_player (Player.add_item p item)
  /\ Invariants.valid_player (snd (Player.remove_item p item)).
Proof.
  unfold Invariants.valid_player. intros Hvalid Hpos.
  repeat split;
    try (unfold Player.gain_xp; cbn [Player.set_xp Player.xp Player.level];
         destruct (Z.geb_spec (Player.xp p + amount) (Player.level p * 100)));
    try (unfold Player.modify_gold;
         destruct (Z.ltb_spec (Player.gold p + delta) 0));
    try (unfold Player.remove_item; destruct (str_in item (Player.inventory p)));
    unfold Player.take_damage, Player.heal, Player.add_item;
    cbn [fst snd Player.hp Player.max_hp Player.strength Player.intelligence
         Player.gold Player.level Player.xp Player.set_hp Player.set_xp
         Player.set_gold Player.set_inventory Player._level_up];
    lia.
Qed.

(** The fresh player is in good standing, and so after a gain of 250 xp. *)
Lemma methods_keep_valid_witness :
  Invariants.valid_player Player.default
  /\ Invariants.valid_player (snd (Player.gain_xp Player.default 250)).
Proof.
  assert (Hvalid : Invariants.valid_player Player.default)
    by (unfold Invariants.valid_player; cbn; lia).
  split; [exact Hvalid |].
  apply (methods_keep_valid Player.default 250 0 []); [exact Hvalid | lia].
Defined.

Lemma count_app (x : str) (a b : list str) :
  Invariants.count x (a ++ b) = (Invariants.count x a + Invariants.count x b)%nat.
Proof.
  unfold Invariants.count. now rewrite filter_app, length_app.
Qed.

Lemma count_remove (x item : str) (l : list str) :
  Invariants.count x (Player.list_remove item l)
  = (Invariants.count x l
     - (if str_in item l && str_eqb x item then 1 else 0))%nat.
Proof.
  induction l as [| y l IH]; [reflexivity |].
  cbn [Player.list_remove str_in existsb].
  destruct (str_eqb item y) eqn:Hy.
  - apply str_eqb_eq in Hy. subst y. cbn [orb andb].
    unfold Invariants.count. cbn [filter].
    destruct (str_eqb x item); cbn [length]; lia.
  - cbn [orb]. fold (str_in item l).
    unfold Invariants.count in *. cbn [filter].
    destruct (str_eqb x y) eqn:Hx; cbn [length]; rewrite IH; [| reflexivity].
    destruct (str_in item l && str_eqb x item) eqn:Hb; [| lia].
    apply andb_prop in Hb as [_ Hb].
    apply str_eqb_eq in Hb. apply str_eqb_eq in Hx.
    assert (Heq : item = y) by congruence.
    apply str_eqb_eq in Heq. congruence.
Qed.

(** X4.  [remove_item] returns true exactly when the item is in the inventory;
    it then takes out one occurrence of it and no other item, and an
    inventory without the item is left as it is. *)
Theorem remove_item_one (p : Player.Player) (item : str) :
  let found := fst (Player.remove_item p item) in
  let p' := snd (Player.remove_item p item) in
  (found = true <-> In item (Player.inventory p))
  /\ (forall x,
        Invariants.count x (Player.inventory p')
        = (Invariants.count x (Player.inventory p)
           - (if found && str_eqb x item then 1 else 0))%nat)
  /\ (found = false -> p' = p)
  /\ p' = Player.set_inventory p (Player.inventory p').
Proof.
  cbv zeta. unfold Player.remove_item.
  destruct (str_in item (Player.inventory p)) eqn:Hin; cbn [fst snd].
  - split; [split; [intros _; now apply str_in_In | reflexivity] |].
    split; [| split; [discriminate | reflexivity]].
    intros x. cbn [Player.inventory Player.set_inventory].
    rewrite count_remove, Hin. reflexivity.
  - split.
    + split; [discriminate |]. intros H. apply str_in_In in H. congruence.
    + split; [intros x; cbn [andb]; lia |].
      split; [reflexivity | now destruct p].
Qed.

(** X5.  An item added and then removed: every item occurs as often as before,
    and an inventory that did not hold the item is the same list again. *)
Theorem add_then_remove (p : Player.Player) (item : str) :
  let back := Player.remove_item (Player.add_item p item) item in
  fst back = true
  /\ (forall x,
        Invariants.count x (Player.inventory (snd back))
        = Invariants.count x (Player.inventory p))
  /\ (~ In item (Player.inventory p) -> snd back = p).
Proof.
  cbv zeta.
  assert (Hin : str_in item (Player.inventory (Player.add_item p item)) = true).
  { apply str_in_In. cbn. apply in_or_app. right. now left. }
  unfold Player.remove_item. rewrite Hin. cbn [fst snd].
  split; [reflexivity |]. split.
  - intros x. cbn [Player.inventory Player.set_inventory Player.add_item].
    rewrite count_remove.
    change (Player.inventory (Player.add_item p item))
      with (Player.inventory p ++ [item]) in Hin.
    rewrite Hin, count_app. unfold Invariants.count at 2. cbn [filter andb].
    destruct (str_eqb x item); cbn [length]; lia.
  - intros Hnot.
    cbn [Player.inventory Player.set_inventory Player.add_item].
    assert (Hrm : forall l, ~ In item l -> Player.list_remove item (l ++ [item]) = l).
    { induction l as [| y l IH]; cbn; intros Hl.
      - now rewrite (proj2 (str_eqb_eq item item) eq_refl).
      - destruct (str_eqb item y) eqn:Hy.
        + apply str_eqb_eq in Hy. subst. destruct Hl. now left.
        + f_equal. apply IH. intros H. apply Hl. now right. }
    rewrite (Hrm _ Hnot). now destruct p.
Qed.

(** X6.  A change of gold that goes through can be undone: for gold >= 0 and
    gold + delta >= 0, [modify_gold(delta)] and then [modify_gold(-delta)]
    both return true and give the player back as it was. *)
Theorem modify_gold_undo (p : Player.Player) (delta : Z) :
  0 <= Player.gold p ->
  0 <= Player.gold p + delta ->
  let p1 := snd (Player.modify_gold p delta) in
  fst (Player.modify_gold p delta) = true
  /\ Player.modify_gold p1 (- delta) = (true, p).
Proof.
  intros Hgold Hsum. cbv zeta. unfold Player.modify_gold.
  destruct (Z.ltb_spec (Player.gold p + delta) 0) as [Hneg | _]; [lia |].
  cbn [fst snd Player.gold Player.set_gold].
  destruct (Z.ltb_spec (Player.gold p + delta + - delta) 0) as [Hneg | _]; [lia |].
  split; [reflexivity |]. f_equal.
  destruct p. unfold Player.set_gold. cbn. f_equal. lia.
Qed.

(** The fresh player (gold 10) pays 10 and is paid back. *)
Lemma modify_gold_undo_witness :
  Player.modify_gold (snd (Player.modify_gold Player.default (-10))) 10
  = (true, Player.default).
Proof.
  apply (modify_gold_undo Player.default (-10)); vm_compute; discriminate.
Defined.

(** X7.  [status_str] raises [ZeroDivisionError] exactly for a player whose
    max_hp is 0. *)
Theorem status_str_zero_division (p : Player.Player) :
  Player.status_str p = Raise ZeroDivisionError <-> Player.max_hp p = 0.
Proof.
  unfold Player.status_str, truediv. split.
  - destruct (Z.eqb_spec (Player.max_hp p) 0) as [Hz | Hnz]; [intros _; exact Hz |].
    destruct (Player.hp p =? 0).
    + cbn [bind]. change (float_of_Z 10) with (Ok 10%float). cbn [bind].
      destruct (int_of_float _) as [n | e] eqn:Hi; cbn [bind]; [discriminate |].
      unfold int_of_float in Hi.
      destruct (Prim2SF _); try discriminate Hi; injection Hi as <-; discriminate.
    + destruct (SFdiv_core_binary _ _ _ _ _ _) as [[q e] l].
      destruct (binary_round_aux _ _ _ _ _ _); cbn [bind];
        try discriminate;
        change (float_of_Z 10) with (Ok 10%float); cbn [bind];
        (destruct (int_of_float _) as [n | e'] eqn:Hi; cbn [bind]; [discriminate |];
         unfold int_of_float in Hi;
         destruct (Prim2SF _); try discriminate Hi; injection Hi as <-; discriminate).
  - intros ->. reflexivity.
Qed.

(* ------------------------------------------------------------------------- *)
(** ** Combat: the registry and the rounds *)
(* ------------------------------------------------------------------------- *)

Lemma template_keys (k : str) (d : list (str * Combat.Enemy)) :
  (exists e, Combat.template k d = Some e) <-> In k (map fst d).
Proof.
  induction d as [| [k' e'] d IH]; cbn.
  - split; [intros [e H]; discriminate H | contradiction].
  - destruct (str_eqb k k') eqn:Hk.
    + apply str_eqb_eq in Hk. subst. split; [now left | eauto].
    + rewrite IH. split; [now right |].
      intros [H | H]; [| exact H].
      subst. rewrite (proj2 (str_eqb_eq k k) eq_refl) in Hk. discriminate Hk.
Qed.

(** X8.  The keys the validator lets through are the keys of the registry:
    [get_enemy] returns an enemy exactly for a [str] among
    [VALID_ENEMY_TYPES], and raises [ValueError] for any other [str]. *)
Theorem get_enemy_registered (key : value) :
  ((exists e, Combat.get_enemy key = Ok e)
   <-> exists s, key = VStr s /\ In s DungeonMaster.VALID_ENEMY_TYPES)
  /\ (forall s,
        key = VStr s ->
        ~ In s DungeonMaster.VALID_ENEMY_TYPES ->
        Combat.get_enemy key = Raise ValueError).
Proof.
  change DungeonMaster.VALID_ENEMY_TYPES with (map fst Combat.ENEMY_TEMPLATES).
  split.
  - split.
    + intros [e H]. destruct key; try discriminate H.
      exists s. split; [reflexivity |]. apply template_keys.
      unfold Combat.get_enemy in H. revert H.
      destruct (Combat.template s Combat.ENEMY_TEMPLATES); [eauto | discriminate].
    + intros (s & -> & Hin). apply template_keys in Hin as [e He].
      exists e. unfold Combat.get_enemy. now rewrite He.
  - intros s -> Hnot. unfold Combat.get_enemy.
    destruct (Combat.template s Combat.ENEMY_TEMPLATES) eqn:He; [| reflexivity].
    destruct Hnot. apply template_keys. eauto.
Qed.

(** What the registry hands out: an enemy at full health, with an attack bonus
    and rewards that are not negative, and an xp reward of at most 200. *)
Lemma get_enemy_fresh (key : value) (e : Combat.Enemy) :
  Combat.get_enemy key = Ok e ->
  Combat.hp e = Combat.max_hp e
  /\ 0 < Combat.hp e
  /\ 0 <= Combat.attack e
  /\ 0 <= Combat.xp_reward e <= 200
  /\ 0 <= Combat.gold_reward e.
Proof.
  destruct key; try discriminate. cbn.
  repeat (match goal with
          | |- context [if str_eqb ?a ?b then _ else _] => destruct (str_eqb a b)
          end;
          [intros H; injection H as <-; cbn; lia |]).
  discriminate.
Qed.

Lemma resolve_victory_outcome (cs : Combat.CombatSystem) :
  Combat.outcome (Combat.log (Combat._resolve_victory cs)) = lit "victory".
Proof.
  unfold Combat._resolve_victory.
  destruct (Player.gain_xp _ _) as [up p].
  destruct (Player.modify_gold _ _) as [paid p'].
  destruct (Combat.loot (Combat.enemy cs)); destruct up; reflexivity.
Qed.

Lemma resolve_victory_player (cs : Combat.CombatSystem) :
  Combat.player (Combat._resolve_victory cs)
  = fold_left Player.add_item (Combat.loot (Combat.enemy cs))
      (snd (Player.modify_gold
              (snd (Player.gain_xp (Combat.player cs)
                      (Combat.xp_reward (Combat.enemy cs))))
              (Combat.gold_reward (Combat.enemy cs)))).
Proof.
  unfold Combat._resolve_victory.
  destruct (Player.gain_xp _ _) as [up p].
  destruct (Player.modify_gold _ _) as [paid p'].
  destruct (Combat.loot (Combat.enemy cs)); destruct up; reflexivity.
Qed.

Lemma add_items_valid (loot : list str) (p : Player.Player) :
  Invariants.valid_player p ->
  Invariants.valid_player (fold_left Player.add_item loot p).
Proof.
  revert p. induction loot as [| item loot IH]; intros p Hp; [exact Hp |].
  cbn [fold_left]. apply IH. exact Hp.
Qed.

Section CombatRounds.

Variable rng : Type.
Variable randint : Z -> Z -> rng -> Z * rng.
Variable random : rng -> float * rng.

Local Abbreviation roll_d20 := (Combat.roll_d20 rng randint).
Local Abbreviation roll_d6 := (Combat.roll_d6 rng randint).
Local Abbreviation _enemy_damage := (Combat._enemy_damage rng randint).
Local Abbreviation attempt_flee := (Combat.attempt_flee rng random).
Local Abbreviation enemy_turn := (Combat.enemy_turn rng randint).
Local Abbreviation resolve_round := (Combat.resolve_round rng randint random).
Local Abbreviation resolve_loop := (Combat.resolve_loop rng randint random).
Local Abbreviation resolve := (Combat.resolve rng randint random).

(** How the enemy's turn ends: with a victory over an enemy out of hit
    points, with the defeat of a player out of hit points, or with both
    sides standing and the outcome as it was. *)
Lemma enemy_turn_outcome (cs cs' : Combat.CombatSystem) (g g' : rng) (still : bool) :
  enemy_turn cs g = (still, cs', g') ->
  Combat.enemy cs' = Combat.enemy cs
  /\ (still = true ->
        0 < Combat.hp (Combat.enemy cs')
        /\ 0 < Player.hp (Combat.player cs')
        /\ Combat.outcome (Combat.log cs') = Combat.outcome (Combat.log cs))
  /\ (still = false ->
        (Combat.outcome (Combat.log cs') = lit "victory"
         /\ Combat.hp (Combat.enemy cs') <= 0)
        \/ (Combat.outcome (Combat.log cs') = lit "defeat"
            /\ Player.hp (Combat.player cs') <= 0
            /\ 0 < Combat.hp (Combat.enemy cs'))).
Proof.
  unfold Combat.enemy_turn.
  destruct (Z.leb_spec (Combat.hp (Combat.enemy cs)) 0) as [Hdead | Hlive].
  - intros H. injection H as <- <- _.
    rewrite resolve_victory_enemy, resolve_victory_outcome.
    split; [reflexivity |]. split; [discriminate |]. intros _. left. now split.
  - destruct (roll_d20 g) as [e_roll g1].
    destruct (Combat._enemy_hits cs e_roll).
    + destruct (_enemy_damage cs e_roll g1) as [dmg g2].
      destruct (Player.take_damage (Combat.player cs) dmg) as [actual p].
      cbn [Combat.player Combat.with_player Combat.log_add Combat.with_log].
      unfold Player.is_alive.
      destruct (Z.gtb_spec (Player.hp p) 0) as [Hp | Hp]; cbn [negb];
        intros H; injection H as <- <- _; cbn; (split; [reflexivity |]).
      * split; [intros _; repeat split; lia | discriminate].
      * split; [discriminate |]. intros _. right. repeat split; lia.
    + cbn [Combat.player Combat.with_player Combat.log_add Combat.with_log].
      unfold Player.is_alive.
      destruct (Z.gtb_spec (Player.hp (Combat.player cs)) 0) as [Hp | Hp];
        cbn [negb]; intros H; injection H as <- <- _; cbn;
        (split; [reflexivity |]).
      * split; [intros _; repeat split; lia | discriminate].
      * split; [discriminate |]. intros _. right. repeat split; lia.
Qed.

(** X9.  A round that returns true leaves both sides with hit points and the
    outcome as it was.  A round that returns false ends the encounter in
    one of three ways: fled (only on the action flee, and then player and
    enemy are as they were), victory (the enemy is out of hit points), or
    defeat (the player is, and the enemy is not). *)
Theorem round_outcome (cs cs' : Combat.CombatSystem) (action : str)
    (g g' : rng) (still : bool) :
  resolve_round cs action g = Ok (still, cs', g') ->
  (still = true ->
     0 < Combat.hp (Combat.enemy cs')
     /\ 0 < Player.hp (Combat.player cs')
     /\ Combat.outcome (Combat.log cs') = Combat.outcome (Combat.log cs))
  /\ (still = false ->
        (Combat.outcome (Combat.log cs') = lit "fled"
         /\ action = lit "flee"
         /\ Combat.player cs' = Combat.player cs
         /\ Combat.enemy cs' = Combat.enemy cs)
        \/ (Combat.outcome (Combat.log cs') = lit "victory"
            /\ Combat.hp (Combat.enemy cs') <= 0)
        \/ (Combat.outcome (Combat.log cs') = lit "defeat"
            /\ Player.hp (Combat.player cs') <= 0
            /\ 0 < Combat.hp (Combat.enemy cs'))).
Proof.
  unfold Combat.resolve_round.
  destruct (str_eqb action (lit "flee")) eqn:Hflee.
  - apply str_eqb_eq in Hflee.
    destruct (attempt_flee cs g) as [[escaped g1] | e]; cbn [bind]; [| discriminate].
    destruct escaped.
    + intros H. injection H as <- <- _.
      split; [discriminate |]. intros _. left. now repeat split.
    + intros H. injection H as H.
      destruct (enemy_turn_outcome _ _ _ _ _ H) as (_ & Hon & Hoff).
      split; [exact Hon |]. intros Hs. right. exact (Hoff Hs).
  - destruct (roll_d20 g) as [p_roll g1].
    intros H. injection H as H.
    destruct (enemy_turn_outcome _ _ _ _ _ H) as (_ & Hon & Hoff).
    split.
    + intros Hs. destruct (Hon Hs) as (He & Hp & Ho).
      repeat split; try assumption. rewrite Ho.
      destruct (p_roll =? 20); [reflexivity |].
      destruct (Combat._player_hits cs p_roll); reflexivity.
    + intros Hs. right. exact (Hoff Hs).
Qed.

(** X10.  The attack action takes from the enemy exactly the damage of the roll:
    2 * (20 + strength) on a 20, roll + strength on any other roll that
    reaches the defense, nothing on a miss; the enemy is otherwise
    unchanged. *)
Theorem attack_takes_damage (cs : Combat.CombatSystem) (action : str)
    (g g1 : rng) (roll : Z) :
  str_eqb action (lit "flee") = false ->
  roll_d20 g = (roll, g1) ->
  exists still cs' g',
    resolve_round cs action g = Ok (still, cs', g')
    /\ Combat.enemy cs'
       = Combat.set_hp (Combat.enemy cs)
           (Combat.hp (Combat.enemy cs)
            - Invariants.attack_damage roll
                (Player.strength (Combat.player cs))
                (Combat.defense (Combat.enemy cs))).
Proof.
  intros Hattack Hroll.
  unfold Combat.resolve_round. rewrite Hattack, Hroll.
  match goal with
  | |- context [enemy_turn ?x g1] => set (after := x)
  end.
  destruct (enemy_turn after g1) as [[still cs'] g'] eqn:Hturn.
  exists still, cs', g'. split; [reflexivity |].
  pose proof (enemy_turn_enemy rng randint after g1) as Henemy.
  rewrite Hturn in Henemy. cbn [fst snd] in Henemy. rewrite Henemy.
  subst after. unfold Invariants.attack_damage, Combat._player_hits,
    Combat._player_damage.
  destruct (roll =? 20) eqn:H20.
  - apply Z.eqb_eq in H20. subst roll.
    cbn [Combat.enemy Combat.log_add Combat.with_log Combat.with_enemy].
    f_equal. lia.
  - destruct (roll >=? Combat.defense (Combat.enemy cs)).
    + reflexivity.
    + cbn [Combat.enemy Combat.log_add Combat.with_log].
      destruct (Combat.enemy cs). unfold Combat.set_hp. cbn. f_equal. lia.
Qed.

End CombatRounds.

(** On scripted dice: the fresh player rolls 12 against the goblin (defense
    8), a hit for 12 + 5; the goblin is out of hit points and the round is a
    victory. *)
Lemma attack_takes_damage_witness :
  exists still cs' g',
    Combat.resolve_round Combat.script Combat.script_randint Combat.script_random
      (Combat.__init__ Player.default Scenario.goblin) (lit "attack") ([12], [])
    = Ok (still, cs', g')
    /\ Combat.hp (Combat.enemy cs') = 8 - 17.
Proof.
  destruct (attack_takes_damage Combat.script Combat.script_randint
              Combat.script_random
              (Combat.__init__ Player.default Scenario.goblin) (lit "attack")
              ([12], []) ([], []) 12 eq_refl eq_refl)
    as (still & cs' & g' & Hround & Henemy).
  exists still, cs', g'. split; [exact Hround |]. rewrite Henemy. reflexivity.
Defined.

(** The wounded player's failed flight, which the goblin ends: the outcome
    is defeat, with the player at 0 hit points and the goblin standing. *)
Lemma round_outcome_witness :
  exists cs' g',
    Combat.resolve_round Combat.script Combat.script_randint Combat.script_random
      (Combat.__init__ Scenario.wounded Scenario.goblin) (lit "flee")
      Scenario.dice_20_1 = Ok (false, cs', g')
    /\ Combat.outcome (Combat.log cs') = lit "defeat"
    /\ Player.hp (Combat.player cs') <= 0
    /\ 0 < Combat.hp (Combat.enemy cs').
Proof.
  eexists. eexists. split; [lazy; reflexivity |].
  match goal with
  | |- Combat.outcome (Combat.log ?c) = _ /\ _ =>
      destruct (round_outcome Combat.script Combat.script_randint
                  Combat.script_random
                  (Combat.__init__ Scenario.wounded Scenario.goblin) c
                  (lit "flee") Scenario.dice_20_1 ([], []) false eq_refl)
        as [_ Hoff]
  end.
  destruct (Hoff eq_refl) as [(Hfled & _) | [(Hwon & _) | Hlost]].
  - vm_compute in Hfled. discriminate Hfled.
  - vm_compute in Hwon. discriminate Hwon.
  - exact Hlost.
Defined.

Lemma take_damage_valid (p : Player.Player) (amount : Z) :
  Invariants.valid_player p ->
  0 <= amount ->
  Invariants.valid_player (snd (Player.take_damage p amount)).
Proof.
  unfold Invariants.valid_player, Player.take_damage.
  cbn [fst snd Player.hp Player.max_hp Player.strength Player.intelligence
       Player.gold Player.level Player.xp Player.set_hp].
  lia.
Qed.

Lemma victory_valid (cs : Combat.CombatSystem) :
  Invariants.valid_player (Combat.player cs) ->
  0 <= Combat.xp_reward (Combat.enemy cs) ->
  Invariants.valid_player (Combat.player (Combat._resolve_victory cs)).
Proof.
  intros Hp Hxp. rewrite resolve_victory_player. apply add_items_valid.
  set (p := Combat.player cs) in *.
  set (xp := Combat.xp_reward (Combat.enemy cs)) in *.
  set (gold := Combat.gold_reward (Combat.enemy cs)).
  unfold Invariants.valid_player in *.
  unfold Player.modify_gold, Player.gain_xp.
  cbn [Player.set_xp Player.xp Player.level].
  destruct (Z.geb_spec (Player.xp p + xp) (Player.level p * 100));
    cbn [snd];
    match goal with
    | |- context [?a <? ?b] => destruct (Z.ltb_spec a b)
    end;
    cbn [snd Player.hp Player.max_hp Player.strength Player.intelligence
         Player.gold Player.level Player.xp Player.set_hp Player.set_xp
         Player.set_gold Player._level_up] in *;
    lia.
Qed.

Section CombatInvariants.

Variable rng : Type.
Variable randint : Z -> Z -> rng -> Z * rng.
Variable random : rng -> float * rng.

Local Abbreviation roll_d20 := (Combat.roll_d20 rng randint).
Local Abbreviation roll_d6 := (Combat.roll_d6 rng randint).
Local Abbreviation _enemy_damage := (Combat._enemy_damage rng randint).
Local Abbreviation attempt_flee := (Combat.attempt_flee rng random).
Local Abbreviation enemy_turn := (Combat.enemy_turn rng randint).
Local Abbreviation resolve_round := (Combat.resolve_round rng randint random).
Local Abbreviation resolve_loop := (Combat.resolve_loop rng randint random).
Local Abbreviation resolve := (Combat.resolve rng randint random).

Lemma enemy_turn_valid (cs cs' : Combat.CombatSystem) (g g' : rng) (still : bool) :
  Invariants.valid_player (Combat.player cs) ->
  0 <= Combat.attack (Combat.enemy cs) ->
  0 <= Combat.xp_reward (Combat.enemy cs) ->
  (forall g0, 1 <= fst (roll_d6 g0)) ->
  enemy_turn cs g = (still, cs', g') ->
  Invariants.valid_player (Combat.player cs').
Proof.
  intros Hp Hattack Hxp Hd6. unfold Combat.enemy_turn.
  destruct (Combat.hp (Combat.enemy cs) <=? 0).
  - intros H. injection H as _ <- _. now apply victory_valid.
  - destruct (roll_d20 g) as [e_roll g1].
    destruct (Combat._enemy_hits cs e_roll).
    + unfold Combat._enemy_damage. specialize (Hd6 g1).
      destruct (roll_d6 g1) as [d6 g2]. cbn [fst] in Hd6.
      pose proof (take_damage_valid (Combat.player cs)
                    (d6 + Combat.attack (Combat.enemy cs)) Hp) as Hv.
      destruct (Player.take_damage _ _) as [actual p]. cbn [snd] in Hv.
      cbn [Combat.player Combat.with_player Combat.log_add Combat.with_log].
      destruct (negb (Player.is_alive p)); intros H; injection H as _ <- _;
        cbn; apply Hv; lia.
    + cbn [Combat.player Combat.with_player Combat.log_add Combat.with_log].
      destruct (negb (Player.is_alive _)); intros H; injection H as _ <- _;
        exact Hp.
Qed.

(** X11.  A round against an enemy of the registry, at whatever hit points it has
    left, keeps a player in good standing, as long as the d6 never comes up
    below 1. *)
Theorem round_keeps_valid (cs cs' : Combat.CombatSystem) (action : str)
    (g g' : rng) (still : bool) (key : value) (e : Combat.Enemy) (left : Z) :
  Combat.get_enemy key = Ok e ->
  Combat.enemy cs = Combat.set_hp e left ->
  Invariants.valid_player (Combat.player cs) ->
  (forall g0, 1 <= fst (roll_d6 g0)) ->
  resolve_round cs action g = Ok (still, cs', g') ->
  Invariants.valid_player (Combat.player cs').
Proof.
  intros Hkey Henemy Hp Hd6.
  destruct (get_enemy_fresh key e Hkey) as (_ & _ & Hattack & [Hxp _] & _).
  assert (Ha : 0 <= Combat.attack (Combat.enemy cs)) by now rewrite Henemy.
  assert (Hx : 0 <= Combat.xp_reward (Combat.enemy cs)) by now rewrite Henemy.
  unfold Combat.resolve_round.
  destruct (str_eqb action (lit "flee")).
  - destruct (attempt_flee cs g) as [[escaped g1] | err]; cbn [bind]; [| discriminate].
    destruct escaped; intros H.
    + injection H as _ <- _. exact Hp.
    + injection H as H.
      refine (enemy_turn_valid _ _ _ _ _ _ _ _ Hd6 H); assumption.
  - destruct (roll_d20 g) as [p_roll g1]. intros H. injection H as H.
    refine (enemy_turn_valid _ _ _ _ _ _ _ _ Hd6 H);
      destruct (p_roll =? 20); try destruct (Combat._player_hits cs p_roll);
      assumption.
Qed.

(** X12.  The automatic [resolve()] only attacks: when it comes to an end, the
    log it returns is the combat system's, it opens with the line of the
    two names, and its outcome is victory over an enemy out of hit points
    or defeat of a player out of hit points, never fled. *)
Theorem resolve_ends (fuel : nat) (cs cs' : Combat.CombatSystem) (g g' : rng)
    (log : Combat.CombatLog) :
  resolve fuel cs g = Some (Ok (log, cs', g')) ->
  log = Combat.log cs'
  /\ (exists more,
        Combat.rounds log
        = Combat.rounds (Combat.log cs)
          ++ (nl ++ lit "⚔️  Combat begins: " ++ Player.name (Combat.player cs)
              ++ lit " vs " ++ Combat.name (Combat.enemy cs) ++ nl)
          :: more)
  /\ ((Combat.outcome log = lit "victory" /\ Combat.hp (Combat.enemy cs') <= 0)
      \/ (Combat.outcome log = lit "defeat"
          /\ Player.hp (Combat.player cs') <= 0)).
Proof.
  unfold Combat.resolve.
  set (start := Combat.log_add cs _).
  assert (Hloop : forall n c c' g0 g1,
            resolve_loop n c g0 = Some (Ok (c', g1)) ->
            (exists more,
               Combat.rounds (Combat.log c') = Combat.rounds (Combat.log c) ++ more)
            /\ ((Combat.outcome (Combat.log c') = lit "victory"
                 /\ Combat.hp (Combat.enemy c') <= 0)
                \/ (Combat.outcome (Combat.log c') = lit "defeat"
                    /\ Player.hp (Combat.player c') <= 0))).
  { induction n as [| n IH]; intros c c' g0 g1 H; [discriminate H |].
    cbn [Combat.resolve_loop] in H.
    unfold Combat.resolve_round in H.
    change (str_eqb (lit "attack") (lit "flee")) with false in H. cbv iota in H.
    destruct (roll_d20 g0) as [p_roll g2].
    match type of H with
    | context [enemy_turn ?x g2] => set (after := x) in H
    end.
    assert (Hafter : exists line,
              Combat.rounds (Combat.log after)
              = Combat.rounds (Combat.log c) ++ [line]).
    { subst after. destruct (p_roll =? 20);
        [| destruct (Combat._player_hits c p_roll)]; eexists; reflexivity. }
    destruct Hafter as [line Hline].
    destruct (enemy_turn after g2) as [[still c1] g3] eqn:Hturn.
    pose proof (enemy_turn_rounds rng randint after g2) as [more Hmore].
    rewrite Hturn in Hmore. cbn [fst snd] in Hmore.
    destruct (enemy_turn_outcome rng randint _ _ _ _ _ Hturn) as (_ & _ & Hoff).
    destruct still.
    - destruct (IH _ _ _ _ H) as [[more' Hmore'] Hend].
      split; [| exact Hend].
      exists ([line] ++ more ++ more').
      rewrite Hmore', Hmore, Hline, <- !app_assoc. reflexivity.
    - injection H as <- <-. split.
      + exists ([line] ++ more). rewrite Hmore, Hline, <- app_assoc. reflexivity.
      + destruct (Hoff eq_refl) as [Hwon | (Hlost & Hhp & _)]; auto. }
  destruct (resolve_loop fuel start g) as [[[c1 g1] | err] |] eqn:Hrun;
    try discriminate.
  intros H. injection H as <- <- <-.
  destruct (Hloop _ _ _ _ _ Hrun) as [[more Hmore] Hend].
  split; [reflexivity |]. split; [| exact Hend].
  exists more. rewrite Hmore. subst start.
  cbn [Combat.rounds Combat.log Combat.log_add Combat.with_log Combat.add
       Combat.player Combat.enemy].
  rewrite <- app_assoc. reflexivity.
Qed.

End CombatInvariants.

Lemma counter_d6 (n : Combat.counter) :
  1 <= fst (Combat.roll_d6 Combat.counter Combat.counter_randint n).
Proof.
  unfold Combat.roll_d6, Combat.counter_randint. cbn [fst].
  pose proof (Z.mod_pos_bound n (6 - 1 + 1)). lia.
Qed.

(** On counting dice at draw 19 the first d20 comes up 20: the fresh player
    beats the goblin and is still in good standing. *)
Lemma round_keeps_valid_witness :
  exists cs' g',
    Combat.resolve_round Combat.counter Combat.counter_randint
      Combat.counter_random (Combat.__init__ Player.default Scenario.goblin)
      (lit "attack") 19 = Ok (false, cs', g')
    /\ Invariants.valid_player (Combat.player cs').
Proof.
  eexists. eexists. split; [lazy; reflexivity |].
  refine (round_keeps_valid Combat.counter Combat.counter_randint
            Combat.counter_random
            (Combat.__init__ Player.default Scenario.goblin) _ (lit "attack")
            19 _ false (VStr (lit "goblin")) Scenario.goblin 8
            eq_refl eq_refl _ counter_d6 eq_refl).
  unfold Invariants.valid_player. cbn. lia.
Defined.

(** The automatic fight of the fresh player and the goblin on counting dice
    from draw 19 ends at once, in victory. *)
Lemma resolve_ends_witness :
  exists log cs' g',
    Combat.resolve Combat.counter Combat.counter_randint Combat.counter_random 1
      (Combat.__init__ Player.default Scenario.goblin) 19
    = Some (Ok (log, cs', g'))
    /\ Combat.outcome log = lit "victory".
Proof.
  eexists. eexists. eexists. split; [lazy; reflexivity |].
  match goal with
  | |- Combat.outcome ?l = _ =>
      destruct (resolve_ends Combat.counter Combat.counter_randint
                  Combat.counter_random 1
                  (Combat.__init__ Player.default Scenario.goblin) _ 19 _ l
                  eq_refl)
        as (_ & _ & [[Hwon _] | [Hlost _]])
  end.
  - exact Hwon.
  - vm_compute in Hlost. discriminate Hlost.
Defined.

(* ------------------------------------------------------------------------- *)
(** ** The validator: what every returned response has *)
(* ------------------------------------------------------------------------- *)

(** A tension_delta of 7.5 comes out as 1. *)
Lemma tension_delta_clamped_witness :
  exists r,
    Scenario.parse Scenario.storm_reply = Ok r
    /\ DungeonMaster.tension_delta r = 1%float
    /\ PrimFloat.leb (-1)%float (DungeonMaster.tension_delta r) = true
    /\ PrimFloat.leb (DungeonMaster.tension_delta r) 1%float = true.
Proof.
  eexists. split; [vm_compute; reflexivity |]. split; [reflexivity |].
  match goal with
  | |- context [DungeonMaster.tension_delta ?r] =>
      apply (tension_delta_clamped Json.loads ascii_lower Json.float_of_str
               Scenario.storm_reply r)
  end.
  vm_compute. reflexivity.
Defined.

(** Plain prose is no JSON: the narrative is the prose, stripped. *)
Lemma narrative_present_witness :
  exists r s,
    Scenario.parse Scenario.prose_reply = Ok r
    /\ DungeonMaster.narrative r = VStr s
    /\ s = lit "The goblin snarls and backs away."
    /\ s <> [].
Proof.
  assert (E : Scenario.parse Scenario.prose_reply
              = Ok (DungeonMaster.narrative_only
                      (VStr (lit "The goblin snarls and backs away.")))).
  { vm_compute. reflexivity. }
  destruct (narrative_present Json.loads ascii_lower Json.float_of_str _ _ E)
    as (s & Hs & Hne).
  eexists. exists s. split; [exact E |].
  split; [exact Hs |]. split; [| exact Hne].
  vm_compute in Hs. injection Hs as <-. vm_compute. reflexivity.
Defined.

(** The goblin reply decodes to an object with a [str] for enemy_type, no
    NPC and no tension_delta: the validator returns. *)
Lemma parse_returns_witness :
  Json.loads (strip (DungeonMaster.sub_fences 0 Scenario.goblin_reply))
  = Ok (VDict Scenario.goblin_object)
  /\ exists r, Scenario.parse Scenario.goblin_reply = Ok r.
Proof.
  split; [vm_compute; reflexivity |].
  apply (parse_returns Json.loads ascii_lower Json.float_of_str
           Scenario.goblin_reply Scenario.goblin_object).
  - vm_compute. reflexivity.
  - reflexivity.
  - intros npc H. vm_compute in H. discriminate H.
  - intros n H. vm_compute in H. discriminate H.
Defined.

Lemma unquoted_run_spec (s : str) :
  ~ In 34%N (fst (DungeonMaster.unquoted_run s)).
Proof.
  induction s as [| c s IH]; cbn; [tauto |].
  destruct (N.eqb_spec c 34); [cbn; tauto |].
  destruct (DungeonMaster.unquoted_run s) as [run rest]. cbn in *.
  intros [H | H]; [exact (n H) | exact (IH H)].
Qed.

Lemma narrative_at_shape (s m : str) :
  DungeonMaster.narrative_at s = Some m ->
  (10 <= length m)%nat /\ ~ In 34%N m.
Proof.
  unfold DungeonMaster.narrative_at.
  destruct (DungeonMaster.drop_prefix _ s) as [r |]; [| discriminate].
  destruct (lstrip r) as [| c r1]; [discriminate |].
  destruct (c =? 58)%N; [| discriminate].
  destruct (lstrip r1) as [| c2 r2]; [discriminate |].
  destruct (c2 =? 34)%N; [| discriminate].
  pose proof (unquoted_run_spec r2) as Hrun.
  destruct (DungeonMaster.unquoted_run r2) as [run rest]. cbn [fst] in Hrun.
  destruct rest; [discriminate |].
  destruct (Nat.leb_spec 10 (length run)) as [Hlen | Hlen]; [| discriminate].
  intros H. injection H as <-. now split.
Qed.

Lemma search_narrative_shape (s m : str) :
  DungeonMaster.search_narrative s = Some m ->
  (10 <= length m)%nat /\ ~ In 34%N m.
Proof.
  induction s as [| c s IH]; cbn [DungeonMaster.search_narrative].
  - destruct (DungeonMaster.narrative_at []) eqn:E; [| discriminate].
    intros H. injection H as <-. exact (narrative_at_shape _ _ E).
  - destruct (DungeonMaster.narrative_at (c :: s)) eqn:E; [| exact IH].
    intros H. injection H as <-. exact (narrative_at_shape _ _ E).
Qed.

Lemma lstrip_length (s : str) : (length (lstrip s) <= length s)%nat.
Proof.
  induction s as [| c s IH]; cbn; [lia |].
  destruct (isspace c); cbn; lia.
Qed.

Lemma strip_length (s : str) : (length (strip s) <= length s)%nat.
Proof.
  unfold strip, rstrip. rewrite length_rev.
  etransitivity; [apply lstrip_length |]. rewrite length_rev.
  apply lstrip_length.
Qed.

(** X16.  The narrative [_extract_narrative_fallback] takes from a reply that is no
    JSON is never empty, and it is either the quoted value of a narrative
    key (ten characters or more, none of them a double quote) or a text of
    at most 200 characters with no blank at either end. *)
Theorem fallback_shape (text : str) :
  let n := DungeonMaster._extract_narrative_fallback text in
  n <> []
  /\ (((10 <= length n)%nat /\ ~ In 34%N n)
      \/ ((length n <= 200)%nat /\ Intent.trimmed n)).
Proof.
  cbv zeta. split; [apply extract_narrative_fallback_nonempty |].
  unfold DungeonMaster._extract_narrative_fallback.
  destruct (DungeonMaster.search_narrative text) as [m |] eqn:E.
  - left. exact (search_narrative_shape _ _ E).
  - right.
    pose proof (strip_length (prefix 200 text)) as Hlen.
    pose proof (strip_trimmed (prefix 200 text)) as Htrim.
    unfold prefix in *. rewrite length_firstn in Hlen.
    destruct (strip (firstn 200 text)) as [| c t].
    + assert (Hd : strip (lit "La mazmorra guarda sus secretos.")
                   = lit "La mazmorra guarda sus secretos.")
        by (vm_compute; reflexivity).
      split; [apply Nat.leb_le; vm_compute; reflexivity |].
      rewrite <- Hd. apply strip_trimmed.
    + split; [lia | exact Htrim].
Qed.


Lemma fence_chars : lit "```" = [96; 96; 96]%N.
Proof. vm_compute. reflexivity. Qed.

Lemma fence_json_chars : lit "```json" = [96; 96; 96; 106; 115; 111; 110]%N.
Proof. vm_compute. reflexivity. Qed.

Lemma starts_with_two (a b : char) (p : str) (c : char) (t : str) :
  DungeonMaster.starts_with (a :: b :: p) (c :: t) = true ->
  c = a /\ Invariants.head_is b t = true.
Proof.
  unfold DungeonMaster.starts_with. cbn [length firstn str_eqb].
  destruct (N.eqb_spec a c) as [-> |]; [| discriminate]. cbn [andb].
  destruct t as [| d t]; [discriminate |]. cbn [firstn str_eqb Invariants.head_is].
  destruct (N.eqb_spec b d) as [-> |]; [| discriminate].
  intros _. split; [reflexivity | apply N.eqb_refl].
Qed.

Lemma starts_with_fence (s : str) :
  DungeonMaster.starts_with (lit "```") s = true <->
  exists r, s = (96 :: 96 :: 96 :: r)%N.
Proof.
  rewrite fence_chars. unfold DungeonMaster.starts_with.
  cbn [length]. split.
  - destruct s as [| a [| b [| c r]]]; cbn [firstn str_eqb]; try discriminate.
    + destruct (96 =? a)%N; discriminate.
    + destruct (96 =? a)%N; [| discriminate]. destruct (96 =? b)%N; discriminate.
    + destruct (N.eqb_spec 96 a) as [<- |]; [| discriminate].
      destruct (N.eqb_spec 96 b) as [<- |]; [| discriminate].
      destruct (N.eqb_spec 96 c) as [<- |]; [| discriminate].
      intros _. now exists r.
  - intros [r ->]. reflexivity.
Qed.

Lemma sub_fences_skip (k : nat) (s : str) :
  DungeonMaster.sub_fences k s = DungeonMaster.sub_fences 0 (skipn k s).
Proof.
  revert k. induction s as [| c t IH]; intros [| k]; try reflexivity.
  cbn [DungeonMaster.sub_fences skipn]. apply IH.
Qed.

Lemma sub_fences_head (s : str) :
  Invariants.head_is 96%N s = false ->
  Invariants.head_is 96%N (DungeonMaster.sub_fences 0 s) = false.
Proof.
  destruct s as [| c t]; [reflexivity |].
  cbn [DungeonMaster.sub_fences Invariants.head_is].
  intros Hc.
  destruct (DungeonMaster.starts_with (lit "```json") (c :: t)) eqn:Ej.
  { rewrite fence_json_chars in Ej. apply starts_with_two in Ej as [-> _].
    discriminate Hc. }
  destruct (DungeonMaster.starts_with (lit "```") (c :: t)) eqn:Ef.
  { rewrite fence_chars in Ef. apply starts_with_two in Ef as [-> _].
    discriminate Hc. }
  exact Hc.
Qed.

Lemma sub_fences_keep (c : char) (t : str) :
  DungeonMaster.starts_with (lit "```json") (c :: t) = false ->
  DungeonMaster.starts_with (lit "```") (c :: t) = false ->
  DungeonMaster.sub_fences 0 (c :: t) = c :: DungeonMaster.sub_fences 0 t.
Proof. intros H1 H2. cbn [DungeonMaster.sub_fences]. now rewrite H1, H2. Qed.

(** X17.  Whatever the reply, the text left once the fences are taken out holds
    no run of three backquotes any more: removing a fence never brings two
    pieces together into a new one. *)
Theorem sub_fences_no_fence (text : str) :
  Invariants.has_fence (DungeonMaster.sub_fences 0 text) = false.
Proof.
  assert (Haux : forall n s,
            (length s <= n)%nat ->
            Invariants.has_fence (DungeonMaster.sub_fences 0 s) = false).
  { induction n as [| n IH]; intros [| c t] Hn; try reflexivity;
      cbn [length] in Hn; [lia |].
    cbn [DungeonMaster.sub_fences].
    destruct (DungeonMaster.starts_with (lit "```json") (c :: t)) eqn:Ej.
    { rewrite sub_fences_skip. apply IH. rewrite length_skipn. lia. }
    destruct (DungeonMaster.starts_with (lit "```") (c :: t)) eqn:Ef.
    { rewrite sub_fences_skip. apply IH. rewrite length_skipn. lia. }
    cbn [Invariants.has_fence]. rewrite (IH t) by lia. rewrite orb_false_r.
    unfold Invariants.fence.
    destruct (DungeonMaster.starts_with (lit "```") (c :: DungeonMaster.sub_fences 0 t))
      eqn:Eo; [exfalso | reflexivity].
    apply starts_with_fence in Eo as [r Eo]. injection Eo as -> Eo.
    assert (Ht : Invariants.head_is 96%N t = true).
    { destruct (Invariants.head_is 96%N t) eqn:E; [reflexivity |].
      apply sub_fences_head in E. rewrite Eo in E. discriminate E. }
    destruct t as [| c1 t2]; [discriminate Ht |]. cbn [Invariants.head_is] in Ht.
    apply N.eqb_eq in Ht. subst c1.
    assert (Ht2 : Invariants.head_is 96%N t2 = false).
    { destruct t2 as [| c2 t3]; [reflexivity |]. cbn [Invariants.head_is].
      destruct (N.eqb_spec c2 96) as [-> |]; [| reflexivity].
      rewrite (proj2 (starts_with_fence _)) in Ef; [discriminate Ef | now eexists]. }
    destruct (DungeonMaster.starts_with (lit "```json") (96%N :: t2)) eqn:Ej2.
    { rewrite fence_json_chars in Ej2. apply starts_with_two in Ej2 as [_ Ej2].
      congruence. }
    destruct (DungeonMaster.starts_with (lit "```") (96%N :: t2)) eqn:Ef2.
    { rewrite fence_chars in Ef2. apply starts_with_two in Ef2 as [_ Ef2].
      congruence. }
    rewrite (sub_fences_keep _ _ Ej2 Ef2) in Eo. injection Eo as Eo.
    apply sub_fences_head in Ht2. rewrite Eo in Ht2. discriminate Ht2. }
  exact (Haux (length text) text (le_n _)).
Qed.

Lemma starts_with_json_fence (s : str) :
  DungeonMaster.starts_with (lit "```json") s = true ->
  DungeonMaster.starts_with (lit "```") s = true.
Proof.
  rewrite fence_json_chars. intros H. apply starts_with_fence.
  unfold DungeonMaster.starts_with in H. cbn [length] in H.
  destruct s as [| a [| b [| c r]]]; cbn [firstn str_eqb] in H.
  - discriminate H.
  - destruct (96 =? a)%N; discriminate H.
  - destruct (96 =? a)%N; [| discriminate H]. destruct (96 =? b)%N; discriminate H.
  - destruct (N.eqb_spec 96 a) as [<- |]; [| discriminate H].
    destruct (N.eqb_spec 96 b) as [<- |]; [| discriminate H].
    destruct (N.eqb_spec 96 c) as [<- |]; [| discriminate H].
    now exists r.
Qed.

(** X18.  A reply without three backquotes in a row passes the removal of fences
    unchanged. *)
Theorem sub_fences_plain (text : str) :
  Invariants.has_fence text = false -> DungeonMaster.sub_fences 0 text = text.
Proof.
  induction text as [| c t IH]; [reflexivity |].
  cbn [Invariants.has_fence DungeonMaster.sub_fences]. intros H.
  apply orb_false_iff in H as [Hf Ht]. unfold Invariants.fence in Hf.
  destruct (DungeonMaster.starts_with (lit "```json") (c :: t)) eqn:Ej.
  { apply starts_with_json_fence in Ej. congruence. }
  rewrite Hf. now rewrite IH.
Qed.

(** The goblin reply has no fence. *)
Lemma sub_fences_plain_witness :
  Invariants.has_fence Scenario.goblin_reply = false
  /\ DungeonMaster.sub_fences 0 Scenario.goblin_reply = Scenario.goblin_reply.
Proof.
  split; [vm_compute; reflexivity |].
  apply sub_fences_plain. vm_compute. reflexivity.
Defined.
(* ------------------------------------------------------------------------- *)
(** ** The world: tension, places, flags and the people met *)
(* ------------------------------------------------------------------------- *)

(** [max(0.0, min(10.0, x))] lies between 0 and 10 whatever [x] is. *)
Lemma clamp_tension (x : float) :
  Invariants.between 0%float 10%float (fmax 0%float (fmin 10%float x)).
Proof.
  unfold Invariants.between, fmin.
  destruct (PrimFloat.ltb x 10) eqn:H1; unfold fmax.
  - destruct (PrimFloat.ltb 0 x) eqn:H2.
    + split; now apply float_ltb_leb.
    + split; reflexivity.
  - split; reflexivity.
Qed.

(** X19.  Whatever the tension was and whatever the delta is, an infinity or a
    NaN included, [adjust_tension] leaves the tension between 0 and 10: it is
    the sum when that lies strictly between 0 and 10, it is 0 for a sum of 0
    or less, and 10 for any other sum, a NaN included. *)
Theorem adjust_tension_bounded (w : World.WorldState) (delta : float) :
  let sum := PrimFloat.add (World.tension w) delta in
  let after := World.tension (World.adjust_tension w delta) in
  Invariants.between 0%float 10%float after
  /\ after
     = (if PrimFloat.ltb sum 10 then (if PrimFloat.ltb 0 sum then sum else 0%float)
        else 10%float).
Proof.
  cbv zeta. unfold World.adjust_tension, Invariants.between.
  cbn [World.tension]. unfold fmin.
  destruct (PrimFloat.ltb (PrimFloat.add (World.tension w) delta) 10) eqn:H1;
    unfold fmax.
  - destruct (PrimFloat.ltb 0 (PrimFloat.add (World.tension w) delta)) eqn:H2.
    + split; [split; now apply float_ltb_leb | reflexivity].
    + split; [split; reflexivity | reflexivity].
  - split; [split; reflexivity | reflexivity].
Qed.

Lemma str_eqb_refl (a : str) : str_eqb a a = true.
Proof. now apply str_eqb_eq. Qed.

Lemma str_eqb_sym (a b : str) : str_eqb a b = str_eqb b a.
Proof.
  destruct (str_eqb a b) eqn:E.
  - apply str_eqb_eq in E. subst. symmetry. apply str_eqb_refl.
  - symmetry. apply str_eqb_neq. apply str_eqb_neq in E. congruence.
Qed.

Lemma lookup_store (k k' : str) (v : value) (d : list (str * value)) :
  lookup k' (store k v d) = if str_eqb k' k then Some v else lookup k' d.
Proof.
  induction d as [| [k0 v0] d IH]; cbn [store lookup].
  - destruct (str_eqb k' k); reflexivity.
  - destruct (str_eqb k k0) eqn:E0; cbn [lookup].
    + apply str_eqb_eq in E0. subst k0.
      destruct (str_eqb k' k); reflexivity.
    + rewrite IH. destruct (str_eqb k' k0) eqn:E1; [| reflexivity].
      apply str_eqb_eq in E1. subst k0.
      rewrite str_eqb_sym, E0. reflexivity.
Qed.

Lemma store_keys (k : str) (v : value) (d : list (str * value)) :
  map fst (store k v d)
  = if str_in k (map fst d) then map fst d else map fst d ++ [k].
Proof.
  induction d as [| [k0 v0] d IH]; [reflexivity |].
  cbn [store map fst str_in existsb]. unfold str_in in *.
  destruct (str_eqb k k0); cbn [orb map fst]; [reflexivity |].
  rewrite IH. destruct (existsb (str_eqb k) (map fst d)); reflexivity.
Qed.

Lemma NoDup_snoc (x : str) (l : list str) :
  NoDup l -> ~ In x l -> NoDup (l ++ [x]).
Proof.
  intros Hl Hx. apply NoDup_app; [exact Hl | repeat constructor; intros [] |].
  intros y Hy [<- | []]. exact (Hx Hy).
Qed.

Lemma NoDup_add (x : str) (l : list str) :
  NoDup l -> NoDup (if str_in x l then l else l ++ [x]).
Proof.
  intros Hl. destruct (str_in x l) eqn:E; [exact Hl |].
  apply NoDup_snoc; [exact Hl |]. intros H. apply str_in_In in H. congruence.
Qed.

(** X20.  A flag reads back as it was set, the other flags read as before, a
    flag never set reads False, and setting a flag never makes a key occur
    twice. *)
Theorem flag_round_trip (w : World.WorldState) (key key' : str) (v : value) :
  World.get_flag (World.set_flag w key v) key'
  = (if str_eqb key' key then v else World.get_flag w key')
  /\ World.get_flag World.default key = VBool false
  /\ (Invariants.unique_keys (World.world_flags w) ->
      Invariants.unique_keys (World.world_flags (World.set_flag w key v))).
Proof.
  unfold World.get_flag, World.set_flag, dict_get, Invariants.unique_keys.
  cbn [World.world_flags]. rewrite lookup_store. split; [| split].
  - destruct (str_eqb key' key); reflexivity.
  - reflexivity.
  - rewrite store_keys. apply NoDup_add.
Qed.

(** X21.  [move_to] makes the place the current one and a visited one; the
    visited places stay without repetition and grow by this place at most;
    an empty description keeps the region's description, any other replaces
    it. *)
Theorem move_to_visited (w : World.WorldState) (place description : str) :
  NoDup (World.visited_locations w) ->
  let w' := World.move_to w place description in
  World.location w' = place
  /\ In place (World.visited_locations w')
  /\ NoDup (World.visited_locations w')
  /\ (World.visited_locations w' = World.visited_locations w
      \/ World.visited_locations w' = World.visited_locations w ++ [place])
  /\ World.region_description w'
     = (if str_eqb description [] then World.region_description w
        else description).
Proof.
  intros Hnd. cbv zeta. unfold World.move_to.
  cbn [World.location World.visited_locations World.region_description].
  split; [reflexivity |]. split; [| split; [| split]].
  - destruct (str_in place (World.visited_locations w)) eqn:E.
    + now apply str_in_In.
    + apply in_or_app. right. now left.
  - now apply NoDup_add.
  - destruct (str_in place (World.visited_locations w)); [now left | now right].
  - destruct description; reflexivity.
Qed.

Lemma move_to_visited_witness :
  NoDup (World.visited_locations World.default)
  /\ World.visited_locations
       (World.move_to (World.move_to World.default (lit "Old Mill") [])
          World.DEFAULT_LOCATION (lit "Home again."))
     = [World.DEFAULT_LOCATION; lit "Old Mill"]
  /\ NoDup (World.visited_locations
              (World.move_to World.default (lit "Old Mill") [])).
Proof.
  assert (H : NoDup (World.visited_locations World.default)).
  { repeat constructor. intros []. }
  split; [exact H |]. split; [vm_compute; reflexivity |].
  exact (proj1 (proj2 (proj2 (move_to_visited World.default (lit "Old Mill") [] H)))).
Defined.

Lemma npc_name_inv (npc : value) (n : str) :
  Invariants.npc_name npc = Some n ->
  exists d, npc = VDict d /\ lookup (lit "name") d = Some (VStr n).
Proof.
  destruct npc as [| | | | | | d]; try discriminate. cbn [Invariants.npc_name].
  destruct (lookup (lit "name") d) as [[| | | | s | |] |] eqn:E; try discriminate.
  intros H. injection H as ->. now exists d.
Qed.

Lemma any_named_roster (name : str) (npcs : list value) (names : list str) :
  map Invariants.npc_name npcs = map Some names ->
  World.any_named name npcs = inr (str_in name names).
Proof.
  revert names. induction npcs as [| npc rest IH]; intros [| n ns] H;
    try discriminate H; [reflexivity |].
  cbn [map] in H. injection H as Hn Hrest.
  apply npc_name_inv in Hn as (d & -> & Hd).
  cbn [World.any_named World.getitem]. rewrite Hd. cbn [World.eq_str].
  unfold str_in. cbn [existsb]. rewrite (str_eqb_sym name n).
  destruct (str_eqb n name); [reflexivity |]. apply (IH ns Hrest).
Qed.

(** X22.  In a world whose known NPCs bear distinct names, [add_npc] raises
    nothing; a name already known leaves the world as it is, a new one adds
    one NPC with the name, role and disposition given, at the end; the names
    stay distinct, and registering the same name once more, under whatever
    role, changes nothing. *)
Theorem add_npc_once (w : World.WorldState) (names : list str) (name : str)
    (role disposition : value) :
  Invariants.roster (World.known_npcs w) names ->
  exists w',
    World.add_npc w name role disposition = inr w'
    /\ Invariants.roster (World.known_npcs w')
         (if str_in name names then names else names ++ [name])
    /\ World.known_npcs w'
       = (if str_in name names then World.known_npcs w
          else World.known_npcs w
               ++ [VDict [ (lit "name", VStr name); (lit "role", role);
                           (lit "disposition", disposition) ]])
    /\ forall role' disposition',
         World.add_npc w' name role' disposition' = inr w'.
Proof.
  intros [Hnames Hnd]. unfold World.add_npc.
  rewrite (any_named_roster name _ _ Hnames).
  destruct (str_in name names) eqn:Hin; eexists; (split; [reflexivity |]).
  - split; [now split |]. split; [reflexivity |].
    intros role' disposition'.
    rewrite (any_named_roster name _ _ Hnames), Hin. reflexivity.
  - cbn [World.known_npcs World.with_known_npcs].
    assert (Hnew : map Invariants.npc_name
                     (World.known_npcs w
                      ++ [VDict [ (lit "name", VStr name); (lit "role", role);
                                  (lit "disposition", disposition) ]])
                   = map Some (names ++ [name])).
    { rewrite !map_app, Hnames. cbn [map]. f_equal. }
    split.
    + split; [exact Hnew |].
      pose proof (NoDup_add name names Hnd) as Hadd. now rewrite Hin in Hadd.
    + split; [reflexivity |]. intros role' disposition'.
      rewrite (any_named_roster name _ _ Hnew).
      unfold str_in. rewrite existsb_app. cbn [existsb].
      rewrite str_eqb_refl, orb_true_r. reflexivity.
Qed.

Lemma name_not_disposition : str_eqb (lit "name") (lit "disposition") = false.
Proof. vm_compute. reflexivity. Qed.

Lemma update_first_roster (name : str) (disposition : value)
    (npcs : list value) (names : list str) :
  map Invariants.npc_name npcs = map Some names ->
  exists npcs',
    World.update_first name disposition npcs = inr (str_in name names, npcs')
    /\ map Invariants.npc_name npcs' = map Some names
    /\ (str_in name names = false -> npcs' = npcs)
    /\ (str_in name names = true ->
        exists d,
          In (VDict d) npcs'
          /\ lookup (lit "name") d = Some (VStr name)
          /\ lookup (lit "disposition") d = Some disposition).
Proof.
  revert names. induction npcs as [| npc rest IH]; intros [| n ns] H;
    try discriminate H.
  - exists []. repeat split; try reflexivity; discriminate.
  - cbn [map] in H. injection H as Hn Hrest.
    pose proof Hn as Hn'. apply npc_name_inv in Hn' as (d & -> & Hd).
    cbn [World.update_first]. rewrite Hd. cbn [World.eq_str].
    unfold str_in. cbn [existsb]. rewrite (str_eqb_sym name n).
    destruct (str_eqb n name) eqn:E; cbn [orb].
    + apply str_eqb_eq in E. subst n. eexists. split; [reflexivity |].
      assert (Hname : lookup (lit "name") (store (lit "disposition") disposition d)
                      = Some (VStr name)).
      { rewrite lookup_store, name_not_disposition. exact Hd. }
      split; [| split; [discriminate |]].
      * cbn [map]. f_equal; [| exact Hrest].
        unfold Invariants.npc_name. now rewrite Hname.
      * intros _. eexists. split; [now left |]. split; [exact Hname |].
        rewrite lookup_store, str_eqb_refl. reflexivity.
    + destruct (IH ns Hrest) as (rest' & -> & Hmap & Hsame & Hset).
      fold (str_in name ns) in *. eexists. split; [reflexivity |].
      split; [| split].
      * cbn [map]. now f_equal.
      * intros Hout. now rewrite (Hsame Hout).
      * intros Hin. destruct (Hset Hin) as (d' & Hd' & Hx).
        exists d'. split; [now right | exact Hx].
Qed.

(** X23.  In a world whose known NPCs bear distinct names,
    [update_npc_disposition] raises nothing and answers whether the name is
    known; every NPC keeps its name; an unknown name leaves the world as it
    is, and after a known one the NPC of that name has the disposition
    given. *)
Theorem update_npc_disposition_known (w : World.WorldState) (names : list str)
    (name : str) (disposition : value) :
  Invariants.roster (World.known_npcs w) names ->
  exists w',
    World.update_npc_disposition w name disposition = inr (str_in name names, w')
    /\ Invariants.roster (World.known_npcs w') names
    /\ (str_in name names = false -> w' = w)
    /\ (str_in name names = true ->
        exists d,
          In (VDict d) (World.known_npcs w')
          /\ lookup (lit "name") d = Some (VStr name)
          /\ lookup (lit "disposition") d = Some disposition).
Proof.
  intros [Hnames Hnd]. unfold World.update_npc_disposition.
  destruct (update_first_roster name disposition _ _ Hnames)
    as (npcs' & -> & Hmap & Hsame & Hset).
  eexists. split; [reflexivity |]. cbn [World.known_npcs World.with_known_npcs].
  split; [now split |]. split; [| exact Hset].
  intros Hout. rewrite (Hsame Hout). now destruct w.
Qed.

(** In the tavern, where Mara is known: Bob the smith joins her on the
    roster. *)
Lemma add_npc_once_witness :
  Invariants.roster (World.known_npcs Scenario.tavern) [lit "Mara"]
  /\ exists w',
       World.add_npc Scenario.tavern (lit "Bob") (VStr (lit "smith"))
         (VStr (lit "friendly")) = inr w'
       /\ Invariants.roster (World.known_npcs w') [lit "Mara"; lit "Bob"].
Proof.
  assert (H : Invariants.roster (World.known_npcs Scenario.tavern) [lit "Mara"]).
  { split; [vm_compute; reflexivity |]. repeat constructor. intros []. }
  split; [exact H |].
  destruct (add_npc_once Scenario.tavern [lit "Mara"] (lit "Bob")
              (VStr (lit "smith")) (VStr (lit "friendly")) H)
    as (w' & Hadd & Hroster & _).
  exists w'. split; [exact Hadd |].
  assert (Hnew : str_in (lit "Bob") [lit "Mara"] = false)
    by (vm_compute; reflexivity).
  rewrite Hnew in Hroster. exact Hroster.
Defined.

(** In the tavern: Mara turns hostile, and Bob is not known. *)
Lemma update_npc_disposition_known_witness :
  Invariants.roster (World.known_npcs Scenario.tavern) [lit "Mara"]
  /\ (exists w' d,
        World.update_npc_disposition Scenario.tavern (lit "Mara")
          (VStr (lit "hostile")) = inr (true, w')
        /\ In (VDict d) (World.known_npcs w')
        /\ lookup (lit "disposition") d = Some (VStr (lit "hostile")))
  /\ World.update_npc_disposition Scenario.tavern (lit "Bob")
        (VStr (lit "hostile")) = inr (false, Scenario.tavern).
Proof.
  assert (H : Invariants.roster (World.known_npcs Scenario.tavern) [lit "Mara"]).
  { split; [vm_compute; reflexivity |]. repeat constructor. intros []. }
  split; [exact H |]. split.
  - destruct (update_npc_disposition_known Scenario.tavern [lit "Mara"]
                (lit "Mara") (VStr (lit "hostile")) H)
      as (w' & Hupdate & _ & _ & Hset).
    assert (Hin : str_in (lit "Mara") [lit "Mara"] = true)
      by (vm_compute; reflexivity).
    rewrite Hin in Hupdate. destruct (Hset Hin) as (d & Hd & _ & Hdisp).
    exists w', d. now repeat split.
  - vm_compute. reflexivity.
Defined.

(* ------------------------------------------------------------------------- *)
(** ** The engine: a validated response applied to the world *)
(* ------------------------------------------------------------------------- *)

Lemma move_to_valid (w : World.WorldState) (place description : str) :
  Invariants.valid_world w ->
  Invariants.valid_world (World.move_to w place description).
Proof.
  intros (Ht & _ & Hnd). unfold Invariants.valid_world, World.move_to.
  cbn [World.tension World.location World.visited_locations].
  split; [exact Ht |]. split; [| now apply NoDup_add].
  destruct (str_in place (World.visited_locations w)) eqn:E.
  - now apply str_in_In.
  - apply in_or_app. right. now left.
Qed.

Lemma adjust_tension_valid (w : World.WorldState) (delta : float) :
  Invariants.valid_world w ->
  Invariants.valid_world (World.adjust_tension w delta).
Proof.
  intros (_ & Hl & Hnd). split; [apply clamp_tension | now split].
Qed.

(** What [add_npc] returns where every known NPC has a name. *)
Lemma add_npc_result (w : World.WorldState) (names : list str) (name : str)
    (role disposition : value) :
  Invariants.roster (World.known_npcs w) names ->
  exists npcs,
    World.add_npc w name role disposition = inr (World.with_known_npcs w npcs)
    /\ Invariants.roster npcs (if str_in name names then names else names ++ [name]).
Proof.
  intros [Hnames Hnd]. unfold World.add_npc.
  rewrite (any_named_roster name _ _ Hnames).
  destruct (str_in name names) eqn:Hin.
  - exists (World.known_npcs w). split; [now destruct w | now split].
  - eexists. split; [reflexivity |]. split.
    + rewrite !map_app, Hnames. cbn [map]. f_equal.
    + pose proof (NoDup_add name names Hnd) as Hadd. now rewrite Hin in Hadd.
Qed.

Section EngineWorld.

Variable rng : Type.
Variable repr : value -> str.
Variable loads : str -> result value.
Variable lower : str -> str.
Variable str_to_float : str -> option float.

Local Abbreviation GameEngine := (Engine.GameEngine rng).
Local Abbreviation print := (Engine.print rng).
Local Abbreviation extends := (Engine.extends rng).
Local Abbreviation world := (Engine.world rng).
Local Abbreviation with_world := (Engine.with_world rng).
Local Abbreviation _apply_world_changes := (Engine._apply_world_changes rng repr).
Local Abbreviation _parse := (DungeonMaster._parse loads lower str_to_float).

(** The fields of a validated response the world is changed by: an NPC
    descriptor of three keys with a text for name, or none; a place and a
    description that are texts, or none. *)
Lemma parse_world_fields (raw : str) (r : DungeonMaster.DMResponse) :
  _parse raw = Ok r ->
  (DungeonMaster.new_npc r = VNone
   \/ exists name role disposition,
        DungeonMaster.new_npc r
        = VDict [ (lit "name", VStr name); (lit "role", role);
                  (lit "disposition", disposition) ])
  /\ Intent.present_text (DungeonMaster.new_location r)
  /\ Intent.present_text (DungeonMaster.location_description r).
Proof.
  intros H.
  destruct (parse_ok_inv _ _ _ raw r H)
    as [[_ ->] | (d & known & npc & _ & _ & Hnpc & _ & _ & Hr & _ & Hf & _)].
  - split; [now left |]. split; now left.
  - split; [| split].
    + rewrite Hr.
      destruct (validate_npc_cases _ _ Hnpc)
        as [-> | (d' & n & disp & _ & _ & _ & _ & ->)]; [now left |].
      right. now eexists _, _, _.
    + rewrite (Hf (lit "new_location") _); [apply safe_str_present |].
      cbn. auto.
    + rewrite (Hf (lit "location_description") _); [apply safe_str_present |].
      cbn. auto.
Qed.

Lemma npc_descriptor_items (name role disposition : value) :
  let npc := VDict [ (lit "name", name); (lit "role", role);
                     (lit "disposition", disposition) ] in
  World.getitem npc (lit "name") = inr name
  /\ World.getitem npc (lit "role") = inr role
  /\ World.getitem npc (lit "disposition") = inr disposition.
Proof. cbv zeta. repeat split; vm_compute; reflexivity. Qed.


End EngineWorld.

(* ------------------------------------------------------------------------- *)
(** ** The engine: from a validated response to the end of the encounter *)
(* ------------------------------------------------------------------------- *)

Lemma valid_enemy_type (key : str) :
  In key DungeonMaster.VALID_ENEMY_TYPES ->
  truthy (VStr key) = true /\ exists enemy, Combat.get_enemy (VStr key) = Ok enemy.
Proof.
  intros H. cbn in H.
  repeat (destruct H as [<- | H]; [split; [| eexists]; vm_compute; reflexivity |]).
  contradiction.
Qed.

Lemma outcomes_differ :
  str_eqb (lit "defeat") (lit "victory") = false
  /\ str_eqb (lit "fled") (lit "victory") = false
  /\ str_eqb (lit "fled") (lit "defeat") = false.
Proof. repeat split; vm_compute; reflexivity. Qed.

Section EngineCombat.

Variable rng : Type.
Variable randint : Z -> Z -> rng -> Z * rng.
Variable random : rng -> float * rng.
Variable lower : str -> str.
Variable repr : value -> str.
Variable loads : str -> result value.
Variable str_to_float : str -> option float.

Local Abbreviation GameEngine := (Engine.GameEngine rng).
Local Abbreviation print := (Engine.print rng).
Local Abbreviation extends := (Engine.extends rng).
Local Abbreviation world := (Engine.world rng).
Local Abbreviation memory := (Engine.memory rng).
Local Abbreviation input := (Engine.input rng).
Local Abbreviation combat_loop := (Engine.combat_loop rng randint random lower).
Local Abbreviation combat_summary := (Engine.combat_summary rng).
Local Abbreviation encounter := (Engine.encounter rng randint random lower).
Local Abbreviation _run_combat := (Engine._run_combat rng randint random lower repr).
Local Abbreviation combat_step := (Engine.combat_step rng randint random lower repr).
Local Abbreviation resolve_round := (Combat.resolve_round rng randint random).
Local Abbreviation enemy_turn := (Combat.enemy_turn rng randint).
Local Abbreviation _parse := (DungeonMaster._parse loads lower str_to_float).

(** X25.  Whatever the narrative service replied, the combat step of a response
    the validator returned never meets an enemy the registry does not know:
    without combat_trigger nothing happens; with it, the step is the
    encounter against the enemy [get_enemy] returns for a registered key,
    which is the enemy_type of the response or, when that is None, goblin
    after the engine's note. *)
Theorem validated_combat_dispatch (fuel : nat) (raw : str)
    (r : DungeonMaster.DMResponse) (self : GameEngine) :
  _parse raw = Ok r ->
  (DungeonMaster.combat_trigger r = false
   /\ combat_step fuel r self = Some (Ok self))
  \/ (DungeonMaster.combat_trigger r = true
      /\ exists key enemy start,
           In key DungeonMaster.VALID_ENEMY_TYPES
           /\ Combat.get_enemy (VStr key) = Ok enemy
           /\ combat_step fuel r self = encounter fuel enemy start
           /\ ((DungeonMaster.enemy_type r = VStr key /\ start = self)
               \/ (DungeonMaster.enemy_type r = VNone
                   /\ key = lit "goblin"
                   /\ start
                      = print self
                          (nl ++ lit "[Engine: la IA lanzó combate sin tipo de enemigo — usando goblin por defecto]")))).
Proof.
  intros H. unfold Engine.combat_step.
  destruct (parse_ok_inv _ _ _ raw r H)
    as [[_ ->] | (d & known & npc & _ & Hknown & _ & _ & Htype & _)].
  - left. now split.
  - destruct (DungeonMaster.combat_trigger r); [right | left; now split].
    split; [reflexivity |]. cbn [negb andb] in *.
    destruct known; cbn [negb] in Htype.
    + apply in_str_set_true in Hknown as (key & Hkey & Hin).
      rewrite Hkey in Htype. rewrite Htype.
      destruct (valid_enemy_type key Hin) as (-> & enemy & Henemy).
      exists key, enemy, self. split; [exact Hin |]. split; [exact Henemy |].
      split; [| left; now split].
      unfold Engine._run_combat. now rewrite Henemy.
    + rewrite Htype. cbn [truthy].
      assert (Hin : In (lit "goblin") DungeonMaster.VALID_ENEMY_TYPES)
        by (cbn; auto).
      destruct (valid_enemy_type _ Hin) as (_ & enemy & Henemy).
      eexists _, enemy, _. split; [exact Hin |]. split; [exact Henemy |].
      split; [| right; now repeat split].
      unfold Engine._run_combat. now rewrite Henemy.
Qed.

(** A round keeps the enemy's name, and a round that returns false leaves
    one of the three final outcomes. *)
Lemma round_final (cs cs' : Combat.CombatSystem) (action : str) (g g' : rng)
    (still : bool) :
  resolve_round cs action g = Ok (still, cs', g') ->
  Combat.name (Combat.enemy cs') = Combat.name (Combat.enemy cs)
  /\ (still = false -> Invariants.terminal (Combat.outcome (Combat.log cs'))).
Proof.
  unfold Combat.resolve_round.
  destruct (str_eqb action (lit "flee")).
  - destruct (Combat.attempt_flee rng random cs g) as [[escaped g1] | e];
      cbn [bind]; [| discriminate].
    destruct escaped.
    + intros H. injection H as _ <- _. split; [reflexivity |].
      intros _. now left.
    + intros H. injection H as H.
      destruct (enemy_turn_outcome _ _ _ _ _ _ _ H) as (-> & _ & Hoff).
      split; [reflexivity |]. intros Hs.
      destruct (Hoff Hs) as [[Ho _] | [Ho _]]; [right; now left | right; now right].
  - destruct (Combat.roll_d20 rng randint g) as [p_roll g1].
    intros H. injection H as H.
    destruct (enemy_turn_outcome _ _ _ _ _ _ _ H) as (-> & _ & Hoff).
    split.
    + destruct (p_roll =? 20); [reflexivity |].
      destruct (Combat._player_hits cs p_roll); reflexivity.
    + intros Hs.
      destruct (Hoff Hs) as [[Ho _] | [Ho _]]; [right; now left | right; now right].
Qed.

(** The loop of an encounter touches neither the world nor the memory; when
    it ends, the engine's player is the combat system's, the enemy has the
    name it had, and the outcome is final. *)
Lemma combat_loop_keeps (fuel : nat) :
  forall (combat combat' : Combat.CombatSystem) (a b : GameEngine),
    combat_loop fuel combat a = Some (Ok (combat', b)) ->
    world b = world a
    /\ memory b = memory a
    /\ Engine.player rng b = Combat.player combat'
    /\ Combat.name (Combat.enemy combat') = Combat.name (Combat.enemy combat)
    /\ Invariants.terminal (Combat.outcome (Combat.log combat')).
Proof.
  induction fuel as [| fuel IH]; intros combat combat' a b H; [discriminate H |].
  cbn [Engine.combat_loop] in H.
  destruct (Player.status_str _) as [status | e]; [| discriminate H].
  set (a3 := print (print (print a _) _) _) in H.
  destruct (input a3 (lit "> ")) as [line a4] eqn:Hin.
  assert (H4 : world a4 = world a /\ memory a4 = memory a).
  { unfold Engine.input in Hin.
    destruct (Engine.stdin rng a3); injection Hin as _ <-; now split. }
  destruct H4 as [Hw4 Hm4].
  assert (Hgo : forall choice,
    match
      (if str_in choice [lit "a"; lit "attack"; []] then Some (lit "attack")
       else if str_in choice [lit "f"; lit "flee"] then Some (lit "flee")
       else None)
    with
    | None =>
        combat_loop fuel combat (print a4 (lit "Atacar o huir — elige con sabiduría."))
    | Some action =>
        match Combat.resolve_round rng randint random combat action (Engine.dice rng a4) with
        | Raise e => Some (Raise e)
        | Ok (still_fighting, combat0, g) =>
            let self :=
              Engine.with_player rng (Engine.with_dice rng a4 g) (Combat.player combat0) in
            let self :=
              match rev (Combat.rounds (Combat.log combat0)) with
              | [] => self
              | latest :: _ => print self latest
              end in
            if negb still_fighting then Some (Ok (combat0, self))
            else combat_loop fuel combat0 self
        end
    end = Some (Ok (combat', b)) ->
    world b = world a
    /\ memory b = memory a
    /\ Engine.player rng b = Combat.player combat'
    /\ Combat.name (Combat.enemy combat') = Combat.name (Combat.enemy combat)
    /\ Invariants.terminal (Combat.outcome (Combat.log combat'))).
  { intros choice Hc.
    destruct (if str_in choice _ then _ else _) as [action |].
    - destruct (Combat.resolve_round _ _ _ _ _ _) as [[[still combat0] g] | e]
        eqn:Hround; [| discriminate Hc].
      destruct (round_final _ _ _ _ _ _ Hround) as [Hname Hfinal].
      cbv zeta in Hc.
      set (a5 := Engine.with_player rng _ _) in Hc.
      set (a6 := match rev _ with [] => a5 | latest :: _ => print a5 latest end) in Hc.
      assert (H6 : world a6 = world a /\ memory a6 = memory a
                   /\ Engine.player rng a6 = Combat.player combat0).
      { subst a6. destruct (rev _); now repeat split. }
      destruct H6 as (Hw6 & Hm6 & Hp6).
      destruct still; cbn [negb] in Hc.
      + destruct (IH _ _ _ _ Hc) as (Hw & Hm & Hp & Hn & Ht).
        repeat split; first [congruence | exact Ht].
      + injection Hc as <- <-.
        repeat split; first [congruence | now apply Hfinal].
    - destruct (IH _ _ _ _ Hc) as (Hw & Hm & Hp & Hn & Ht).
      cbn [Engine.world Engine.memory Engine.print] in Hw, Hm.
      repeat split; first [congruence | exact Ht]. }
  destruct line as [line |];
    [exact (Hgo (lower (strip line)) H) | exact (Hgo (lit "flee") H)].
Qed.


End EngineCombat.

Lemma default_world_valid : Invariants.valid_world World.default.
Proof.
  unfold Invariants.valid_world, World.default.
  cbn [World.tension World.location World.visited_locations].
  split; [split; reflexivity |]. split; [apply in_eq |].
  apply NoDup_cons; [intros [] | apply NoDup_nil].
Qed.


(** The goblin reply at a fresh game: the step is the encounter against the
    goblin of the registry. *)
Lemma validated_combat_dispatch_witness :
  exists r key enemy,
    Scenario.parse Scenario.goblin_reply = Ok r
    /\ DungeonMaster.enemy_type r = VStr key
    /\ Combat.get_enemy (VStr key) = Ok enemy
    /\ Scenario.combat_step 3 r Scenario.fresh_game
       = Engine.encounter Combat.script Combat.script_randint
           Combat.script_random ascii_lower 3 enemy Scenario.fresh_game.
Proof.
  assert (Hparse : exists r, Scenario.parse Scenario.goblin_reply = Ok r
                             /\ DungeonMaster.combat_trigger r = true
                             /\ DungeonMaster.enemy_type r <> VNone).
  { eexists. split; [vm_compute; reflexivity |]. split; [reflexivity | discriminate]. }
  destruct Hparse as (r & Hr & Htrigger & Hsome).
  destruct (validated_combat_dispatch Combat.script Combat.script_randint
              Combat.script_random ascii_lower repr_plain Json.loads
              Json.float_of_str 3 Scenario.goblin_reply r Scenario.fresh_game Hr)
    as [[Hoff _] | (_ & key & enemy & start & _ & Hget & Hstep
                    & [[Htype ->] | [Htype _]])].
  - congruence.
  - exists r, key, enemy. now repeat split.
  - contradiction.
Defined.


(* ------------------------------------------------------------------------- *)
(** ** The session with the narrative service *)
(* ------------------------------------------------------------------------- *)

(** The history with a new message of the user: what is kept of the older
    messages is their last eleven at most, and nothing is dropped before
    there are eleven to keep. *)
Lemma remembered_spec (history : list DungeonMaster.message) (text : str) :
  let user := {| DungeonMaster.role := lit "user"; DungeonMaster.content := text |} in
  exists dropped kept,
    history = dropped ++ kept
    /\ DungeonMaster.remembered history text = kept ++ [user]
    /\ (length kept <= 11)%nat
    /\ (dropped = [] \/ length kept = 11%nat).
Proof.
  cbv zeta. unfold DungeonMaster.remembered.
  set (user := {| DungeonMaster.role := _; DungeonMaster.content := text |}).
  rewrite length_app. cbn [length].
  destruct (Nat.ltb_spec 12 (length history + 1)) as [Hlong | Hshort].
  - exists (firstn (length history + 1 - 12) history),
           (skipn (length history + 1 - 12) history).
    split; [symmetry; apply firstn_skipn |]. split.
    + rewrite skipn_app.
      replace (length history + 1 - 12 - length history)%nat with 0%nat by lia.
      reflexivity.
    + rewrite length_skipn. split; [lia | right; lia].
  - exists [], history. split; [reflexivity |]. split; [reflexivity |].
    split; [lia | now left].
Qed.

Section Session.

Variable loads : str -> result value.
Variable lower : str -> str.
Variable str_to_float : str -> option float.
Variable repr : value -> str.
Variable create : list DungeonMaster.message -> str + str.

Local Abbreviation _parse := (DungeonMaster._parse loads lower str_to_float).
Local Abbreviation narrate :=
  (DungeonMaster.narrate loads lower str_to_float repr create).
Local Abbreviation build_user_message := (Prompts.build_user_message (format_ repr)).
Local Abbreviation message := DungeonMaster.message.

(** X27.  Whatever the history was, what [narrate] sends is the system prompt, at
    most eleven of the latest messages, and the user's message of this
    turn; older messages are dropped, and only when eleven are kept.  The
    history afterwards is what was sent without the system prompt, and the
    reply of the service after it when there was one: thirteen messages at
    most. *)
Theorem narrate_request (history : list message)
    (player_dict world_context : list (str * value))
    (memory_block player_action : str) :
  let user :=
    {| DungeonMaster.role := lit "user";
       DungeonMaster.content :=
         build_user_message player_dict world_context memory_block player_action |} in
  let system :=
    {| DungeonMaster.role := lit "system";
       DungeonMaster.content := Prompts.SYSTEM_PROMPT |} in
  let history' :=
    fst (fst (narrate history player_dict world_context memory_block player_action)) in
  exists dropped kept,
    history = dropped ++ kept
    /\ (length kept <= 11)%nat
    /\ (dropped = [] \/ length kept = 11%nat)
    /\ (length history' <= 13)%nat
    /\ match create (system :: kept ++ [user]) with
       | inl _ => history' = kept ++ [user]
       | inr content =>
           history'
           = kept ++ [user; {| DungeonMaster.role := lit "assistant";
                               DungeonMaster.content := strip content |}]
       end.
Proof.
  cbv zeta. unfold DungeonMaster.narrate.
  destruct (remembered_spec history
              (build_user_message player_dict world_context memory_block player_action))
    as (dropped & kept & Hsplit & -> & Hlen & Hdrop).
  exists dropped, kept. split; [exact Hsplit |]. split; [exact Hlen |].
  split; [exact Hdrop |].
  destruct (create _) as [exc | content]; cbn [fst].
  - split; [rewrite length_app; cbn [length]; lia | reflexivity].
  - split; [rewrite !length_app; cbn [length]; lia |].
    now rewrite <- app_assoc.
Qed.

(** X28.  [narrate] raises exactly when the service replied and [_parse] raises on
    the stripped reply, since the call of [_parse] is past the [try].  A
    failure of the service never raises: the response is then the fixed one,
    with no combat, no change to the world, and a memory event that quotes
    at most sixty characters of the action. *)
Theorem narrate_raises_iff (history : list message)
    (player_dict world_context : list (str * value))
    (memory_block player_action : str) :
  let sent :=
    {| DungeonMaster.role := lit "system";
       DungeonMaster.content := Prompts.SYSTEM_PROMPT |}
    :: DungeonMaster.remembered history
         (build_user_message player_dict world_context memory_block player_action) in
  let response :=
    snd (narrate history player_dict world_context memory_block player_action) in
  (forall e,
     response = Raise e
     <-> exists content, create sent = inr content /\ _parse (strip content) = Raise e)
  /\ (forall exc,
        create sent = inl exc ->
        exists r action,
          response = Ok r
          /\ DungeonMaster.combat_trigger r = false
          /\ DungeonMaster.enemy_type r = VNone
          /\ DungeonMaster.new_npc r = VNone
          /\ DungeonMaster.new_location r = VNone
          /\ DungeonMaster.tension_delta r = zero
          /\ DungeonMaster.memory_event r
             = VStr (lit "[Error de API en el turno — acción: " ++ action ++ lit "]")
          /\ (length action <= 60)%nat
          /\ exists rest, player_action = action ++ rest).
Proof.
  cbv zeta. unfold DungeonMaster.narrate. split.
  - intros e. destruct (create _) as [exc | content]; cbn [snd].
    + split; [discriminate |]. intros (content & H & _). discriminate H.
    + split.
      * intros H. now exists content.
      * intros (c & H & He). injection H as ->. exact He.
  - intros exc ->. cbn [snd]. eexists. exists (prefix 60 player_action).
    split; [reflexivity |]. cbn [DungeonMaster.combat_trigger
      DungeonMaster.enemy_type DungeonMaster.new_npc DungeonMaster.new_location
      DungeonMaster.tension_delta DungeonMaster.memory_event].
    repeat (split; [reflexivity |]). unfold prefix. split.
    + rewrite length_firstn. lia.
    + exists (skipn 60 player_action). symmetry. apply firstn_skipn.
Qed.

End Session.

(* ------------------------------------------------------------------------- *)
(** ** Persistence: what was saved loads back *)
(* ------------------------------------------------------------------------- *)

Lemma strs_map (l : list str) : strs (map VStr l) = Some l.
Proof.
  induction l as [| s l IH]; [reflexivity |]. cbn [map strs]. now rewrite IH.
Qed.

Lemma strs_or_map (l default : list str) :
  strs_or (Some (VList (map VStr l))) default
  = Some (match l with [] => default | _ => l end).
Proof.
  destruct l as [| s l]; [reflexivity |].
  unfold strs_or. cbn [map truthy]. apply (strs_map (s :: l)).
Qed.

Lemma player_init_to_dict (p : Player.Player) :
  Player.__init__ (Player.to_dict p) = Some (Ok p).
Proof.
  destruct p as [n h m s i g inv l x]. unfold Player.__init__.
  assert (Hkeys : expected Player.PARAMETERS
                    (Player.to_dict (Player.Build_Player n h m s i g inv l x))
                  = true) by (vm_compute; reflexivity).
  rewrite Hkeys. cbn [negb].
  set (vs := map VStr inv).
  change (Player.to_dict (Player.Build_Player n h m s i g inv l x))
    with [ (lit "name", VStr n); (lit "hp", VInt h); (lit "max_hp", VInt m);
           (lit "strength", VInt s); (lit "intelligence", VInt i);
           (lit "gold", VInt g); (lit "inventory", VList vs);
           (lit "level", VInt l); (lit "xp", VInt x) ].
  assert (Hvs : strs vs = Some inv) by apply strs_map.
  clearbody vs.
  repeat match goal with
         | |- context [lookup (lit ?k) ?d] =>
             let r := eval vm_compute in (lookup (lit k) d) in
             replace (lookup (lit k) d) with r by (vm_compute; reflexivity)
         end.
  cbn [str_arg int_arg obind]. rewrite Hvs. reflexivity.
Qed.

Lemma memory_init_to_dict (m : Memory.MemorySystem) :
  Memory.__init__ (Memory.to_dict m) = Some (Ok m).
Proof.
  destruct m as [ev su]. unfold Memory.__init__.
  assert (Hkeys : expected Memory.PARAMETERS
                    (Memory.to_dict (Memory.Build_MemorySystem ev su)) = true)
    by (vm_compute; reflexivity).
  rewrite Hkeys. cbn [negb].
  assert (He : lookup (lit "events")
                 (Memory.to_dict (Memory.Build_MemorySystem ev su))
               = Some (VList (map VStr ev))) by (vm_compute; reflexivity).
  assert (Hs : lookup (lit "summaries")
                 (Memory.to_dict (Memory.Build_MemorySystem ev su))
               = Some (VList (map VStr su))) by (vm_compute; reflexivity).
  rewrite He, Hs, !strs_or_map. cbn [obind].
  destruct ev, su; reflexivity.
Qed.

(** X29.  Whatever the player and the memory are: from a file that decodes to what
    [to_dict] gave, [load] returns the player, and the memory, that were
    saved, field by field; and without a file, the default ones. *)
Theorem saved_state_loads_back (loads : str -> result value)
    (p : Player.Player) (m : Memory.MemorySystem) (player_text memory_text : str) :
  loads player_text = Ok (VDict (Player.to_dict p)) ->
  loads memory_text = Ok (VDict (Memory.to_dict m)) ->
  Player.load loads (Some player_text) = Some (Ok p)
  /\ Memory.load loads (Some memory_text) = Some (Ok m)
  /\ Player.load loads None = Some (Ok Player.default)
  /\ Memory.load loads None = Some (Ok Memory.default).
Proof.
  intros Hp Hm. unfold Player.load, Memory.load. rewrite Hp, Hm.
  split; [apply player_init_to_dict |]. split; [apply memory_init_to_dict |].
  split; reflexivity.
Qed.

(** The save files of a new game. *)
Lemma saved_state_loads_back_witness :
  Json.loads Scenario.player_file = Ok (VDict (Player.to_dict Player.default))
  /\ Json.loads Scenario.memory_file = Ok (VDict (Memory.to_dict Memory.default))
  /\ Player.load Json.loads (Some Scenario.player_file) = Some (Ok Player.default)
  /\ Memory.load Json.loads (Some Scenario.memory_file) = Some (Ok Memory.default).
Proof.
  assert (Hp : Json.loads Scenario.player_file
               = Ok (VDict (Player.to_dict Player.default)))
    by (vm_compute; reflexivity).
  assert (Hm : Json.loads Scenario.memory_file
               = Ok (VDict (Memory.to_dict Memory.default)))
    by (vm_compute; reflexivity).
  split; [exact Hp |]. split; [exact Hm |].
  destruct (saved_state_loads_back Json.loads Player.default Memory.default
              _ _ Hp Hm) as (H1 & H2 & _).
  split; [exact H1 | exact H2].
Defined.

(** X30.  The world comes back from its file with the tension clamped once more
    and, when no place was listed as visited, with the location as the one
    visited place; everything else is as it was saved.  So a world whose
    tension is a clamped one and that has visited a place loads back
    unchanged. *)
Theorem saved_world_loads_back (loads : str -> result value)
    (w : World.WorldState) (text : str) :
  loads text = Ok (VDict (World.to_dict w)) ->
  World.load loads (Some text)
  = Some (Ok {| World.location := World.location w;
                World.region_description := World.region_description w;
                World.active_quest := World.active_quest w;
                World.known_npcs := World.known_npcs w;
                World.tension := fmax 0%float (fmin 10%float (World.tension w));
                World.turn_count := World.turn_count w;
                World.visited_locations :=
                  match World.visited_locations w with
                  | [] => [World.location w]
                  | _ => World.visited_locations w
                  end;
                World.world_flags := World.world_flags w |})
  /\ (World.visited_locations w <> [] ->
      fmax 0%float (fmin 10%float (World.tension w)) = World.tension w ->
      World.load loads (Some text) = Some (Ok w)).
Proof.
  intros Hw. unfold World.load. rewrite Hw.
  match goal with
  | |- ?lhs = Some (Ok ?r) /\ _ => assert (Hinit : lhs = Some (Ok r))
  end.
  { destruct w as [lo re q npcs t n vis fl]. unfold World.__init__.
    assert (Hkeys : expected World.PARAMETERS
                      (World.to_dict (World.Build_WorldState lo re q npcs t n vis fl))
                    = true) by (vm_compute; reflexivity).
    rewrite Hkeys. cbn [negb].
    unfold dict_get.
    set (vs := map VStr vis).
    change (World.to_dict (World.Build_WorldState lo re q npcs t n vis fl))
      with [ (lit "location", VStr lo); (lit "region_description", VStr re);
             (lit "active_quest", q); (lit "known_npcs", VList npcs);
             (lit "tension", VFloat t); (lit "turn_count", VInt n);
             (lit "visited_locations", VList vs); (lit "world_flags", VDict fl) ].
    assert (Hvs : forall default,
              strs_or (Some (VList vs)) default
              = Some (match vis with [] => default | _ => vis end))
      by (intros default; apply strs_or_map).
    clearbody vs.
    repeat match goal with
           | |- context [lookup (lit ?k) ?d] =>
               let r := eval vm_compute in (lookup (lit k) d) in
               replace (lookup (lit k) d) with r by (vm_compute; reflexivity)
           end.
    cbn [str_arg int_arg obind World.tension_arg]. rewrite Hvs.
    cbn [World.tension World.visited_locations World.location
         World.region_description World.active_quest World.known_npcs
         World.turn_count World.world_flags obind].
    destruct npcs, fl; reflexivity. }
  split; [exact Hinit |]. intros Hv Ht. rewrite Hinit. do 2 f_equal.
  destruct w as [lo re q npcs t n vis fl].
  cbn [World.tension World.visited_locations World.location
       World.region_description World.active_quest World.known_npcs
       World.turn_count World.world_flags] in *.
  rewrite Ht. destruct vis; [contradiction | reflexivity].
Qed.

(** The world of a new game, saved after the region got a shorter
    description. *)
Lemma saved_world_loads_back_witness :
  Json.loads Scenario.world_file = Ok (VDict (World.to_dict Scenario.saved_world))
  /\ World.load Json.loads (Some Scenario.world_file) = Some (Ok Scenario.saved_world).
Proof.
  assert (Hw : Json.loads Scenario.world_file
               = Ok (VDict (World.to_dict Scenario.saved_world)))
    by (vm_compute; reflexivity).
  split; [exact Hw |].
  apply (proj2 (saved_world_loads_back Json.loads Scenario.saved_world _ Hw)).
  - discriminate.
  - reflexivity.
Defined.
